(** * Empathetic chat backend: dispatch core, admission gate and quota tracker

    A shallow embedding of the request-dispatch core of the backend
    ([app/services/llm_service.py]), of its two rate-limiting collaborators
    ([app/services/request_queue.py], [app/services/user_limiter.py]) and of
    the route that ties them together ([app/routes/chat.py]).

    Python objects are records, methods are state transformers in a small
    state-and-exception monad, and everything the code obtains from outside
    (the HTTP endpoint, the random generator, the wall clock, the
    cancellation of a task by its caller's deadline, what the handlers of
    other requests do to the quota tracker while a handler awaits its
    dispatch) is read from an environment record, so that every run of the
    model is a run of the code under one particular behaviour of the
    outside world.  A run of the model is the run of one task: the key
    cursor, the admission gate and the conversation store are as that task
    alone leaves them. *)

From Stdlib Require Import ZArith QArith Qminmax String Ascii List Sorted Lia Lqa.
From stdpp Require Import base option gmap strings list pretty.

Local Open Scope string_scope.
Local Open Scope Z_scope.

(** ** Python values and control flow *)

Module Py.

(** Exceptions, as far as the [except] clauses of the sources tell them
    apart.  [CancelledError] derives from [BaseException] only; all the
    others derive from [Exception]. *)
Inductive exn : Type :=
| Exception (msg : string)
| IndexError
| RequestsTimeout
| RequestsConnectionError
| HTTPException (status_code : Z) (detail : string)
| TimeoutError
| CancelledError.

Definition isinstance_Exception (e : exn) : bool :=
  match e with
  | CancelledError => false
  | _ => true
  end.

Definition Z_to_string (z : Z) : string := pretty z.

(** [str(e)]. *)
Definition str (e : exn) : string :=
  match e with
  | Exception msg => msg
  | IndexError => "list index out of range"
  | RequestsTimeout => ""
  | RequestsConnectionError => ""
  | HTTPException c d => Z_to_string c ++ ": " ++ d
  | TimeoutError => ""
  | CancelledError => ""
  end.

(** The three ways a coroutine can stand after it was run: it returned,
    it raised, or it is suspended on a wait that nothing in the run will
    ever satisfy. *)
Inductive outcome (A : Type) : Type :=
| Ok (a : A)
| Raise (e : exn)
| Suspended.
Arguments Ok {A} a.
Arguments Raise {A} e.
Arguments Suspended {A}.

(** Side effects survive an exception, so the state is returned in every
    case. *)
Definition M (S A : Type) : Type := S -> outcome A * S.

Definition ret {S A} (a : A) : M S A := fun s => (Ok a, s).

Definition bind {S A B} (m : M S A) (k : A -> M S B) : M S B :=
  fun s =>
    match m s with
    | (Ok a, s') => k a s'
    | (Raise e, s') => (Raise e, s')
    | (Suspended, s') => (Suspended, s')
    end.

Definition raise {S A} (e : exn) : M S A := fun s => (Raise e, s).
Definition suspend {S A} : M S A := fun s => (Suspended, s).
Definition get {S} : M S S := fun s => (Ok s, s).
Definition gets {S A} (f : S -> A) : M S A := fun s => (Ok (f s), s).
Definition modify {S} (f : S -> S) : M S unit := fun s => (Ok tt, f s).

(** [try: m  except ...: h].  The handler table [h] answers [None] for an
    exception that no [except] clause matches. *)
Definition try_except {S A} (m : M S A) (h : exn -> option (M S A)) : M S A :=
  fun s =>
    match m s with
    | (Raise e, s') =>
        match h e with
        | Some k => k s'
        | None => (Raise e, s')
        end
    | r => r
    end.

(** [try: m  finally: cleanup].  A suspended body has not left the
    block, so its cleanup has not run. *)
Definition try_finally {S A} (m : M S A) (cleanup : M S unit) : M S A :=
  fun s =>
    match m s with
    | (Ok a, s') => bind cleanup (fun _ => ret a) s'
    | (Raise e, s') => bind cleanup (fun _ => raise e) s'
    | (Suspended, s') => (Suspended, s')
    end.

(** [await asyncio.wait_for(m, timeout)].  The deadline shows in the
    wrapped task as a cancellation, or finds it suspended for good;
    either way the caller sees [asyncio.TimeoutError]. *)
Definition wait_for {S A} (m : M S A) : M S A :=
  fun s =>
    match m s with
    | (Raise CancelledError, s') => (Raise TimeoutError, s')
    | (Suspended, s') => (Raise TimeoutError, s')
    | r => r
    end.

(** Run a computation on a component of a larger state. *)
Definition zoom {S T A} (proj : S -> T) (upd : T -> S -> S) (m : M T A) : M S A :=
  fun s => let (r, t') := m (proj s) in (r, upd t' s).

(** [l[i]] for a Python [int] index: negative indices count from the
    end, anything out of range is an [IndexError] ([None] here). *)
Definition getitem {A} (l : list A) (i : Z) : option A :=
  let n := Z.of_nat (length l) in
  if (0 <=? i) && (i <? n) then l !! Z.to_nat i
  else if (- n <=? i) && (i <? 0) then l !! Z.to_nat (n + i)
  else None.

(** [d.get(k, default)] on a dict literal. *)
Fixpoint dict_get (d : list (string * string)) (k default : string) : string :=
  match d with
  | [] => default
  | (k', v) :: d' => if String.eqb k' k then v else dict_get d' k default
  end.

Fixpoint dict_mem (d : list (string * string)) (k : string) : bool :=
  match d with
  | [] => false
  | (k', _) :: d' => String.eqb k' k || dict_mem d' k
  end.

(** Strings are byte strings here: a Python [str] is its UTF-8 encoding.
    [strip] removes the white space of [str.strip()]: the ASCII characters
    9 to 13 and 28 to 32, and U+0085, U+00A0, U+1680, U+2000 to U+200A,
    U+2028, U+2029, U+202F, U+205F and U+3000 as UTF-8 has them.  [lower]
    maps the ASCII letters and leaves the letters outside ASCII as they
    are, where [str.lower()] maps those too; the code compares lowered
    text with ASCII words only. *)
Definition lower_ascii (c : ascii) : ascii :=
  let n := nat_of_ascii c in
  if (65 <=? n)%nat && (n <=? 90)%nat then ascii_of_nat (n + 32) else c.

Fixpoint lower (s : string) : string :=
  match s with
  | EmptyString => EmptyString
  | String c s' => String (lower_ascii c) (lower s')
  end.

Definition isspace (c : ascii) : bool :=
  let n := nat_of_ascii c in
  ((9 <=? n)%nat && (n <=? 13)%nat) || ((28 <=? n)%nat && (n <=? 32)%nat).

(** U+0085 and U+00A0: the bytes C2 85 and C2 A0. *)
Definition isspace2 (c1 c2 : ascii) : bool :=
  let a := nat_of_ascii c1 in
  let b := nat_of_ascii c2 in
  (a =? 194)%nat && ((b =? 133)%nat || (b =? 160)%nat).

(** U+1680 (E1 9A 80), U+2000 to U+200A, U+2028, U+2029 and U+202F
    (E2 80 80 to 8A, A8, A9, AF), U+205F (E2 81 9F), U+3000 (E3 80 80). *)
Definition isspace3 (c1 c2 c3 : ascii) : bool :=
  let a := nat_of_ascii c1 in
  let b := nat_of_ascii c2 in
  let c := nat_of_ascii c3 in
  ((a =? 225)%nat && (b =? 154)%nat && (c =? 128)%nat)
  || ((a =? 226)%nat && (b =? 128)%nat &&
      (((128 <=? c)%nat && (c <=? 138)%nat) || (c =? 168)%nat || (c =? 169)%nat
       || (c =? 175)%nat))
  || ((a =? 226)%nat && (b =? 129)%nat && (c =? 159)%nat)
  || ((a =? 227)%nat && (b =? 128)%nat && (c =? 128)%nat).

Fixpoint lstrip (s : string) : string :=
  match s with
  | EmptyString => EmptyString
  | String c1 s1 =>
      if isspace c1 then lstrip s1
      else
        match s1 with
        | EmptyString => s
        | String c2 s2 =>
            if isspace2 c1 c2 then lstrip s2
            else
              match s2 with
              | EmptyString => s
              | String c3 s3 => if isspace3 c1 c2 c3 then lstrip s3 else s
              end
        end
  end.

(** All of [s] is white space. *)
Definition blank (s : string) : bool :=
  match lstrip s with
  | EmptyString => true
  | _ => false
  end.

(** The longest prefix that leaves only white space behind it. *)
Fixpoint rstrip (s : string) : string :=
  match s with
  | EmptyString => EmptyString
  | String c s' => if blank s then EmptyString else String c (rstrip s')
  end.

Definition strip (s : string) : string := rstrip (lstrip s).

Definition startswith (s p : string) : bool := String.prefix p s.

(** [needle in hay]. *)
Fixpoint contains (needle hay : string) : bool :=
  String.prefix needle hay ||
  match hay with
  | EmptyString => false
  | String _ hay' => contains needle hay'
  end.

(** [any(k in s for k in keywords)]. *)
Definition any_in (keywords : list string) (s : string) : bool :=
  existsb (fun k => contains k s) keywords.

(** [s[n:]] for [n >= 0]. *)
Fixpoint drop_chars (n : nat) (s : string) : string :=
  match n, s with
  | O, _ => s
  | S n', String _ s' => drop_chars n' s'
  | S _, EmptyString => EmptyString
  end.

(** [s[-n:]] for [n > 0]. *)
Definition suffix_chars (n : nat) (s : string) : string :=
  drop_chars (String.length s - n) s.

Definition nl : string := String (ascii_of_nat 10) EmptyString.

Definition Qltb (x y : Q) : bool := negb (Qle_bool y x).

End Py.

Import Py.

Declare Scope py_scope.
Delimit Scope py_scope with py.
Notation "x <- c1 ;; c2" := (bind c1 (fun x => c2))
  (at level 100, c1 at next level, right associativity) : py_scope.
Notation "c1 ;;; c2" := (bind c1 (fun _ => c2))
  (at level 100, right associativity) : py_scope.
Local Open Scope py_scope.

(** ** The dispatch core: [app/services/llm_service.py] *)

Module LLM.

(** One entry of the [messages] list of the chat API. *)
Record Message : Type := { role : string; content : string }.

Record Headers : Type := { Authorization : string; Content_Type : string }.

Record Payload : Type := {
  model : string;
  messages : list Message;
  max_tokens : Z;
  temperature : Q;
  top_p : Q
}.

(** What a body is to lines 221 to 223, which read it: the three ways
    these lines can go. *)
Inductive json_body : Type :=
| JsonChoices (first_content : string)
    (* the test of line 222 holds and
       data["choices"][0]["message"]["content"] is this string *)
| JsonNoChoices
    (* the test of line 222 is false: "choices" is not in data, or what
       is under it has length 0 *)
| JsonMalformed.
    (* one of the three lines raises, inside the try block: the body is
       not JSON, the test cannot be made (data is a number or null, or
       what is under "choices" has no length), or there is no string at
       data["choices"][0]["message"]["content"] *)

(** What one [requests.post] does. *)
Inductive post_result : Type :=
| Response (status_code : Z) (body : json_body)
| PostTimeout                      (* requests.exceptions.Timeout *)
| PostConnectionError              (* requests.exceptions.ConnectionError *)
| PostError (msg : string).        (* any other subclass of Exception *)

(** The observable steps of one logical request, in the order taken. *)
Inductive event : Type :=
| EvAsyncSleep (delay : Q)         (* await asyncio.sleep(delay) *)
| EvBlockingSleep (delay : Q)      (* time.sleep(delay) *)
| EvNextKey (key : string)         (* get_next_api_key() returned key *)
| EvChoice (selected : string)     (* random.choice(self.models) *)
| EvPost (attempt : nat) (url : string) (h : Headers) (p : Payload) (timeout : Z).

(** The outside world during one logical request.  [post] is asked with
    the attempt number and with everything the call sends; [random] is
    the sequence of values of [random.random()]; [choice_index] is the
    value of the generator's [_randbelow] inside [random.choice];
    [cancel_at = Some n] delivers the caller's cancellation at the
    [n]-th [await asyncio.sleep] of the request (counting from 0). *)
Record Env : Type := {
  post : nat -> string -> Headers -> Payload -> Z -> post_result;
  random : nat -> Q;
  choice_index : nat;
  cancel_at : option nat
}.

(** Run-time record of the task that serves one logical request. *)
Record Task : Type := {
  trace : list event;
  draws : nat;
  awaits : nat
}.

Definition new_task : Task := {| trace := []; draws := 0; awaits := 0 |}.

Record LLMService : Type := {
  api_keys : list string;
  current_key_index : Z;
  api_url : string;
  models : list string;
  last_used_model : option string;
  last_used_key : option string
}.

Definition nonempty (s : string) : bool :=
  match s with EmptyString => false | _ => true end.

(** [LLMService.__init__], with [os.getenv] as a parameter. *)
Definition init (getenv : string -> option string) : LLMService :=
  let env_key name := strip (default EmptyString (getenv name)) in
  let keys := List.filter nonempty
    [ env_key "OPENROUTER_API_KEY_1"; env_key "OPENROUTER_API_KEY_2";
      env_key "OPENROUTER_API_KEY_3"; env_key "OPENROUTER_API_KEY_4";
      env_key "OPENROUTER_API_KEY_5"; env_key "OPENROUTER_API_KEY_6" ] in
  let keys :=
    match keys with
    | [] =>
        let fallback_key := env_key "OPENROUTER_API_KEY" in
        if nonempty fallback_key then [fallback_key] else []
    | _ => keys
    end in
  {| api_keys := keys;
     current_key_index := 0;
     api_url := "https://openrouter.ai/api/v1/chat/completions";
     models :=
       [ "mistralai/mistral-7b-instruct:free";
         "google/gemini-2.0-flash-exp:free";
         "deepseek/deepseek-r1-0528-qwen3-8b:free";
         "z-ai/glm-4.5-air:free";
         "deepseek/deepseek-chat-v3.1:free" ];
     last_used_model := None;
     last_used_key := None |}.

Definition set_current_key_index (i : Z) (s : LLMService) : LLMService :=
  {| api_keys := api_keys s; current_key_index := i; api_url := api_url s;
     models := models s; last_used_model := last_used_model s;
     last_used_key := last_used_key s |}.

Definition set_last_used (m k : string) (s : LLMService) : LLMService :=
  {| api_keys := api_keys s; current_key_index := current_key_index s;
     api_url := api_url s; models := models s;
     last_used_model := Some m; last_used_key := Some k |}.

(** [get_next_api_key]: round robin, whatever happened to earlier keys. *)
Definition get_next_api_key : M LLMService string :=
  fun self =>
    match api_keys self with
    | [] => (Raise (Exception "No API keys available"), self)
    | _ =>
        match getitem (api_keys self) (current_key_index self) with
        | None => (Raise IndexError, self)
        | Some key =>
            (Ok key,
             set_current_key_index
               ((current_key_index self + 1) mod Z.of_nat (length (api_keys self)))
               self)
        end
    end.

Definition base_prompt : string :=
  "Kamu adalah EduBot 🎓, seorang guru AI yang sangat empatik, sabar, dan menyenangkan! PENTING: Kamu memiliki maksimal 1000 token untuk merespons. Pastikan jawaban kamu lengkap dan tidak terpotong di tengah kalimat. Jika topiknya panjang, buat ringkasan yang terstruktur atau tawarkan untuk melanjutkan di pesan berikutnya. Kamu membantu siswa belajar dengan cara yang interaktif dan penuh semangat. " ++ nl ++
  "Karakteristik kamu:" ++ nl ++
  "✨ Selalu positif dan mendukung siswa" ++ nl ++
  "🎯 Memberikan penjelasan yang mudah dipahami" ++ nl ++
  "💡 Menggunakan contoh praktis dan analogi menarik" ++ nl ++
  "🎊 Merayakan setiap kemajuan siswa, sekecil apapun" ++ nl ++
  "🌟 Memberikan tips belajar yang efektif" ++ nl ++
  "📚 Menyediakan informasi yang akurat dan factual" ++ nl ++
  "🤗 Memahami dan merespons emosi siswa dengan tepat" ++ nl ++ nl ++
  "Selalu gunakan:" ++ nl ++
  "- Emoji yang sesuai untuk membuat percakapan lebih hidup" ++ nl ++
  "- Bahasa Indonesia yang ramah dan hangat" ++ nl ++
  "- Pujian dan dorongan positif" ++ nl ++
  "- Contoh konkret untuk memperjelas konsep" ++ nl.

Definition subject_prompts : list (string * string) :=
  [
    ("matematika",
     "🔢 Kamu adalah spesialis matematika yang bisa menjelaskan konsep rumit dengan cara sederhana dan menyenangkan!");
    ("fisika",
     "⚛️ Kamu adalah ahli fisika yang membuat eksperimen dan konsep fisika menjadi menarik dan mudah dipahami!");
    ("kimia",
     "🧪 Kamu adalah guru kimia yang passionate, selalu siap menjelaskan reaksi dan unsur dengan cara yang aman dan menarik!");
    ("biologi",
     "🌿 Kamu adalah biologis yang cinta alam, siap menjelaskan kehidupan dan makhluk hidup dengan penuh antusiasme!");
    ("sejarah",
     "📚 Kamu adalah pencerita sejarah yang hebat, membuat masa lalu hidup dan relevan untuk siswa!");
    ("bahasa",
     "📝 Kamu adalah guru bahasa yang kreatif, membantu siswa mengekspresikan diri dengan lebih baik!");
    ("geografi",
     "🌍 Kamu adalah penjelajah dunia yang membantu siswa memahami planet kita dengan cara yang menarik!")
  ].

Definition emotion_templates : list (string * string) :=
  [
    ("Senang",
     "🎉 Siswa sedang merasa senang dan bersemangat! Manfaatkan energi positif ini untuk:" ++ nl ++
     "- Berikan pujian yang tulus atas usaha mereka" ++ nl ++
     "- Bagikan fakta menarik atau tips belajar yang fun" ++ nl ++
     "- Dorong mereka untuk terus belajar dengan semangat" ++ nl ++
     "- Gunakan emoji dan bahasa yang ceria 😊✨");
    ("Netral",
     "🤖 Siswa dalam keadaan netral dan siap belajar. Berikan respons yang:" ++ nl ++
     "- Jelas dan informatif" ++ nl ++
     "- Langsung ke inti materi" ++ nl ++
     "- Menggunakan contoh praktis" ++ nl ++
     "- Tetap hangat dan mendukung 📚");
    ("Bingung",
     "🤔 Siswa sedang merasa bingung dan butuh bantuan. Jadilah guru yang sabar dengan:" ++ nl ++
     "- Akui kebingungan mereka dengan empati" ++ nl ++
     "- Jelaskan step-by-step dari dasar" ++ nl ++
     "- Gunakan analogi sederhana dan contoh konkret" ++ nl ++
     "- Tanyakan apakah penjelasan sudah jelas 💡");
    ("Frustrasi",
     "😤 Siswa sedang frustrasi dan butuh dukungan. Berikan respons yang menenangkan:" ++ nl ++
     "- Akui perasaan frustrasi mereka" ++ nl ++
     "- Pecahkan masalah menjadi langkah kecil" ++ nl ++
     "- Berikan dorongan positif" ++ nl ++
     "- Ingatkan bahwa belajar adalah proses 💪");
    ("Marah",
     "😠 Siswa sedang marah dan perlu pendekatan hati-hati. Tetap tenang dan:" ++ nl ++
     "- Akui perasaan mereka tanpa judgment" ++ nl ++
     "- Berikan solusi praktis dan jelas" ++ nl ++
     "- Hindari bahasa yang bisa memicu emosi" ++ nl ++
     "- Fokus pada membantu menyelesaikan masalah 🤝")
  ].

Definition emotion_emoji : list (string * string) :=
  [
    ("Senang",
     "😊");
    ("Netral",
     "🤖");
    ("Bingung",
     "🤔");
    ("Frustrasi",
     "😤");
    ("Marah",
     "😠")
  ].

Definition learning_tips : list (string * string) :=
  [
    ("Senang",
     nl ++ nl ++
     "💡 **Tips**: Manfaatkan semangat positif ini untuk mempelajari topik baru!");
    ("Bingung",
     nl ++ nl ++
     "💡 **Tips**: Tidak apa-apa bingung, itu artinya otak kamu sedang bekerja keras!");
    ("Frustrasi",
     nl ++ nl ++
     "💡 **Tips**: Istirahat sebentar, lalu coba dengan pendekatan yang berbeda ya!");
    ("Marah",
     nl ++ nl ++
     "💡 **Tips**: Tarik nafas dalam-dalam, mari kita selesaikan ini bersama-sama.")
  ].

Definition fallbacks : list (string * string) :=
  [
    ("Senang",
     "🎉 Wah, senang banget denger semangat kamu! Aku siap membantu kamu belajar lebih banyak lagi. Ada yang ingin kamu tanyakan? 😊");
    ("Netral",
     "📚 Halo! Aku EduBot, siap membantu kamu belajar dengan cara yang menyenangkan. Apa yang ingin kita pelajari hari ini? 🤖");
    ("Bingung",
     "🤔 Aku paham kamu merasa bingung. Gak masalah kok! Mari kita pecahkan masalah ini step by step. Bisa ceritakan lebih detail tentang apa yang membingungkan? 💡");
    ("Frustrasi",
     "😤 Aku tahu perasaan frustrasi itu tidak enak. Tapi ingat, setiap ahli pernah jadi pemula! Mari kita coba pendekatan yang lebih mudah ya. Kamu pasti bisa! 💪");
    ("Marah",
     "😠 Aku paham kamu sedang kesal. Mari kita ambil nafas sejenak dan fokus menyelesaikan masalah ini bersama-sama. Aku di sini untuk membantu kamu. 🤝")
  ].

Definition rate_limit_responses : list (string * string) :=
  [
    ("Senang",
     "🎉 Maaf, servernya agak sibuk nih karena banyak teman yang antusias belajar seperti kamu! Tapi aku tetap senang banget bisa chat sama kamu. Coba lagi sebentar ya! 😊");
    ("Netral",
     "🤖 Server sedang sibuk melayani banyak siswa yang sedang belajar. Silakan coba lagi dalam beberapa saat. Terima kasih atas kesabarannya! 📚");
    ("Bingung",
     "🤔 Waduh, servernya lagi rame nih karena banyak yang bertanya seperti kamu! Jangan khawatir, coba tanya lagi sebentar ya. Aku pasti bantu jawab kebingungan kamu! 💡");
    ("Frustrasi",
     "😤 Aku tahu ini bikin frustasi, server lagi sibuk banget. Tapi tenang, coba lagi sebentar dan aku pasti jawab dengan semangat! Kamu pasti bisa mengatasi ini! 💪");
    ("Marah",
     "😠 Maaf ya kalau ini bikin kesal. Server sedang sibuk tapi aku tetap di sini untuk membantu. Mohon bersabar sebentar, aku akan segera membantu kamu! 🤝")
  ].

Definition timeout_responses : list (string * string) :=
  [
    ("Senang",
     "🎉 Wah, semangatmu luar biasa! Tapi koneksinya agak lambat nih. Coba tanya lagi ya, aku pasti jawab dengan antusias! 😊");
    ("Netral",
     "🤖 Koneksi agak lambat saat ini. Silakan ulangi pertanyaan kamu, aku siap membantu! 📚");
    ("Bingung",
     "🤔 Hmm, sepertinya ada gangguan koneksi yang bikin proses jadi lambat. Jangan khawatir, coba lagi ya! Aku tetap siap bantu! 💡");
    ("Frustrasi",
     "😤 Aku paham frustrasimu karena koneksi lambat. Tapi jangan menyerah! Coba lagi dan kita selesaikan masalah ini bersama! 💪");
    ("Marah",
     "😠 Maaf koneksinya bermasalah dan bikin kesal. Aku tetap di sini untuk membantu, coba lagi sebentar ya! 🤝")
  ].

Definition connection_responses : list (string * string) :=
  [
    ("Senang",
     "🎉 Semangat belajarmu luar biasa! Sayangnya ada masalah koneksi sebentar. Tapi tetap semangat ya, coba lagi! 😊");
    ("Netral",
     "🤖 Terjadi gangguan koneksi. Silakan coba lagi dalam beberapa saat. Aku akan siap membantu! 📚");
    ("Bingung",
     "🤔 Ada gangguan teknis yang bikin koneksi terputus. Gak usah tambah bingung, coba lagi aja ya! Aku pasti bantu! 💡");
    ("Frustrasi",
     "😤 Aku tahu gangguan koneksi ini bikin tambah frustasi. Tapi kita jangan menyerah! Coba lagi dan mari selesaikan bersama! 💪");
    ("Marah",
     "😠 Maaf banget ada masalah teknis yang bikin gangguan. Aku tetap di sini untuk membantu, coba lagi ya! 🤝")
  ].

Definition get_educational_system_prompt (emotion : string) (subject : option string)
  : string :=
  let base_prompt :=
    match subject with
    | Some subject =>
        if nonempty subject then
          base_prompt ++ nl ++
          dict_get subject_prompts (lower subject)
            ("📖 Kamu adalah guru yang passionate di bidang " ++ subject ++ "!")
          ++ nl
        else base_prompt
    | None => base_prompt
    end in
  base_prompt ++ nl ++
  dict_get emotion_templates emotion
    (dict_get emotion_templates "Netral" EmptyString).

(** Confidence is a Python float; the model compares it as a rational. *)
Definition _enhance_educational_response (response emotion : string) (confidence : Q)
  : string :=
  let response :=
    if Qltb (85 # 100) confidence then
      response ++ nl ++ nl ++ dict_get emotion_emoji emotion "🤖" ++
      " *Aku bisa merasakan kamu sedang " ++ lower emotion ++ " nih!*"
    else response in
  if dict_mem learning_tips emotion && Qltb (7 # 10) confidence then
    response ++ dict_get learning_tips emotion EmptyString
  else response.

Definition _get_fallback_response (emotion user_message : string) : string :=
  let base_response :=
    dict_get fallbacks emotion (dict_get fallbacks "Netral" EmptyString) in
  if any_in ["matematika"; "math"; "hitung"] (lower user_message) then
    base_response ++ nl ++ nl ++
    "🔢 Oh, ini tentang matematika ya? Aku suka banget sama matematika!"
  else if any_in ["fisika"; "physics"] (lower user_message) then
    base_response ++ nl ++ nl ++
    "⚛️ Fisika nih! Seru banget, kita bisa bahas eksperimen dan rumus-rumus keren!"
  else if any_in ["sejarah"; "history"] (lower user_message) then
    base_response ++ nl ++ nl ++
    "📚 Sejarah! Aku punya banyak cerita menarik dari masa lalu!"
  else base_response.

Definition _get_rate_limit_fallback (emotion : string) : string :=
  dict_get rate_limit_responses emotion
    (dict_get rate_limit_responses "Netral" EmptyString).

Definition _get_timeout_fallback (emotion : string) : string :=
  dict_get timeout_responses emotion
    (dict_get timeout_responses "Netral" EmptyString).

Definition _get_connection_fallback (emotion : string) : string :=
  dict_get connection_responses emotion
    (dict_get connection_responses "Netral" EmptyString).

(** *** The dispatch itself

    The state of a dispatch is the service object together with the
    run-time record of the task. *)
Record Ctx : Type := { svc : LLMService; task : Task }.

Definition on_svc {A} (m : M LLMService A) : M Ctx A :=
  zoom svc (fun s c => {| svc := s; task := task c |}) m.

Definition log (e : event) : M Ctx unit :=
  modify (fun c =>
    {| svc := svc c;
       task := {| trace := app (trace (task c)) [e];
                  draws := draws (task c);
                  awaits := awaits (task c) |} |}).

(** [random.uniform(a, b)], which is [a + (b - a) * random.random()]. *)
Definition uniform (env : Env) (a b : Q) : M Ctx Q :=
  fun c =>
    (Ok (a + (b - a) * random env (draws (task c)))%Q,
     {| svc := svc c;
        task := {| trace := trace (task c);
                   draws := S (draws (task c));
                   awaits := awaits (task c) |} |}).

(** [random.choice(seq)]. *)
Definition choice (env : Env) (seq : list string) : M Ctx string :=
  match seq !! (choice_index env mod length seq)%nat with
  | Some x => log (EvChoice x) ;;; ret x
  | None => raise IndexError
  end.

(** [await asyncio.sleep(delay)]: a point where the task can be
    cancelled. *)
Definition asyncio_sleep (env : Env) (delay : Q) : M Ctx unit :=
  log (EvAsyncSleep delay) ;;;
  n <- gets (fun c => awaits (task c)) ;;
  modify (fun c =>
    {| svc := svc c;
       task := {| trace := trace (task c);
                  draws := draws (task c);
                  awaits := S (awaits (task c)) |} |}) ;;;
  match cancel_at env with
  | Some k => if (k =? n)%nat then raise CancelledError else ret tt
  | None => ret tt
  end.

(** [time.sleep(delay)]: the whole process waits, nothing is delivered. *)
Definition time_sleep (delay : Q) : M Ctx unit := log (EvBlockingSleep delay).

Definition next_api_key : M Ctx string :=
  key <- on_svc get_next_api_key ;;
  log (EvNextKey key) ;;;
  ret key.

Definition requests_post (env : Env) (attempt : nat) (url : string)
    (h : Headers) (p : Payload) (timeout : Z) : M Ctx (Z * json_body) :=
  log (EvPost attempt url h p timeout) ;;;
  match post env attempt url h p timeout with
  | Response status body => ret (status, body)
  | PostTimeout => raise RequestsTimeout
  | PostConnectionError => raise RequestsConnectionError
  | PostError msg => raise (Exception msg)
  end.

(** How one turn of the [for] loop ends. *)
Inductive ctl : Type :=
| Continue
| Return (text : string).

Definition base_delay : Q := 1 # 2.

(** [base_delay * (2 ** attempt)]. *)
Definition backoff (attempt : nat) : Q :=
  (base_delay * inject_Z (2 ^ Z.of_nat attempt))%Q.

Definition make_headers (current_api_key : string) : Headers :=
  {| Authorization := "Bearer " ++ current_api_key;
     Content_Type := "application/json" |}.

Definition make_payload (selected_model : string) (msgs : list Message) : Payload :=
  {| model := selected_model;
     messages := msgs;
     max_tokens := 1000;
     temperature := 8 # 10;
     top_p := 9 # 10 |}.

(** The body of [for attempt in range(max_retries)].  [current_api_key]
    is assigned anew at the top of every attempt but the first, so only
    the first attempt reads the key fetched before the loop. *)
Definition attempt_body (env : Env) (user_message emotion : string) (confidence : Q)
    (msgs : list Message) (max_retries : nat) (selected_model first_key : string)
    (attempt : nat) : M Ctx ctl :=
  let attempts_remain := (attempt <? max_retries - 1)%nat in
  try_except
    (current_api_key <-
       (if (0 <? attempt)%nat then next_api_key else ret first_key) ;;
     let headers := make_headers current_api_key in
     let payload := make_payload selected_model msgs in
     url <- gets (fun c => api_url (svc c)) ;;
     response <- requests_post env attempt url headers payload 30 ;;
     let (status, body) := (response : Z * json_body) in
     if status =? 200 then
       match body with
       | JsonChoices first_content =>
           let ai_response := strip first_content in
           on_svc (modify (set_last_used selected_model current_api_key)) ;;;
           ret (Return (_enhance_educational_response ai_response emotion confidence))
       | JsonNoChoices =>
           if attempts_remain then ret Continue
           else ret (Return (_get_fallback_response emotion user_message))
       | JsonMalformed => raise (Exception "malformed response body")
       end
     else if status =? 429 then
       if attempts_remain then
         d <- uniform env (1 # 10) (3 # 10) ;;
         asyncio_sleep env d ;;;
         ret Continue
       else ret (Return (_get_rate_limit_fallback emotion))
     else if status >=? 500 then
       if attempts_remain then
         asyncio_sleep env (backoff attempt) ;;;
         ret Continue
       else ret (Return (_get_fallback_response emotion user_message))
     else
       if attempts_remain then ret Continue
       else ret (Return (_get_fallback_response emotion user_message)))
    (fun e =>
       match e with
       | RequestsTimeout =>
           Some (if attempts_remain then
                   time_sleep (backoff attempt) ;;;
                   ret Continue
                 else ret (Return (_get_timeout_fallback emotion)))
       | RequestsConnectionError =>
           Some (if attempts_remain then
                   jitter <- uniform env 0 1 ;;
                   time_sleep (backoff attempt + jitter)%Q ;;;
                   ret Continue
                 else ret (Return (_get_connection_fallback emotion)))
       | _ =>
           if isinstance_Exception e then
             Some (if attempts_remain then
                     asyncio_sleep env (backoff attempt) ;;;
                     ret Continue
                   else ret (Return (_get_fallback_response emotion user_message)))
           else None
       end).

(** [for attempt in range: body], until a turn returns. *)
Fixpoint for_attempts (body : nat -> M Ctx ctl) (range : list nat)
  : M Ctx (option string) :=
  match range with
  | [] => ret None
  | attempt :: rest =>
      c <- body attempt ;;
      match c with
      | Return text => ret (Some text)
      | Continue => for_attempts body rest
      end
  end.

(** [context_messages[:-1]] when the list is given and not empty. *)
Definition context_but_last (context_messages : option (list Message))
  : list Message :=
  match context_messages with
  | Some (m :: ms) => removelast (m :: ms)
  | _ => []
  end.

(** The [messages] list: system prompt, earlier turns, the new turn. *)
Definition build_messages (user_message emotion : string)
    (context_messages : option (list Message))
    (conversation_subject : option string) : list Message :=
  app
    ({| role := "system";
        content := get_educational_system_prompt emotion conversation_subject |}
     :: context_but_last context_messages)
    [ {| role := "user"; content := user_message |} ].

Definition create_empathetic_response (env : Env) (user_message emotion : string)
    (confidence : Q) (context_messages : option (list Message))
    (conversation_subject : option string) : M Ctx string :=
  let msgs :=
    build_messages user_message emotion context_messages conversation_subject in
  initial_delay <- uniform env (5 # 100) (3 # 10) ;;
  asyncio_sleep env initial_delay ;;;
  max_retries <- gets (fun c => (length (api_keys (svc c)) * 2)%nat) ;;
  current_api_key <- next_api_key ;;
  selected_model <- (ms <- gets (fun c => models (svc c)) ;; choice env ms) ;;
  r <- for_attempts
         (attempt_body env user_message emotion confidence msgs max_retries
            selected_model current_api_key)
         (seq 0 max_retries) ;;
  match r with
  | Some text => ret text
  | None => ret (_get_fallback_response emotion user_message)
  end.

End LLM.

(** ** The quota tracker: [app/services/user_limiter.py] *)

Module Limiter.

(** [user_prompts] is a [defaultdict(deque)]: time stamps per user,
    oldest first.  Time stamps are the floats of [time.time()], taken
    here as rationals. *)
Record UserPromptLimiter : Type := {
  max_prompts_per_user : Z;
  reset_hours : Z;
  user_prompts : gmap string (list Q)
}.

Definition init (max_prompts_per_user reset_hours : Z) : UserPromptLimiter :=
  {| max_prompts_per_user := max_prompts_per_user;
     reset_hours := reset_hours;
     user_prompts := ∅ |}.

(** The global instance of the module. *)
Definition user_limiter : UserPromptLimiter := init 3 24.

Definition set_user_prompts (m : gmap string (list Q)) (self : UserPromptLimiter)
  : UserPromptLimiter :=
  {| max_prompts_per_user := max_prompts_per_user self;
     reset_hours := reset_hours self;
     user_prompts := m |}.

(** [self.user_prompts[user_id]], read.  (The [defaultdict] also stores
    the empty deque it makes for a missing key; every read in the
    methods below is followed by a store that does the same.) *)
Definition window (user_id : string) (self : UserPromptLimiter) : list Q :=
  default [] (user_prompts self !! user_id).

(** The request, as far as the limiter reads it: the [authorization]
    header, if any. *)
Record Request : Type := { authorization : option string }.

Definition get_user_id_from_request (request : Request) : string :=
  match authorization request with
  | Some auth_header =>
      if LLM.nonempty auth_header then
        let token :=
          if startswith (lower auth_header) "bearer "
          then strip (drop_chars 7 auth_header)
          else strip auth_header in
        if LLM.nonempty token then token else "unknown_user"
      else "unknown_user"
  | None => "unknown_user"
  end.

(** [while d and d[0] < cutoff_time: d.popleft()]. *)
Fixpoint popleft_older (cutoff_time : Q) (d : list Q) : list Q :=
  match d with
  | [] => []
  | t :: d' => if Qltb t cutoff_time then popleft_older cutoff_time d' else d
  end.

(** [_cleanup_old_prompts]; [now] is the value of [time.time()].  The
    cutoff is the difference itself, where the code has the float nearest
    to it. *)
Definition _cleanup_old_prompts (now : Q) (user_id : string)
    (self : UserPromptLimiter) : UserPromptLimiter :=
  let cutoff_time := (now - inject_Z (reset_hours self * 3600))%Q in
  set_user_prompts
    (<[user_id := popleft_older cutoff_time (window user_id self)]>
       (user_prompts self))
    self.

(** [can_user_make_prompt]; [enabled] is the module global
    [PROMPT_LIMIT_ENABLED] as read by this call, [now] the value of
    [time.time()] inside the clean-up. *)
Definition can_user_make_prompt (enabled : bool) (now : Q) (user_id : string)
    (self : UserPromptLimiter) : (bool * Z * Z) * UserPromptLimiter :=
  if negb enabled then ((true, 0, max_prompts_per_user self), self)
  else
    let self := _cleanup_old_prompts now user_id self in
    let prompts_used := Z.of_nat (length (window user_id self)) in
    let prompts_remaining := Z.max 0 (max_prompts_per_user self - prompts_used) in
    let can_make_prompt := prompts_used <? max_prompts_per_user self in
    ((can_make_prompt, prompts_used, prompts_remaining), self).

(** [record_prompt]; [now] is read by the check, [stamp] is the later
    [time.time()] that is appended. *)
Definition record_prompt (enabled : bool) (now stamp : Q) (user_id : string)
    (self : UserPromptLimiter) : bool * UserPromptLimiter :=
  let '((can_prompt, used, remaining), self) :=
    can_user_make_prompt enabled now user_id self in
  if negb can_prompt then (false, self)
  else
    (true,
     set_user_prompts
       (<[user_id := app (window user_id self) [stamp]]> (user_prompts self))
       self).

End Limiter.

(** ** The admission gate: [app/services/request_queue.py] *)

Module Queue.

(** [_semaphore] is the number of free permits of the
    [asyncio.Semaphore].  The [asyncio.Lock] around the two counters is
    free whenever a task reaches it in a run of one task and has no
    state of its own here. *)
Record SimpleStatsTracker : Type := {
  total_requests : Z;
  failed_requests : Z;
  _semaphore : nat
}.

Definition init : SimpleStatsTracker :=
  {| total_requests := 0; failed_requests := 0; _semaphore := 50 |}.

Section AddRequest.
Context {W A : Type}.

Definition on_tracker (f : SimpleStatsTracker -> SimpleStatsTracker)
  : M (SimpleStatsTracker * W) unit :=
  modify (fun s => (f (fst s), snd s)).

(** Entering [async with self._semaphore]: with no free permit the
    task waits for a release by another task.  A run of one task has no
    other, and the wait lasts until the deadline of the caller. *)
Definition acquire : M (SimpleStatsTracker * W) unit :=
  fun s =>
    match _semaphore (fst s) with
    | O => (Suspended, s)
    | S free =>
        (Ok tt,
         ({| total_requests := total_requests (fst s);
             failed_requests := failed_requests (fst s);
             _semaphore := free |}, snd s))
    end.

Definition release : M (SimpleStatsTracker * W) unit :=
  on_tracker (fun q =>
    {| total_requests := total_requests q;
       failed_requests := failed_requests q;
       _semaphore := S (_semaphore q) |}).

Definition count_request : M (SimpleStatsTracker * W) unit :=
  on_tracker (fun q =>
    {| total_requests := total_requests q + 1;
       failed_requests := failed_requests q;
       _semaphore := _semaphore q |}).

Definition count_failure : M (SimpleStatsTracker * W) unit :=
  on_tracker (fun q =>
    {| total_requests := total_requests q;
       failed_requests := failed_requests q + 1;
       _semaphore := _semaphore q |}).

(** [add_request(request_func)].  The wrapped coroutine works on the
    rest of the world [W]. *)
Definition add_request (request_func : M W A) : M (SimpleStatsTracker * W) A :=
  acquire ;;;
  try_finally
    (count_request ;;;
     try_except
       (zoom snd (fun w s => (fst s, w)) request_func)
       (fun e =>
          if isinstance_Exception e
          then Some (count_failure ;;; raise e)
          else None))
    release.
End AddRequest.

(** The values of the dict that [get_stats] returns. *)
Inductive value : Type :=
| VStr (s : string)
| VInt (z : Z)
| VFloat (q : Q).

(** [get_stats]; [now_iso] is [datetime.now().isoformat()]. *)
Definition get_stats (now_iso : string) (self : SimpleStatsTracker)
  : list (string * value) :=
  [ ("mode", VStr "minimal_throttling");
    ("total_requests", VInt (total_requests self));
    ("failed_requests", VInt (failed_requests self));
    ("success_rate",
     VFloat (inject_Z (total_requests self - failed_requests self)
             / inject_Z (Z.max (total_requests self) 1) * 100)%Q);
    ("message", VStr "Minimal throttling - 50 concurrent max to avoid OpenRouter 429s");
    ("timestamp", VStr now_iso) ].

Definition keys (d : list (string * value)) : list string := map fst d.

End Queue.

(** ** The conversation store: [app/services/conversation_service.py]

    The service keeps one JSON file per conversation,
    [data/conversations/<user_id>/<conversation_id>.json], and makes the
    directory of the identity before it does anything else
    ([_get_user_dir], line 11).  The model keeps the records in a map under
    the same two keys.  The map is that tree when identities and ids are
    names, each one component of a path (module [Tree] below), and the
    file system does what it is asked; the statements about the store say
    so.  The fields [created_at], [updated_at] and [timestamp], and the
    wording of generated titles (a parameter), are not in the model. *)

Module Conversations.

Record ChatMessage : Type := {
  msg_id : string;
  msg_content : string;
  sender : string;
  emotion : option string;
  emotion_confidence : option Q
}.

Record Conversation : Type := {
  id : string;
  user_id : string;
  title : string;
  messages : list ChatMessage;
  subject : option string;
  study_level : option string
}.

Record ConversationService : Type := {
  files : gmap (string * string) Conversation
}.

Definition default_title : string := "💭 Percakapan Baru".

Definition _save_conversation (conversation : Conversation) (user_id : string)
    (self : ConversationService) : ConversationService :=
  {| files := <[(user_id, id conversation) := conversation]> (files self) |}.

Definition get_conversation (conversation_id user_id : string)
    (self : ConversationService) : option Conversation :=
  files self !! (user_id, conversation_id).

(** [create_conversation]; [conversation_id] is the fresh
    [str(uuid.uuid4())]. *)
Definition create_conversation (conversation_id user_id : string)
    (title subject study_level : option string) (self : ConversationService)
  : Conversation * ConversationService :=
  let conversation :=
    {| id := conversation_id;
       user_id := user_id;
       title := match title with
                | Some t => if LLM.nonempty t then t else default_title
                | None => default_title
                end;
       messages := [];
       subject := subject;
       study_level := study_level |} in
  (conversation, _save_conversation conversation user_id self).

Definition add_message_to_conversation (_generate_title : string -> string)
    (conversation_id user_id : string) (message : ChatMessage)
    (self : ConversationService) : bool * ConversationService :=
  match get_conversation conversation_id user_id self with
  | None => (false, self)
  | Some conversation =>
      let msgs := app (messages conversation) [message] in
      let from_user :=
        List.filter (fun m => String.eqb (sender m) "user") msgs in
      let title' :=
        if (length from_user =? 1)%nat && String.eqb (title conversation) default_title
        then _generate_title (msg_content message)
        else title conversation in
      (true,
       _save_conversation
         {| id := id conversation;
            user_id := Conversations.user_id conversation;
            title := title';
            messages := msgs;
            subject := subject conversation;
            study_level := study_level conversation |}
         user_id self)
  end.

End Conversations.

(** ** The route: [send_message] of [app/routes/chat.py] *)

Module Chat.

(** The outside world of one request handler.  The handler gives way to
    the handlers of other requests at its one [await] (line 147);
    [meanwhile] is what their checks and records have made of
    [user_limiter.user_prompts] when it goes on. *)
Record Env : Type := {
  llm_env : LLM.Env;
  time_time : nat -> Q;                       (* successive values of time.time() *)
  uuid4 : nat -> string;                      (* successive values of str(uuid.uuid4()) *)
  classify_emotion : string -> string * Q;    (* label and confidence of the classifier *)
  _generate_title : string -> string;
  meanwhile : gmap string (list Q) -> gmap string (list Q)
}.

(** The module-level singletons the handler works on, and the
    bookkeeping of the task that runs it. *)
Record World : Type := {
  llm_service : LLM.LLMService;
  request_queue : Queue.SimpleStatsTracker;
  user_limiter : Limiter.UserPromptLimiter;
  PROMPT_LIMIT_ENABLED : bool;
  conversation_service : Conversations.ConversationService;
  task : LLM.Task;
  clock_reads : nat;
  uuids : nat
}.

Definition set_llm (c : LLM.Ctx) (w : World) : World :=
  {| llm_service := LLM.svc c; request_queue := request_queue w;
     user_limiter := user_limiter w; PROMPT_LIMIT_ENABLED := PROMPT_LIMIT_ENABLED w;
     conversation_service := conversation_service w; task := LLM.task c;
     clock_reads := clock_reads w; uuids := uuids w |}.

Definition set_request_queue (q : Queue.SimpleStatsTracker) (w : World) : World :=
  {| llm_service := llm_service w; request_queue := q;
     user_limiter := user_limiter w; PROMPT_LIMIT_ENABLED := PROMPT_LIMIT_ENABLED w;
     conversation_service := conversation_service w; task := task w;
     clock_reads := clock_reads w; uuids := uuids w |}.

Definition set_user_limiter (l : Limiter.UserPromptLimiter) (w : World) : World :=
  {| llm_service := llm_service w; request_queue := request_queue w;
     user_limiter := l; PROMPT_LIMIT_ENABLED := PROMPT_LIMIT_ENABLED w;
     conversation_service := conversation_service w; task := task w;
     clock_reads := clock_reads w; uuids := uuids w |}.

Definition set_conversation_service (c : Conversations.ConversationService)
    (w : World) : World :=
  {| llm_service := llm_service w; request_queue := request_queue w;
     user_limiter := user_limiter w; PROMPT_LIMIT_ENABLED := PROMPT_LIMIT_ENABLED w;
     conversation_service := c; task := task w;
     clock_reads := clock_reads w; uuids := uuids w |}.

Definition read_clock (env : Env) : M World Q :=
  fun w =>
    (Ok (time_time env (clock_reads w)),
     {| llm_service := llm_service w; request_queue := request_queue w;
        user_limiter := user_limiter w; PROMPT_LIMIT_ENABLED := PROMPT_LIMIT_ENABLED w;
        conversation_service := conversation_service w; task := task w;
        clock_reads := S (clock_reads w); uuids := uuids w |}).

Definition fresh_uuid (env : Env) : M World string :=
  fun w =>
    (Ok (uuid4 env (uuids w)),
     {| llm_service := llm_service w; request_queue := request_queue w;
        user_limiter := user_limiter w; PROMPT_LIMIT_ENABLED := PROMPT_LIMIT_ENABLED w;
        conversation_service := conversation_service w; task := task w;
        clock_reads := clock_reads w; uuids := S (uuids w) |}).

(** [user_limiter.can_user_make_prompt(user_id)]: the clock is read only
    when enforcement is on. *)
Definition can_user_make_prompt (env : Env) (user_id : string)
  : M World (bool * Z * Z) :=
  enabled <- gets PROMPT_LIMIT_ENABLED ;;
  now <- (if enabled then read_clock env else ret 0%Q) ;;
  fun w =>
    let (r, l) := Limiter.can_user_make_prompt enabled now user_id (user_limiter w) in
    (Ok r, set_user_limiter l w).

(** [user_limiter.record_prompt(user_id)]: the second clock value is
    read only when the prompt is recorded. *)
Definition record_prompt (env : Env) (user_id : string) : M World bool :=
  enabled <- gets PROMPT_LIMIT_ENABLED ;;
  now <- (if enabled then read_clock env else ret 0%Q) ;;
  l <- gets user_limiter ;;
  let can_prompt :=
    fst (fst (fst (Limiter.can_user_make_prompt enabled now user_id l))) in
  stamp <- (if can_prompt then read_clock env else ret 0%Q) ;;
  fun w =>
    let (r, l) := Limiter.record_prompt enabled now stamp user_id (user_limiter w) in
    (Ok r, set_user_limiter l w).

Definition get_conversation (conversation_id user_id : string)
  : M World (option Conversations.Conversation) :=
  gets (fun w =>
    Conversations.get_conversation conversation_id user_id (conversation_service w)).

Definition create_conversation (env : Env) (user_id : string)
  : M World Conversations.Conversation :=
  new_id <- fresh_uuid env ;;
  fun w =>
    let (c, s) :=
      Conversations.create_conversation new_id user_id None None None
        (conversation_service w) in
    (Ok c, set_conversation_service s w).

Definition add_message_to_conversation (env : Env) (conversation_id user_id : string)
    (message : Conversations.ChatMessage) : M World bool :=
  fun w =>
    let (r, s) :=
      Conversations.add_message_to_conversation (_generate_title env)
        conversation_id user_id message (conversation_service w) in
    (Ok r, set_conversation_service s w).

(** [ChatMessage(content=..., sender=..., ...)]: the constructor draws
    the id. *)
Definition new_ChatMessage (env : Env) (content sender : string)
    (emotion : option string) (confidence : option Q)
  : M World Conversations.ChatMessage :=
  i <- fresh_uuid env ;;
  ret {| Conversations.msg_id := i;
         Conversations.msg_content := content;
         Conversations.sender := sender;
         Conversations.emotion := emotion;
         Conversations.emotion_confidence := confidence |}.

Record MessageRequest : Type := { content : string }.

Record ChatResponse : Type := {
  resp_id : string;
  resp_content : string;
  resp_emotion : string;
  resp_emotion_confidence : Q
}.

(** [conversation.messages[-6:]] as chat API messages. *)
Definition context_of (conversation : Conversations.Conversation)
  : list LLM.Message :=
  let msgs := Conversations.messages conversation in
  map (fun msg =>
         {| LLM.role := if String.eqb (Conversations.sender msg) "user"
                        then "user" else "assistant";
            LLM.content := Conversations.msg_content msg |})
      (skipn (length msgs - 6) msgs).

(** The closure [generate_response]; what it notes for the chat log
    (model and key ending) is not kept. *)
Definition generate_response (env : Env) (message : MessageRequest)
    (emotion : string) (confidence : Q) (context_messages : list LLM.Message)
    (conversation : Conversations.Conversation) : M World string :=
  zoom (fun w => {| LLM.svc := llm_service w; LLM.task := task w |}) set_llm
    (LLM.create_empathetic_response (llm_env env) (content message) emotion
       confidence (Some context_messages) (Conversations.subject conversation)).

(** [request_queue.add_request(f)] on the world. *)
Definition queued {A} (f : M World A) : M World A :=
  zoom (fun w => (request_queue w, w))
       (fun s _ => set_request_queue (fst s) (snd s))
       (Queue.add_request f).

(** The limiter as the other handlers leave it. *)
Definition interleaved (env : Env) (l : Limiter.UserPromptLimiter)
  : Limiter.UserPromptLimiter :=
  Limiter.set_user_prompts (meanwhile env (Limiter.user_prompts l)) l.

(** [await m] in the handler: when [m] is over, with a value or with an
    exception, the other handlers have run. *)
Definition await {A} (env : Env) (m : M World A) : M World A :=
  fun w =>
    let (r, w') := m w in
    (r, set_user_limiter (interleaved env (user_limiter w')) w').

Definition timeout_apology : string :=
  "I apologize, but the response took too long. Please try again.".

Definition limit_reached (used : Z) : exn :=
  HTTPException 429
    ("Daily prompt limit reached (" ++ Z_to_string used ++
     "/3). Try again tomorrow to avoid additional charges.").

Definition except_Exception {A} (wrap : string) : exn -> option (M World A) :=
  fun e =>
    if isinstance_Exception e
    then Some (raise (HTTPException 500 (wrap ++ str e)))
    else None.

(** [send_message].  The statements after the inner [try] are never
    reached (its body ends in [return], its handler in [raise]) and the
    CSV chat log, which swallows its own errors, leaves no trace here. *)
Definition send_message (env : Env) (conversation_id : string)
    (request : Limiter.Request) (message : MessageRequest) : M World ChatResponse :=
  try_except
    (let user_id := Limiter.get_user_id_from_request request in
     check <- can_user_make_prompt env user_id ;;
     let '(can_prompt, used, remaining) := check in
     if negb can_prompt then raise (limit_reached used) else
     conversation <- get_conversation conversation_id user_id ;;
     found <-
       match conversation with
       | Some c => ret (c, None, conversation_id)
       | None =>
           c <- create_conversation env user_id ;;
           ret (c,
                Some ("Conversation not found. A new conversation was created (id: "
                      ++ Conversations.id c ++ ")."),
                Conversations.id c)
       end ;;
     let '(conversation, warning, conversation_id) := found in
     user_message <- new_ChatMessage env (content message) "user" None None ;;
     add_message_to_conversation env conversation_id user_id user_message ;;;
     try_except
       (let user_id := Limiter.get_user_id_from_request request in
        check <- can_user_make_prompt env user_id ;;
        let '(can_prompt, used, remaining) := check in
        if negb can_prompt then raise (limit_reached used) else
        conversation <- get_conversation conversation_id user_id ;;
        match conversation with
        | None => raise (HTTPException 404 "Conversation not found")
        | Some _ =>
            user_message <- new_ChatMessage env (content message) "user" None None ;;
            add_message_to_conversation env conversation_id user_id user_message ;;;
            let '(emotion, confidence) := classify_emotion env (content message) in
            conversation <- get_conversation conversation_id user_id ;;
            match conversation with
            | None => raise (Exception "'NoneType' object has no attribute 'messages'")
            | Some conversation =>
                let context_messages := context_of conversation in
                ai_content <-
                  try_except
                    (await env
                       (wait_for
                          (queued
                             (generate_response env message emotion confidence
                                context_messages conversation))))
                    (fun e =>
                       match e with
                       | TimeoutError => Some (ret timeout_apology)
                       | _ => None
                       end) ;;
                ai_message <-
                  new_ChatMessage env ai_content "assistant" (Some emotion)
                    (Some confidence) ;;
                add_message_to_conversation env conversation_id user_id ai_message ;;;
                record_prompt env user_id ;;;
                let response_content :=
                  match warning with
                  | Some warning => "⚠️ " ++ warning ++ nl ++ nl ++ ai_content
                  | None => ai_content
                  end in
                ret {| resp_id := Conversations.msg_id ai_message;
                       resp_content := response_content;
                       resp_emotion := emotion;
                       resp_emotion_confidence := confidence |}
            end
        end)
       (except_Exception "Failed to process message: "))
    (except_Exception "Failed to process legacy chat: ").

End Chat.

(** ** The quota tracker's reports: [get_user_stats], [get_all_stats] *)

Module LimiterStats.
Import Limiter.

(** The dict that [get_user_stats] returns, field by field. *)
Record UserStats : Type := {
  stats_user_id : string;
  prompts_used : Z;
  prompts_remaining : Z;
  max_prompts : Z;
  can_make_prompt : bool;
  next_reset : option string;
  stats_reset_hours : Z
}.

(** [get_user_stats].  [now1] is the clock read by the method's own
    clean-up, [now2] the clock read by the clean-up inside the check
    (read only when enforcement is on); [fromtimestamp_iso] stands for
    [datetime.fromtimestamp(t).isoformat()], taken as total. *)
Definition get_user_stats (enabled : bool) (now1 now2 : Q)
    (fromtimestamp_iso : Q -> string) (user_id : string) (self : UserPromptLimiter)
  : UserStats * UserPromptLimiter :=
  let self := _cleanup_old_prompts now1 user_id self in
  let '((can_prompt, used, remaining), self) :=
    can_user_make_prompt enabled now2 user_id self in
  let next_reset :=
    if negb can_prompt then
      match window user_id self with
      | oldest_prompt :: _ =>
          let next_reset_time := (oldest_prompt + inject_Z (reset_hours self * 3600))%Q in
          Some (fromtimestamp_iso next_reset_time)
      | [] => None
      end
    else None in
  ({| stats_user_id := user_id;
      prompts_used := used;
      prompts_remaining := remaining;
      max_prompts := max_prompts_per_user self;
      can_make_prompt := can_prompt;
      next_reset := next_reset;
      stats_reset_hours := reset_hours self |},
   self).

(** The dict that [get_all_stats] returns. *)
Record AllStats : Type := {
  total_active_users : Z;
  total_prompts_today : Z;
  users_at_limit : Z;
  all_max_prompts_per_user : Z;
  all_reset_hours : Z;
  timestamp : string
}.

(** [list(self.user_prompts.keys())]. *)
Definition user_ids (self : UserPromptLimiter) : list string :=
  map fst (map_to_list (user_prompts self)).

(** [for user_id in ...: self._cleanup_old_prompts(user_id)].  Every
    clean-up reads the clock anew: [now user_id] is the value read when
    the loop is at [user_id]. *)
Definition cleanup_each (now : string -> Q) (ids : list string)
    (self : UserPromptLimiter) : UserPromptLimiter :=
  fold_left (fun self user_id => _cleanup_old_prompts (now user_id) user_id self) ids self.

(** [sum(1 for user_id in ... if not self.can_user_make_prompt(user_id)[0])]. *)
Fixpoint count_at_limit (enabled : bool) (now : string -> Q) (ids : list string)
    (self : UserPromptLimiter) : Z * UserPromptLimiter :=
  match ids with
  | [] => (0, self)
  | user_id :: rest =>
      let '((can_prompt, _, _), self) :=
        can_user_make_prompt enabled (now user_id) user_id self in
      let (n, self) := count_at_limit enabled now rest self in
      ((if negb can_prompt then 1 else 0) + n, self)
  end.

(** [get_all_stats]; [now1] and [now2] are the clocks of the clean-up
    pass and of the counting pass, [now_iso] is
    [datetime.now().isoformat()]. *)
Definition get_all_stats (enabled : bool) (now1 now2 : string -> Q) (now_iso : string)
    (self : UserPromptLimiter) : AllStats * UserPromptLimiter :=
  let self := cleanup_each now1 (user_ids self) self in
  let total_users := Z.of_nat (size (user_prompts self)) in
  let total_prompts :=
    fold_right Z.add 0
      (map (fun kv => Z.of_nat (length (snd kv))) (map_to_list (user_prompts self))) in
  let (at_limit, self') := count_at_limit enabled now2 (user_ids self) self in
  ({| total_active_users := total_users;
      total_prompts_today := total_prompts;
      users_at_limit := at_limit;
      all_max_prompts_per_user := max_prompts_per_user self';
      all_reset_hours := reset_hours self';
      timestamp := now_iso |},
   self').

End LimiterStats.

(** ** The rest of the conversation store and of its routes *)

Module Store.
Import Conversations.

Definition update_conversation_title (conversation_id user_id title : string)
    (self : ConversationService) : bool * ConversationService :=
  match get_conversation conversation_id user_id self with
  | None => (false, self)
  | Some conversation =>
      (true,
       _save_conversation
         {| id := id conversation;
            user_id := Conversations.user_id conversation;
            title := title;
            messages := messages conversation;
            subject := subject conversation;
            study_level := study_level conversation |}
         user_id self)
  end.

(** [delete_conversation]: the file is removed when it exists. *)
Definition delete_conversation (conversation_id user_id : string)
    (self : ConversationService) : bool * ConversationService :=
  match files self !! (user_id, conversation_id) with
  | Some _ => (true, {| files := delete (user_id, conversation_id) (files self) |})
  | None => (false, self)
  end.

End Store.

Module Routes.
Import Chat.

(** The body of [POST /conversations]; a title left out by the client
    is the field's default. *)
Record CreateConversationRequest : Type := {
  title : option string;
  subject : option string;
  study_level : option string
}.

Definition default_CreateConversationRequest : CreateConversationRequest :=
  {| title := Some "Percakapan Baru"; subject := None; study_level := None |}.

(** [create_conversation] of the routes.  The store of the model raises
    nothing, so the handler below is never entered: it is what the code
    answers when the directory of the identity cannot be made, a case
    that the statements leave out by hypothesis. *)
Definition create_conversation (env : Env) (request : Limiter.Request)
    (body : CreateConversationRequest) : M World Conversations.Conversation :=
  try_except
    (let user_id := Limiter.get_user_id_from_request request in
     new_id <- fresh_uuid env ;;
     fun w =>
       let (c, s) :=
         Conversations.create_conversation new_id user_id (title body) (subject body)
           (study_level body) (conversation_service w) in
       (Ok c, set_conversation_service s w))
    (fun e =>
       if isinstance_Exception e
       then Some (raise (HTTPException 500 "Failed to create conversation"))
       else None).

Definition get_conversation (conversation_id : string) (request : Limiter.Request)
  : M World Conversations.Conversation :=
  let user_id := Limiter.get_user_id_from_request request in
  conversation <- Chat.get_conversation conversation_id user_id ;;
  match conversation with
  | None => raise (HTTPException 404 "Conversation not found")
  | Some conversation => ret conversation
  end.

Definition update_conversation_title (conversation_id : string)
    (request : Limiter.Request) (title : string) : M World string :=
  let user_id := Limiter.get_user_id_from_request request in
  success <-
    (fun w =>
       let (r, s) :=
         Store.update_conversation_title conversation_id user_id title
           (conversation_service w) in
       (Ok r, set_conversation_service s w)) ;;
  if negb success then raise (HTTPException 404 "Conversation not found")
  else ret "Title updated successfully".

Definition delete_conversation (conversation_id : string) (request : Limiter.Request)
  : M World string :=
  let user_id := Limiter.get_user_id_from_request request in
  success <-
    (fun w =>
       let (r, s) :=
         Store.delete_conversation conversation_id user_id (conversation_service w) in
       (Ok r, set_conversation_service s w)) ;;
  if negb success then raise (HTTPException 404 "Conversation not found")
  else ret "Conversation deleted successfully".

End Routes.

(** * Vocabulary of the statements

    Nothing below models code: these are the invariants, the projections of
    traces and the small drivers that the theorems speak with. *)

(** ** The service object *)

Module Service.
Import LLM.

(** The pool size as a Python int. *)
Definition pool_size (s : LLMService) : Z := Z.of_nat (length (api_keys s)).

(** What rotation needs: a key to hand out and a cursor inside the pool. *)
Record rotor_ok (s : LLMService) : Prop := {
  keys_configured : api_keys s <> [];
  cursor_in_range : 0 <= current_key_index s < pool_size s
}.

(** What a dispatch needs besides: a model to choose. *)
Record service_ok (s : LLMService) : Prop := {
  rotor : rotor_ok s;
  models_configured : models s <> []
}.

(** The key under the cursor displaced by [i] places, cyclically. *)
Definition key_at (s : LLMService) (i : nat) : string :=
  nth (Z.to_nat ((current_key_index s + Z.of_nat i) mod pool_size s)) (api_keys s)
    EmptyString.

(** The pool repeated cyclically from the cursor, [n] keys long. *)
Definition cycle_from (s : LLMService) (n : nat) : list string :=
  map (key_at s) (seq 0 n).

(** The service with its cursor [n] places on. *)
Definition advance (n : nat) (s : LLMService) : LLMService :=
  set_current_key_index ((current_key_index s + Z.of_nat n) mod pool_size s) s.

(** [n] calls of [get_next_api_key] in a row. *)
Fixpoint take_keys (n : nat) : M LLMService (list string) :=
  match n with
  | O => ret []
  | S n' =>
      key <- get_next_api_key ;;
      keys <- take_keys n' ;;
      ret (key :: keys)
  end.

(** [max_retries] as the dispatch computes it. *)
Definition max_retries (s : LLMService) : nat := (length (api_keys s) * 2)%nat.

(** The model that [random.choice] picks. *)
Definition selected_model (env : Env) (s : LLMService) : string :=
  nth (choice_index env mod length (models s))%nat (models s) EmptyString.

End Service.

(** ** How a computation ends *)

Module Triple.

(** How much is promised about the way a computation ends. *)
Inductive level : Type :=
| AnyOutcome          (* nothing *)
| NotSuspended        (* it returns or raises *)
| NoEscape            (* it returns, or raises something [except Exception] catches *)
| ReturnsOrCancelled  (* it returns, or raises [CancelledError] *)
| Returns.            (* it returns *)

Definition meets {A} (lvl : level) (r : outcome A) : Prop :=
  match lvl, r with
  | AnyOutcome, _ => True
  | NotSuspended, Suspended => False
  | NotSuspended, _ => True
  | NoEscape, Ok _ => True
  | NoEscape, Raise e => isinstance_Exception e = true
  | NoEscape, Suspended => False
  | ReturnsOrCancelled, Ok _ => True
  | ReturnsOrCancelled, Raise e => e = CancelledError
  | ReturnsOrCancelled, Suspended => False
  | Returns, Ok _ => True
  | Returns, _ => False
  end.

(** From a state in [Inv], [m] ends as [lvl] says, in a state in [Inv]. *)
Definition hoare {S A} (Inv : S -> Prop) (lvl : level) (m : M S A) : Prop :=
  forall s, Inv s -> Inv (snd (m s)) /\ meets lvl (fst (m s)).

(** From a state in [P], [m] returns some [a] in a state in [Q a]. *)
Definition returns {S A} (P : S -> Prop) (m : M S A) (Q : A -> S -> Prop) : Prop :=
  forall s, P s -> exists a s', m s = (Ok a, s') /\ Q a s'.

End Triple.

(** ** Traces *)

Module Trace.
Import LLM Service.

(** The keys handed out, in order. *)
Definition next_keys (tr : list event) : list string :=
  omap (fun e => match e with EvNextKey k => Some k | _ => None end) tr.

(** The models drawn by [random.choice], in order. *)
Definition choices (tr : list event) : list string :=
  omap (fun e => match e with EvChoice m => Some m | _ => None end) tr.

(** The outbound calls, in order. *)
Definition posts (tr : list event) : list (nat * Headers * Payload) :=
  omap (fun e => match e with EvPost a _ h p _ => Some (a, h, p) | _ => None end) tr.

(** The sleeps of either kind, in order. *)
Definition sleeps (tr : list event) : list Q :=
  omap (fun e => match e with
                 | EvAsyncSleep d | EvBlockingSleep d => Some d
                 | _ => None
                 end) tr.

Fixpoint after_first_post (tr : list event) : list event :=
  match tr with
  | [] => []
  | EvPost _ _ _ _ _ :: rest => rest
  | _ :: rest => after_first_post rest
  end.

(** The delays taken between the first outbound call and the end. *)
Definition delays_between_attempts (tr : list event) : list Q :=
  sleeps (after_first_post tr).

(** What one turn of the retry loop may log besides a key lookup, when
    the request is on model [m]. *)
Definition body_event (m : string) (e : event) : Prop :=
  match e with
  | EvAsyncSleep _ | EvBlockingSleep _ => True
  | EvPost _ _ _ p _ => model p = m
  | EvNextKey _ | EvChoice _ => False
  end.

(** What a turn logs: the key lookup (but for the first turn), the call,
    and whatever follows the call. *)
Definition turn_events (s : LLMService) (m : string) (msgs : list Message)
    (after : nat -> list event) (a : nat) : list event :=
  app (if (0 <? a)%nat then [EvNextKey (key_at s a)] else [])
      (EvPost a (api_url s) (make_headers (key_at s a)) (make_payload m msgs) 30
       :: after a).

(** After a server error: the backoff, unless the turn was the last. *)
Definition then_backoff (max a : nat) : list event :=
  if (a <? max - 1)%nat then [EvAsyncSleep (backoff a)] else [].

(** The delay after a 429 when [n] random values were drawn before. *)
Definition rate_limit_jitter (env : Env) (n : nat) : Q :=
  ((1 # 10) + ((3 # 10) - (1 # 10)) * random env n)%Q.

(** After a 429: the short random delay, unless the turn was the last. *)
Definition then_jitter (env : Env) (max a : nat) : list event :=
  if (a <? max - 1)%nat then [EvAsyncSleep (rate_limit_jitter env (S a))] else [].

(** The downstream answers every call with status 500. *)
Definition always_500 (env : Env) : Prop :=
  forall a url h p t, exists body, post env a url h p t = Response 500 body.

(** The downstream answers 429 to the calls of the first [n - 1] turns
    and [status] with the answer [text] to the call of turn [n - 1]. *)
Definition rate_limited_until_last (env : Env) (n : nat) (status : Z) (text : string)
  : Prop :=
  (forall a url h p t, (a < n - 1)%nat ->
     exists body, post env a url h p t = Response 429 body) /\
  (forall url h p t,
     post env (n - 1)%nat url h p t = Response status (JsonChoices text)).

End Trace.

(** ** States of a dispatch *)

Module Run.
Import LLM Service Trace.

Definition ctx_ok (c : Ctx) : Prop := service_ok (svc c).

(** A dispatch that starts on a new task. *)
Definition fresh (s : LLMService) : Ctx := {| svc := s; task := new_task |}.

(** The state after an event was logged, a random value drawn, an await
    counted, the cursor moved, a success noted. *)
Definition logged (e : event) (c : Ctx) : Ctx := snd (log e c).

Definition drawn (c : Ctx) : Ctx :=
  {| svc := svc c;
     task := {| trace := trace (task c); draws := S (draws (task c));
                awaits := awaits (task c) |} |}.

Definition awaited (c : Ctx) : Ctx :=
  {| svc := svc c;
     task := {| trace := trace (task c); draws := draws (task c);
                awaits := S (awaits (task c)) |} |}.

Definition rotated (c : Ctx) : Ctx :=
  {| svc := advance 1 (svc c); task := task c |}.

Definition used (m key : string) (c : Ctx) : Ctx :=
  {| svc := set_last_used m key (svc c); task := task c |}.

(** The first pre-call delay of a task in state [c]. *)
Definition initial_delay (env : Env) (c : Ctx) : Q :=
  ((5 # 100) + ((3 # 10) - (5 # 100)) * random env (draws (task c)))%Q.

(** The delay drawn after a 429 by a task in state [c]. *)
Definition rate_limit_delay (env : Env) (c : Ctx) : Q :=
  rate_limit_jitter env (draws (task c)).

(** The state in which the retry loop starts. *)
Definition loop_entry (env : Env) (c : Ctx) : Ctx :=
  logged (EvChoice (selected_model env (svc c)))
    (logged (EvNextKey (key_at (svc c) 0))
       (rotated (awaited (logged (EvAsyncSleep (initial_delay env c)) (drawn c))))).

(** The key of a turn, the state after its lookup, the state after its call. *)
Definition turn_key (first_key : string) (attempt : nat) (c : Ctx) : string :=
  if (0 <? attempt)%nat then key_at (svc c) 0 else first_key.

Definition keyed (attempt : nat) (c : Ctx) : Ctx :=
  if (0 <? attempt)%nat then logged (EvNextKey (key_at (svc c) 0)) (rotated c) else c.

Definition posted (m : string) (msgs : list Message) (first_key : string)
    (attempt : nat) (c : Ctx) : Ctx :=
  logged
    (EvPost attempt (api_url (svc c)) (make_headers (turn_key first_key attempt c))
       (make_payload m msgs) 30)
    (keyed attempt c).

(** Rotation since the service was [s0]: the keys logged are the pool
    taken cyclically from the cursor of [s0], and the cursor moved on by
    as many places. *)
Definition rot (s0 : LLMService) (c : Ctx) : Prop :=
  api_keys (svc c) = api_keys s0 /\
  exists n, next_keys (trace (task c)) = cycle_from s0 n /\
            current_key_index (svc c) = current_key_index (advance n s0).

(** Since the trace was [t0], no model was drawn and every call was sent
    with model [m]. *)
Definition on_model (m : string) (t0 : list event) (c : Ctx) : Prop :=
  exists evs, trace (task c) = app t0 evs /\
              choices evs = [] /\
              Forall (fun x : nat * Headers * Payload => model (snd x) = m) (posts evs).

End Run.

(** ** Quota scenarios *)

Module Quota.
Import Limiter.

(** The length of the reset window in seconds. *)
Definition reset_seconds (self : UserPromptLimiter) : Q :=
  inject_Z (reset_hours self * 3600).

(** A check followed by a record, once per entry of [times]; an entry
    holds the clock values read by the check, by the check inside the
    record, and by the append. *)
Fixpoint check_then_record (enabled : bool) (times : list (Q * Q * Q))
    (user_id : string) (self : UserPromptLimiter)
  : list ((bool * Z * Z) * bool) * UserPromptLimiter :=
  match times with
  | [] => ([], self)
  | (t_check, t_record, stamp) :: rest =>
      let (checked, self) := can_user_make_prompt enabled t_check user_id self in
      let (recorded, self) := record_prompt enabled t_record stamp user_id self in
      let (results, self) := check_then_record enabled rest user_id self in
      ((checked, recorded) :: results, self)
  end.

(** One [record_prompt] per entry of [times]; an entry holds the clock
    values read by the check inside the record and by the append. *)
Fixpoint record_each (enabled : bool) (times : list (Q * Q)) (user_id : string)
    (self : UserPromptLimiter) : list bool * UserPromptLimiter :=
  match times with
  | [] => ([], self)
  | (now, stamp) :: rest =>
      let (recorded, self) := record_prompt enabled now stamp user_id self in
      let (results, self) := record_each enabled rest user_id self in
      (recorded :: results, self)
  end.

(** [t] lies in the reset window that starts at [t0]. *)
Definition in_window (self : UserPromptLimiter) (t0 t : Q) : Prop :=
  (t0 <= t)%Q /\ (t <= t0 + reset_seconds self)%Q.

Definition round_in_window (self : UserPromptLimiter) (t0 : Q) (r : Q * Q * Q) : Prop :=
  in_window self t0 (fst (fst r)) /\ in_window self t0 (snd (fst r)) /\
  in_window self t0 (snd r).

(** The first component of what a check returns. *)
Definition allowed (r : bool * Z * Z) : bool := fst (fst r).

End Quota.

(** ** The admission gate and the handler *)

Module Handler.
Import Service Quota Chat.

(** The tracker after one admitted call, [failures] of them failed. *)
Definition counted (q : Queue.SimpleStatsTracker) (failures : Z)
  : Queue.SimpleStatsTracker :=
  {| Queue.total_requests := Queue.total_requests q + 1;
     Queue.failed_requests := Queue.failed_requests q + failures;
     Queue._semaphore := Queue._semaphore q |}.

Definition has_conversation (user_id conversation_id : string) (w : World) : Prop :=
  is_Some (Conversations.get_conversation conversation_id user_id (conversation_service w)).

(** The quota of [user_id] since the handler started with limiter [l0]:
    nothing was added to the window, and once a check has passed there is
    room in it. *)
Definition quota_state (user_id : string) (l0 : Limiter.UserPromptLimiter)
    (checked : bool) (w : World) : Prop :=
  Limiter.max_prompts_per_user (user_limiter w) = Limiter.max_prompts_per_user l0 /\
  Limiter.window user_id (user_limiter w) `suffix_of` Limiter.window user_id l0 /\
  (checked = true -> PROMPT_LIMIT_ENABLED w = true ->
   Z.of_nat (length (Limiter.window user_id (user_limiter w)))
   < Limiter.max_prompts_per_user l0).

Definition serving (user_id : string) (l0 : Limiter.UserPromptLimiter)
    (checked : bool) (w : World) : Prop :=
  service_ok (llm_service w) /\ quota_state user_id l0 checked w.

(** The state of a request that passed a check and has its conversation. *)
Definition in_service (user_id : string) (l0 : Limiter.UserPromptLimiter)
    (conversation_id : string) (w : World) : Prop :=
  serving user_id l0 true w /\ has_conversation user_id conversation_id w.

(** The limiter [l] of a request that has passed its checks, against the
    limiter [l0] that the handler found: the same bound, nothing added to
    the window of the identity, and room in it when the limit is
    enforced. *)
Definition has_room (enabled : bool) (user_id : string)
    (l0 l : Limiter.UserPromptLimiter) : Prop :=
  Limiter.max_prompts_per_user l = Limiter.max_prompts_per_user l0 /\
  Limiter.window user_id l `suffix_of` Limiter.window user_id l0 /\
  (enabled = true ->
   Z.of_nat (length (Limiter.window user_id l)) < Limiter.max_prompts_per_user l0).

(** The state of a request that is back from its dispatch: it had room in
    the limiter [l], and the limiter is now what the other handlers made
    of [l]. *)
Definition back_from_dispatch (env : Env) (user_id : string)
    (l0 l : Limiter.UserPromptLimiter) (conversation_id : string) (w : World) : Prop :=
  user_limiter w = interleaved env l /\
  has_room (PROMPT_LIMIT_ENABLED w) user_id l0 l /\
  has_conversation user_id conversation_id w.

(** A step of the handler that leaves the switch of the limit as it is. *)
Definition keeps_switch {A} (m : M World A) : Prop :=
  forall w a w', m w = (Ok a, w') -> PROMPT_LIMIT_ENABLED w' = PROMPT_LIMIT_ENABLED w.

End Handler.

(** ** The store as a directory tree *)

Module Tree.
Import Chat.

Fixpoint has_char (c : ascii) (s : string) : bool :=
  match s with
  | EmptyString => false
  | String c' s' => Ascii.eqb c c' || has_char c s'
  end.

(** One component of a path, as [os.path.join] appends it and a file
    system takes it: not empty, at most 255 bytes, without a slash or a
    NUL, and neither of the two names that every directory has. *)
Definition is_name (s : string) : bool :=
  LLM.nonempty s && (String.length s <=? 255)%nat
  && negb (has_char "/" s) && negb (has_char "000" s)
  && negb (String.eqb s ".") && negb (String.eqb s "..").

(** [data/conversations/<user_id>] is a directory of its own, which
    [os.makedirs] makes or finds. *)
Definition names_directory (user_id : string) : Prop := is_name user_id = true.

(** [<conversation_id>.json] is a file of its own in such a directory. *)
Definition names_file (conversation_id : string) : Prop :=
  is_name (conversation_id ++ ".json") = true.

(** The map holds what a tree can hold: every key is a directory and a
    file in it. *)
Definition keys_are_names (self : Conversations.ConversationService) : Prop :=
  forall user_id conversation_id c,
    Conversations.files self !! (user_id, conversation_id) = Some c ->
    names_directory user_id /\ names_file conversation_id.

(** The store of a handler as a tree, with the one file that the handler
    may add to it: the next value of [str(uuid.uuid4())], which is the id
    of the conversation made when the one asked for is missing. *)
Definition tree_like (env : Env) (w : World) : Prop :=
  keys_are_names (conversation_service w) /\ names_file (uuid4 env (uuids w)).

End Tree.

(** ** Concrete inputs *)

Module Examples.

(** A process environment with the first [n] numbered keys set. *)
Definition getenv_keys (n : nat) (name : string) : option string :=
  if (1 <=? n)%nat && String.eqb name "OPENROUTER_API_KEY_1" then Some " sk-or-v1-aaaaaa1 "
  else if (2 <=? n)%nat && String.eqb name "OPENROUTER_API_KEY_2" then Some "sk-or-v1-bbbbbb2"
  else None.

Definition no_keys : LLM.LLMService := LLM.init (getenv_keys 0).
Definition one_key : LLM.LLMService := LLM.init (getenv_keys 1).
Definition two_keys : LLM.LLMService := LLM.init (getenv_keys 2).

(** A downstream that answers attempt [a] with [f a], whatever is sent. *)
Definition downstream (f : nat -> LLM.post_result) (cancel : option nat) : LLM.Env :=
  {| LLM.post := fun a _ _ _ _ => f a;
     LLM.random := fun _ => 1 # 2;
     LLM.choice_index := 7;
     LLM.cancel_at := cancel |}.

Definition always (status : Z) : nat -> LLM.post_result :=
  fun _ => LLM.Response status LLM.JsonNoChoices.

Definition rate_limited_then (n : nat) (status : Z) (text : string)
  : nat -> LLM.post_result :=
  fun a => if (a <? n)%nat then LLM.Response 429 LLM.JsonNoChoices
           else LLM.Response status (LLM.JsonChoices text).

(** The world of a handler at start-up: the limiter of the module
    ([3] prompts per [24] hours), the admission gate with its [50] permits, an
    empty conversation store. *)
Definition start (s : LLM.LLMService) (enabled : bool) : Chat.World :=
  {| Chat.llm_service := s;
     Chat.request_queue := Queue.init;
     Chat.user_limiter := Limiter.user_limiter;
     Chat.PROMPT_LIMIT_ENABLED := enabled;
     Chat.conversation_service := {| Conversations.files := ∅ |};
     Chat.task := LLM.new_task;
     Chat.clock_reads := 0;
     Chat.uuids := 0 |}.

(** A handler's outside world: the clock reads 1000, 1001, ... seconds,
    the classifier answers (Netral, 0.5), no other request is handled
    meanwhile. *)
Definition outside (llm : LLM.Env) : Chat.Env :=
  {| Chat.llm_env := llm;
     Chat.time_time := fun n => inject_Z (1000 + Z.of_nat n);
     Chat.uuid4 := fun n => pretty n;
     Chat.classify_emotion := fun _ => ("Netral", 1 # 2);
     Chat._generate_title := fun s => s;
     Chat.meanwhile := fun user_prompts => user_prompts |}.

Definition bearer (token : string) : Limiter.Request :=
  {| Limiter.authorization := Some ("Bearer " ++ token) |}.

Definition halo : Chat.MessageRequest := {| Chat.content := "halo" |}.

(** Three rounds of clock readings and four record times, all within a
    day of second 1000. *)
Definition three_rounds : list (Q * Q * Q) :=
  [ (inject_Z 1000, inject_Z 1001, inject_Z 1002);
    (inject_Z 2000, inject_Z 2001, inject_Z 2002);
    (inject_Z 3000, inject_Z 3001, inject_Z 3002) ].

Definition four_records : list (Q * Q) :=
  [ (0%Q, inject_Z 1000); (0%Q, inject_Z 1001); (0%Q, inject_Z 1002);
    (0%Q, inject_Z 1003) ].

(** Three requests of the same identity are recorded while this one
    waits for its reply. *)
Definition three_meanwhile (llm : LLM.Env) : Chat.Env :=
  {| Chat.llm_env := llm;
     Chat.time_time := Chat.time_time (outside llm);
     Chat.uuid4 := Chat.uuid4 (outside llm);
     Chat.classify_emotion := Chat.classify_emotion (outside llm);
     Chat._generate_title := Chat._generate_title (outside llm);
     Chat.meanwhile :=
       fun user_prompts =>
         <["tok" := [inject_Z 1002; inject_Z 1002; inject_Z 1002]]> user_prompts |}.

(** The text of the last message stored for a user, if any. *)
Definition last_stored (user_id conversation_id : string) (w : Chat.World)
  : option string :=
  c ← Conversations.get_conversation conversation_id user_id (Chat.conversation_service w);
  m ← last (Conversations.messages c);
  Some (Conversations.msg_content m).

End Examples.

(** ** Vocabulary of the further statements *)

Module Text.

(** A string that does not start with white space. *)
Definition headed (s : string) : Prop := lstrip s = s.

End Text.

Module Gate.
Import Queue.

(** No more failures counted than requests. *)
Definition counters_ok (q : SimpleStatsTracker) : Prop :=
  0 <= failed_requests q <= total_requests q.

(** [d[k]] on the dict of [get_stats]. *)
Fixpoint stat (k : string) (d : list (string * value)) : option value :=
  match d with
  | [] => None
  | (k', v) :: d' => if String.eqb k' k then Some v else stat k d'
  end.

End Gate.

Module Shelf.
Import Conversations.

(** Every conversation is filed under its own id. *)
Definition store_ok (self : ConversationService) : Prop :=
  forall user_id conversation_id c,
    get_conversation conversation_id user_id self = Some c -> id c = conversation_id.

(** One [add_message_to_conversation] per message, in order. *)
Fixpoint add_each (_generate_title : string -> string) (conversation_id user_id : string)
    (ms : list ChatMessage) (self : ConversationService) : ConversationService :=
  match ms with
  | [] => self
  | m :: rest =>
      add_each _generate_title conversation_id user_id rest
        (snd (add_message_to_conversation _generate_title conversation_id user_id m self))
  end.

(** The title under which a conversation is filed, if it is. *)
Definition title_of (conversation_id user_id : string) (self : ConversationService)
  : option string :=
  title <$> get_conversation conversation_id user_id self.

Definition from_user (m : ChatMessage) : bool := String.eqb (sender m) "user".

(** [c] with another title, with another message at its end. *)
Definition retitled (t : string) (c : Conversation) : Conversation :=
  {| id := id c; user_id := Conversations.user_id c; title := t;
     messages := messages c; subject := subject c; study_level := study_level c |}.

End Shelf.

Module Dispatch.
Import LLM Service Trace Run.

(** The labels that the tables of prompts and canned replies know. *)
Definition known_emotions : list string :=
  ["Senang"; "Netral"; "Bingung"; "Frustrasi"; "Marah"].

(** A call that ends with status 200 and a first choice. *)
Definition is_answer (r : post_result) : bool :=
  match r with
  | Response status (JsonChoices _) => status =? 200
  | _ => false
  end.

(** The reply that goes with the outcome [r] of a call: the enhanced
    answer, or the canned reply of the outcome's kind. *)
Definition last_word (emotion user_message : string) (confidence : Q) (r : post_result)
  : string :=
  match r with
  | Response status body =>
      if status =? 200 then
        match body with
        | JsonChoices text =>
            _enhance_educational_response (strip text) emotion confidence
        | _ => _get_fallback_response emotion user_message
        end
      else if status =? 429 then _get_rate_limit_fallback emotion
      else _get_fallback_response emotion user_message
  | PostTimeout => _get_timeout_fallback emotion
  | PostConnectionError => _get_connection_fallback emotion
  | PostError _ => _get_fallback_response emotion user_message
  end.

(** How a turn ends when its call ends as [r] and [remain] tells
    whether attempts remain. *)
Definition verdict (emotion user_message : string) (confidence : Q) (remain : bool)
    (r : post_result) : ctl :=
  if is_answer r || negb remain
  then Return (last_word emotion user_message confidence r)
  else Continue.

Definition is_post (e : event) : bool :=
  match e with EvPost _ _ _ _ _ => true | _ => false end.

Definition is_sleep (e : event) : Prop :=
  match e with EvAsyncSleep _ | EvBlockingSleep _ => True | _ => False end.

Definition is_blocking_sleep (e : event) : Prop :=
  match e with EvBlockingSleep _ => True | _ => False end.

(** The delays a trace awaited, in order. *)
Definition awaited_delays (tr : list event) : list Q :=
  omap (fun e => match e with EvAsyncSleep d => Some d | _ => None end) tr.

(** The outbound calls of a trace, with all that was sent. *)
Definition calls (tr : list event) : list event := List.filter is_post tr.

(** The call of attempt [a] of a request that found the service as [s]
    and drew the model [m]. *)
Definition call (s : LLMService) (m : string) (msgs : list Message) (a : nat) : event :=
  EvPost a (api_url s) (make_headers (key_at s a)) (make_payload m msgs) 30.

(** The call of a turn, as the environment sees it. *)
Definition answer_to (env : Env) (s : LLMService) (m : string) (msgs : list Message)
    (a : nat) : post_result :=
  post env a (api_url s) (make_headers (key_at s a)) (make_payload m msgs) 30.

(** The call of attempt [a] with the credential [key], and what the
    downstream does with it. *)
Definition call_with (s : LLMService) (m : string) (msgs : list Message) (a : nat)
    (key : string) : event :=
  EvPost a (api_url s) (make_headers key) (make_payload m msgs) 30.

Definition answer_with (env : Env) (s : LLMService) (m : string) (msgs : list Message)
    (a : nat) (key : string) : post_result :=
  post env a (api_url s) (make_headers key) (make_payload m msgs) 30.

(** The keys a turn is handed: one, but for the first turn, which has
    the key fetched before the loop. *)
Definition turn_keys (s : LLMService) (a : nat) : list string :=
  if (0 <? a)%nat then [key_at s a] else [].

End Dispatch.

Module Serving.
Import Service Quota Handler Chat.

(** From a state in [P], [m] raises some [e] in a state in [R e]. *)
Definition raises {S A} (P : S -> Prop) (m : M S A) (R : exn -> S -> Prop) : Prop :=
  forall s, P s -> exists e s', m s = (Raise e, s') /\ R e s'.

(** The conversation filed for [user_id] under [conversation_id] is on
    [subject] and holds the messages [msgs]. *)
Definition stored (user_id conversation_id : string) (subject : option string)
    (msgs : list Conversations.ChatMessage) (w : World) : Prop :=
  exists c,
    Conversations.get_conversation conversation_id user_id (conversation_service w) = Some c /\
    Conversations.id c = conversation_id /\
    Conversations.subject c = subject /\
    Conversations.messages c = msgs.

(** Every other conversation is as it is in [files0]. *)
Definition others_as (files0 : gmap (string * string) Conversations.Conversation)
    (user_id conversation_id : string) (w : World) : Prop :=
  forall key, key <> (user_id, conversation_id) ->
    Conversations.files (conversation_service w) !! key = files0 !! key.

(** A step that leaves the store, the service, the task and the gate
    as they were. *)
Definition quiet (w w' : World) : Prop :=
  conversation_service w' = conversation_service w /\
  llm_service w' = llm_service w /\
  Chat.task w' = Chat.task w /\
  request_queue w' = request_queue w /\
  PROMPT_LIMIT_ENABLED w' = PROMPT_LIMIT_ENABLED w.

(** Where a request in service stands with its quota: it has passed a
    check, or it is back from its dispatch, which it entered with the
    limiter [l]. *)
Inductive phase : Type :=
| Checked
| Back (l : Limiter.UserPromptLimiter).

Definition quota_at (env : Env) (user_id : string) (l0 : Limiter.UserPromptLimiter)
    (ph : phase) (w : World) : Prop :=
  match ph with
  | Checked => quota_state user_id l0 true w
  | Back l =>
      user_limiter w = interleaved env l /\
      has_room (PROMPT_LIMIT_ENABLED w) user_id l0 l
  end.

(** The state of a request in service: its quota as the phase has it, its
    conversation filed with [msgs], the other conversations untouched,
    and the service, the task and the gate as given. *)
Record serving_at (env : Env) (ph : phase) (user_id conversation_id : string)
    (l0 : Limiter.UserPromptLimiter)
    (files0 : gmap (string * string) Conversations.Conversation)
    (s : LLM.LLMService) (t : LLM.Task) (q : Queue.SimpleStatsTracker)
    (subject : option string) (msgs : list Conversations.ChatMessage) (w : World)
  : Prop := {
  sa_quota : quota_at env user_id l0 ph w;
  sa_stored : stored user_id conversation_id subject msgs w;
  sa_others : others_as files0 user_id conversation_id w;
  sa_llm : llm_service w = s;
  sa_task : Chat.task w = t;
  sa_queue : request_queue w = q
}.

(** A message of the user, the reply of the assistant. *)
Definition user_turn (content : string) (m : Conversations.ChatMessage) : Prop :=
  Conversations.msg_content m = content /\ Conversations.sender m = "user" /\
  Conversations.emotion m = None /\ Conversations.emotion_confidence m = None.

Definition reply_turn (content emotion : string) (confidence : Q)
    (m : Conversations.ChatMessage) : Prop :=
  Conversations.msg_content m = content /\ Conversations.sender m = "assistant" /\
  Conversations.emotion m = Some emotion /\
  Conversations.emotion_confidence m = Some confidence.

(** The context the handler draws from the messages of a conversation:
    the last six, as chat API messages. *)
Definition context_from (msgs : list Conversations.ChatMessage) : list LLM.Message :=
  map (fun msg =>
         {| LLM.role := if String.eqb (Conversations.sender msg) "user"
                        then "user" else "assistant";
            LLM.content := Conversations.msg_content msg |})
      (skipn (length msgs - 6) msgs).

(** The dispatch as the handler runs it: through the gate, under the
    deadline, the apology in place of a time-out. *)
Definition guarded_dispatch (env : Env) (message : MessageRequest) (emotion : string)
    (confidence : Q) (context_messages : list LLM.Message)
    (conversation : Conversations.Conversation) : M World string :=
  try_except
    (await env
       (wait_for
          (queued
             (generate_response env message emotion confidence context_messages
                conversation))))
    (fun e =>
       match e with
       | TimeoutError => Some (ret timeout_apology)
       | _ => None
       end).

(** What the guarded dispatch makes of the service [s], the task [t]
    and the gate [q] when it hands back [text]. *)
Definition dispatched (env : Env) (content emotion : string) (confidence : Q)
    (context_messages : list LLM.Message) (subject : option string)
    (s : LLM.LLMService) (t : LLM.Task) (q : Queue.SimpleStatsTracker)
    (text : string)
    (s' : LLM.LLMService) (t' : LLM.Task) (q' : Queue.SimpleStatsTracker) : Prop :=
  match Queue._semaphore q with
  | O => text = timeout_apology /\ s' = s /\ t' = t /\ q' = q
  | S _ =>
      let r :=
        LLM.create_empathetic_response (llm_env env) content emotion confidence
          (Some context_messages) subject {| LLM.svc := s; LLM.task := t |} in
      (fst r = Ok text \/ (fst r = Raise CancelledError /\ text = timeout_apology)) /\
      s' = LLM.svc (snd r) /\ t' = LLM.task (snd r) /\ q' = counted q 0
  end.

(** The conversation a request is served in, and what it held before:
    the one asked for when it is filed, a new one otherwise. *)
Definition served_in (env : Env) (user_id conversation_id : string) (w : World)
  : string * option string * list Conversations.ChatMessage :=
  match Conversations.get_conversation conversation_id user_id (conversation_service w) with
  | Some c => (conversation_id, Conversations.subject c, Conversations.messages c)
  | None => (uuid4 env (uuids w), None, [])
  end.

(** The warning that goes before the reply when the conversation asked
    for was not filed. *)
Definition warned (env : Env) (user_id conversation_id : string) (w : World)
    (text : string) : string :=
  match Conversations.get_conversation conversation_id user_id (conversation_service w) with
  | Some _ => text
  | None =>
      "⚠️ " ++
      ("Conversation not found. A new conversation was created (id: "
       ++ uuid4 env (uuids w) ++ ").") ++ nl ++ nl ++ text
  end.

End Serving.

(** ** More concrete inputs *)

Module Cases.
Import Examples.

(** An empty conversation of the identity [tok], filed as [c1], and the
    store that holds it alone. *)
Definition c1 : Conversations.Conversation :=
  {| Conversations.id := "c1";
     Conversations.user_id := "tok";
     Conversations.title := Conversations.default_title;
     Conversations.messages := [];
     Conversations.subject := None;
     Conversations.study_level := None |}.

Definition one_conversation : Conversations.ConversationService :=
  Conversations._save_conversation c1 "tok" {| Conversations.files := ∅ |}.

(** The world at start-up with that store. *)
Definition filed (s : LLM.LLMService) : Chat.World :=
  Chat.set_conversation_service one_conversation (start s true).

(** The world at start-up when [tok] has used its three prompts. *)
Definition spent (s : LLM.LLMService) : Chat.World :=
  Chat.set_user_limiter
    (snd (Quota.check_then_record true three_rounds "tok" Limiter.user_limiter))
    (start s true).

(** The limiter after four records for [u1], at seconds 1000 to 1003. *)
Definition four_prompts : Limiter.UserPromptLimiter :=
  snd (Quota.record_each false four_records "u1" Limiter.user_limiter).

(** A message of the assistant and a message of the user. *)
Definition greeting : Conversations.ChatMessage :=
  {| Conversations.msg_id := "m0";
     Conversations.msg_content := "Selamat datang.";
     Conversations.sender := "assistant";
     Conversations.emotion := None;
     Conversations.emotion_confidence := None |}.

Definition question : Conversations.ChatMessage :=
  {| Conversations.msg_id := "m1";
     Conversations.msg_content := "Apa itu pecahan?";
     Conversations.sender := "user";
     Conversations.emotion := None;
     Conversations.emotion_confidence := None |}.

(** A downstream where every call times out. *)
Definition timing_out : nat -> LLM.post_result := fun _ => LLM.PostTimeout.

End Cases.

(** * Proofs *)

Import Triple.

Create Rewrite HintDb ctx.

(** ** Rules for the judgements *)

Section Triples.
Context {S : Type} (Inv : S -> Prop).

Lemma hoare_not_suspended {A} lvl (m : M S A) :
  lvl <> AnyOutcome -> hoare Inv lvl m -> hoare Inv NotSuspended m.
Proof.
  intros Hl H s Hs. destruct (H s Hs) as [HI Hr]. split; [exact HI|].
  destruct (fst (m s)), lvl; simpl in *; try exact I; try contradiction; congruence.
Qed.

Lemma hoare_ret {A} lvl (a : A) : hoare Inv lvl (ret a).
Proof. intros s Hs. split; [exact Hs|]. destruct lvl; exact I. Qed.

Lemma hoare_bind {A B} lvl (m : M S A) (k : A -> M S B) :
  hoare Inv lvl m -> (forall a, hoare Inv lvl (k a)) -> hoare Inv lvl (bind m k).
Proof.
  intros Hm Hk s Hs. unfold bind. destruct (Hm s Hs) as [HI Hr].
  destruct (m s) as [[a|e|] s']; simpl in *.
  - apply Hk. exact HI.
  - split; [exact HI|]. destruct lvl; simpl in *; trivial.
  - split; [exact HI|]. destruct lvl; simpl in *; trivial.
Qed.

Lemma hoare_raise {A} (e : exn) :
  isinstance_Exception e = true -> hoare Inv NoEscape (raise e : M S A).
Proof. intros He s Hs. split; [exact Hs|exact He]. Qed.

Lemma hoare_raise_any {A} (e : exn) : hoare Inv AnyOutcome (raise e : M S A).
Proof. intros s Hs. split; [exact Hs|exact I]. Qed.

Lemma hoare_raise_not_suspended {A} (e : exn) : hoare Inv NotSuspended (raise e : M S A).
Proof. intros s Hs. split; [exact Hs|exact I]. Qed.

Lemma hoare_modify lvl (f : S -> S) :
  (forall s, Inv s -> Inv (f s)) -> hoare Inv lvl (modify f).
Proof. intros Hf s Hs. split; [apply Hf, Hs|]. destruct lvl; exact I. Qed.

Lemma hoare_gets {A} lvl (f : S -> A) : hoare Inv lvl (gets f).
Proof. intros s Hs. split; [exact Hs|]. destruct lvl; exact I. Qed.

(** A [try] whose handlers catch every [Exception] and return. *)
Lemma hoare_try_except {A} (m : M S A) (h : exn -> option (M S A)) :
  hoare Inv NoEscape m ->
  (forall e, isinstance_Exception e = true ->
             exists k, h e = Some k /\ hoare Inv Returns k) ->
  hoare Inv Returns (try_except m h).
Proof.
  intros Hm Hh s Hs. unfold try_except. destruct (Hm s Hs) as [HI Hr].
  destruct (m s) as [[a|e|] s']; simpl in *.
  - split; [exact HI|exact I].
  - destruct (Hh e Hr) as (k & -> & Hk). apply Hk. exact HI.
  - contradiction.
Qed.

(** The same when the task may be cancelled: a cancellation passes
    through handlers that only catch [Exception]. *)
Lemma hoare_try_except_cancellable {A} (m : M S A) (h : exn -> option (M S A)) :
  hoare Inv NotSuspended m ->
  (forall e, isinstance_Exception e = true ->
             exists k, h e = Some k /\ hoare Inv ReturnsOrCancelled k) ->
  h CancelledError = None ->
  hoare Inv ReturnsOrCancelled (try_except m h).
Proof.
  intros Hm Hh Hc s Hs. unfold try_except. destruct (Hm s Hs) as [HI Hr].
  destruct (m s) as [[a|e|] s']; simpl in *.
  - split; [exact HI|exact I].
  - destruct (isinstance_Exception e) eqn:He.
    + destruct (Hh e He) as (k & -> & Hk). apply Hk. exact HI.
    + destruct e; try discriminate He. rewrite Hc. split; [exact HI|reflexivity].
  - contradiction.
Qed.

(** With no promise about the outcome, any handlers will do. *)
Lemma hoare_try_except_any {A} (m : M S A) (h : exn -> option (M S A)) :
  hoare Inv AnyOutcome m ->
  (forall e k, h e = Some k -> hoare Inv AnyOutcome k) ->
  hoare Inv AnyOutcome (try_except m h).
Proof.
  intros Hm Hh s Hs. unfold try_except. destruct (Hm s Hs) as [HI _].
  destruct (m s) as [[a|e|] s']; simpl in *; try (split; [exact HI|exact I]).
  destruct (h e) as [k|] eqn:E; [|split; [exact HI|exact I]].
  apply (Hh e k E). exact HI.
Qed.

End Triples.

Section Returns.
Context {S : Type}.

Lemma returns_ret {A} (P : S -> Prop) (a : A) (Q : A -> S -> Prop) :
  (forall s, P s -> Q a s) -> returns P (ret a) Q.
Proof. intros H s Hs. exists a, s. split; [reflexivity|apply H, Hs]. Qed.

Lemma returns_bind {A B} (P : S -> Prop) (m : M S A) (k : A -> M S B)
    (Q : A -> S -> Prop) (R : B -> S -> Prop) :
  returns P m Q -> (forall a, returns (Q a) (k a) R) -> returns P (bind m k) R.
Proof.
  intros Hm Hk s Hs. destruct (Hm s Hs) as (a & s1 & E & HQ).
  destruct (Hk a s1 HQ) as (b & s2 & E2 & HR).
  exists b, s2. unfold bind. rewrite E. auto.
Qed.

Lemma returns_try {A} (P : S -> Prop) (m : M S A) h (Q : A -> S -> Prop) :
  returns P m Q -> returns P (try_except m h) Q.
Proof.
  intros Hm s Hs. destruct (Hm s Hs) as (a & s1 & E & HQ).
  exists a, s1. unfold try_except. rewrite E. auto.
Qed.

Lemma returns_gets {A} (P : S -> Prop) (f : S -> A) (Q : A -> S -> Prop) :
  (forall s, P s -> Q (f s) s) -> returns P (gets f) Q.
Proof. intros H s Hs. exists (f s), s. split; [reflexivity|apply H, Hs]. Qed.

Lemma returns_pure {A} (phi : Prop) (P : S -> Prop) (m : M S A) Q :
  (phi -> returns P m Q) -> returns (fun s => phi /\ P s) m Q.
Proof. intros H s [Hphi Hs]. apply (H Hphi s Hs). Qed.

Lemma returns_pre {A} (P P' : S -> Prop) (m : M S A) Q :
  (forall s, P s -> P' s) -> returns P' m Q -> returns P m Q.
Proof. intros HP H s Hs. apply (H s (HP s Hs)). Qed.

Lemma returns_pure_snd {A} (phi : Prop) (P1 P : S -> Prop) (m : M S A) Q :
  (phi -> returns (fun s => P1 s /\ P s) m Q) ->
  returns (fun s => P1 s /\ phi /\ P s) m Q.
Proof. intros H s (H1 & Hphi & Hs). apply (H Hphi s). auto. Qed.

Lemma returns_ex_snd {A X} (P1 : S -> Prop) (P : X -> S -> Prop) (m : M S A)
    (Q : A -> S -> Prop) :
  (forall x, returns (fun s => P1 s /\ P x s) m Q) ->
  returns (fun s => P1 s /\ exists x, P x s) m Q.
Proof. intros H s (H1 & x & Hx). apply (H x s). auto. Qed.

Lemma returns_ex {A X} (P : X -> S -> Prop) (m : M S A) (Q : A -> S -> Prop) :
  (forall x, returns (P x) m Q) -> returns (fun s => exists x, P x s) m Q.
Proof. intros H s [x Hx]. apply (H x s Hx). Qed.

End Returns.

(** * The dispatch core *)

Section DispatchFacts.
Import LLM Service Trace Run.

(** ** Rotation *)

Lemma getitem_in_range {A} (l : list A) (i : Z) (d : A) :
  0 <= i < Z.of_nat (length l) -> getitem l i = Some (nth (Z.to_nat i) l d).
Proof.
  intros [H0 H1]. unfold getitem.
  destruct (Z.leb_spec 0 i); [|lia].
  destruct (Z.ltb_spec i (Z.of_nat (length l))); [|lia].
  simpl. destruct (nth_lookup_or_length l (Z.to_nat i) d) as [E|E]; [exact E|lia].
Qed.

Lemma advance_0 s : rotor_ok s -> advance 0 s = s.
Proof.
  intros [? ?]. unfold advance, set_current_key_index. destruct s; simpl in *.
  f_equal. change (Z.of_nat 0) with 0. rewrite Z.add_0_r. apply Z.mod_small. assumption.
Qed.

Lemma get_next_api_key_ok s :
  rotor_ok s -> get_next_api_key s = (Ok (key_at s 0), advance 1 s).
Proof.
  intros [Hk Hc]. unfold get_next_api_key.
  destruct (api_keys s) eqn:E; [congruence|]. rewrite <- E.
  rewrite (getitem_in_range _ _ EmptyString) by exact Hc.
  unfold key_at, advance. change (Z.of_nat 0) with 0.
  rewrite Z.add_0_r, (Z.mod_small (current_key_index s)) by exact Hc. reflexivity.
Qed.

Lemma advance_ok n s : rotor_ok s -> rotor_ok (advance n s).
Proof.
  intros [Hk Hc]. split; simpl; try assumption.
  unfold pool_size in *. simpl. apply Z.mod_pos_bound. lia.
Qed.

Lemma advance_advance n m s :
  rotor_ok s -> advance m (advance n s) = advance (n + m) s.
Proof.
  intros [Hk Hc]. unfold advance, set_current_key_index, pool_size. simpl. f_equal.
  rewrite Zplus_mod_idemp_l. f_equal. lia.
Qed.

Lemma key_at_advance n i s :
  rotor_ok s -> key_at (advance n s) i = key_at s (n + i).
Proof.
  intros [Hk Hc]. unfold key_at, advance, pool_size. simpl.
  rewrite Zplus_mod_idemp_l. do 3 f_equal. lia.
Qed.

(** The constructor establishes the invariant as soon as a key is
    configured. *)
Lemma init_service_ok getenv : api_keys (init getenv) <> [] -> service_ok (init getenv).
Proof.
  intros Hk. split; [split|]; [exact Hk| |discriminate].
  unfold pool_size. destruct (api_keys (init getenv)); [congruence|].
  change (current_key_index (init getenv)) with 0. simpl. lia.
Qed.

Lemma advance_service_ok n s : service_ok s -> service_ok (advance n s).
Proof. intros [Hr Hm]. split; [apply advance_ok, Hr|exact Hm]. Qed.

Lemma take_keys_ok n : forall s,
  rotor_ok s -> take_keys n s = (Ok (cycle_from s n), advance n s).
Proof.
  induction n as [|n IH]; intros s Hs.
  - simpl. unfold ret. rewrite advance_0 by assumption. reflexivity.
  - simpl. unfold bind. rewrite get_next_api_key_ok by assumption.
    rewrite IH by (apply advance_ok; assumption).
    unfold ret. rewrite advance_advance by assumption. f_equal. f_equal.
    unfold cycle_from. simpl. f_equal.
    rewrite <- seq_shift, map_map. apply map_ext. intros i.
    rewrite key_at_advance by assumption. reflexivity.
Qed.

(** ** The dispatch returns *)

Lemma meets_Ok {A} lvl (a : A) : meets lvl (Ok a).
Proof. destruct lvl; exact I. Qed.

Lemma log_returns lvl e : hoare ctx_ok lvl (log e).
Proof. apply hoare_modify. intros c Hc. exact Hc. Qed.

Lemma uniform_returns lvl env a b : hoare ctx_ok lvl (uniform env a b).
Proof. intros c Hc. split; [exact Hc|apply meets_Ok]. Qed.

Lemma time_sleep_returns lvl d : hoare ctx_ok lvl (time_sleep d).
Proof. apply log_returns. Qed.

Lemma asyncio_sleep_returns lvl env d :
  cancel_at env = None -> hoare ctx_ok lvl (asyncio_sleep env d).
Proof.
  intros Hnc. unfold asyncio_sleep. rewrite Hnc.
  apply hoare_bind; [apply log_returns|intros _].
  apply hoare_bind; [apply hoare_gets|intros n].
  apply hoare_bind; [apply hoare_modify; intros c Hc; exact Hc|intros _].
  apply hoare_ret.
Qed.

Lemma next_api_key_returns lvl : hoare ctx_ok lvl next_api_key.
Proof.
  intros c Hc. unfold next_api_key, bind, on_svc, zoom.
  rewrite get_next_api_key_ok by apply Hc. simpl.
  split; [|apply meets_Ok]. apply advance_service_ok. exact Hc.
Qed.

Lemma requests_post_no_escape env attempt url h p t :
  hoare ctx_ok NoEscape (requests_post env attempt url h p t).
Proof.
  unfold requests_post.
  apply hoare_bind; [apply log_returns|intros _].
  destruct (post env attempt url h p t).
  - apply hoare_ret.
  - apply hoare_raise. reflexivity.
  - apply hoare_raise. reflexivity.
  - apply hoare_raise. reflexivity.
Qed.

Lemma set_last_used_returns lvl m k :
  hoare ctx_ok lvl (on_svc (modify (set_last_used m k))).
Proof.
  intros c [[Hk Hc] Hm]. split; [|apply meets_Ok].
  split; [split|]; assumption.
Qed.

Ltac hoare_steps lemmas :=
  repeat first
    [ apply hoare_ret
    | apply hoare_gets
    | apply log_returns
    | apply uniform_returns
    | apply time_sleep_returns
    | apply next_api_key_returns
    | apply set_last_used_returns
    | lemmas
    | apply hoare_bind; [|intros ?]
    | match goal with
      | |- hoare _ _ (if ?b then _ else _) => destruct b
      | |- hoare _ _ (match ?x with _ => _ end) => destruct x
      | |- hoare _ _ (let (_, _) := ?x in _) => destruct x
      end ].

Lemma attempt_body_returns env um em conf msgs max m fk attempt :
  cancel_at env = None ->
  hoare ctx_ok Returns (attempt_body env um em conf msgs max m fk attempt).
Proof.
  intros Hnc. unfold attempt_body.
  apply hoare_try_except.
  - hoare_steps
      ltac:(first [ apply requests_post_no_escape
                  | apply asyncio_sleep_returns; exact Hnc
                  | apply hoare_raise; reflexivity ]).
  - intros e He.
    destruct e; try discriminate He; simpl; eexists; (split; [reflexivity|]);
      hoare_steps ltac:(apply asyncio_sleep_returns; exact Hnc).
Qed.

Lemma for_attempts_returns lvl body range :
  (forall attempt, hoare ctx_ok lvl (body attempt)) ->
  hoare ctx_ok lvl (for_attempts body range).
Proof.
  intros Hb. induction range as [|a range IH]; simpl.
  - apply hoare_ret.
  - apply hoare_bind; [apply Hb|]. intros [|text]; [exact IH|apply hoare_ret].
Qed.

Lemma choice_returns lvl env ms :
  ms <> [] -> hoare ctx_ok lvl (choice env ms).
Proof.
  intros Hms. unfold choice.
  destruct (ms !! (choice_index env mod length ms)%nat) eqn:E.
  - apply hoare_bind; [apply log_returns|intros _; apply hoare_ret].
  - apply lookup_ge_None in E. destruct ms; [congruence|].
    pose proof (Nat.mod_upper_bound (choice_index env) (length (s :: ms))) as Hb.
    simpl in *. lia.
Qed.

Lemma create_empathetic_response_returns env um em conf cm subj :
  cancel_at env = None ->
  hoare ctx_ok Returns (create_empathetic_response env um em conf cm subj).
Proof.
  intros Hnc. unfold create_empathetic_response.
  apply hoare_bind; [apply uniform_returns|intros d].
  apply hoare_bind; [apply asyncio_sleep_returns; exact Hnc|intros _].
  apply hoare_bind; [apply hoare_gets|intros max].
  apply hoare_bind; [apply next_api_key_returns|intros key].
  apply hoare_bind.
  - intros c Hc. unfold bind, gets.
    apply choice_returns; [apply (models_configured _ Hc)|exact Hc].
  - intros m. apply hoare_bind.
    + apply for_attempts_returns. intros a. apply attempt_body_returns. exact Hnc.
    + intros [text|]; apply hoare_ret.
Qed.

(** The same for a task that its caller may cancel. *)

Lemma asyncio_sleep_cancellable env d :
  hoare ctx_ok ReturnsOrCancelled (asyncio_sleep env d).
Proof.
  unfold asyncio_sleep.
  apply hoare_bind; [apply log_returns|intros _].
  apply hoare_bind; [apply hoare_gets|intros n].
  apply hoare_bind; [apply hoare_modify; intros c Hc; exact Hc|intros _].
  destruct (cancel_at env) as [k|]; [|apply hoare_ret].
  destruct (k =? n)%nat; [|apply hoare_ret].
  intros c Hc. split; [exact Hc|reflexivity].
Qed.

Lemma attempt_body_cancellable env um em conf msgs max m fk attempt :
  hoare ctx_ok ReturnsOrCancelled (attempt_body env um em conf msgs max m fk attempt).
Proof.
  unfold attempt_body.
  apply hoare_try_except_cancellable.
  - hoare_steps
      ltac:(first [ eapply hoare_not_suspended;
                      [|apply requests_post_no_escape]; discriminate
                  | eapply hoare_not_suspended;
                      [|apply asyncio_sleep_cancellable]; discriminate
                  | apply hoare_raise_not_suspended ]).
  - intros e He.
    destruct e; try discriminate He; simpl; eexists; (split; [reflexivity|]);
      hoare_steps ltac:(apply asyncio_sleep_cancellable).
  - reflexivity.
Qed.

Lemma create_empathetic_response_cancellable env um em conf cm subj :
  hoare ctx_ok ReturnsOrCancelled (create_empathetic_response env um em conf cm subj).
Proof.
  unfold create_empathetic_response.
  apply hoare_bind; [apply uniform_returns|intros d].
  apply hoare_bind; [apply asyncio_sleep_cancellable|intros _].
  apply hoare_bind; [apply hoare_gets|intros max].
  apply hoare_bind; [apply next_api_key_returns|intros key].
  apply hoare_bind.
  - intros c Hc. unfold bind, gets.
    apply choice_returns; [apply (models_configured _ Hc)|exact Hc].
  - intros m. apply hoare_bind.
    + apply for_attempts_returns. intros a. apply attempt_body_cancellable.
    + intros [text|]; apply hoare_ret.
Qed.

(** ** Invariants of the retry loop, whatever the outside does *)

Section LoopInvariant.
Variable Inv : Ctx -> Prop.
Variable m : string.
Hypothesis Inv_log : forall e c, body_event m e -> Inv c -> Inv (logged e c).
Hypothesis Inv_counters : forall s t d a d' a',
  Inv {| svc := s; task := {| trace := t; draws := d; awaits := a |} |} ->
  Inv {| svc := s; task := {| trace := t; draws := d'; awaits := a' |} |}.
Hypothesis Inv_last_used : forall c mo k,
  Inv c -> Inv {| svc := set_last_used mo k (svc c); task := task c |}.
Hypothesis Inv_next : hoare Inv AnyOutcome next_api_key.

Lemma inv_log e : body_event m e -> hoare Inv AnyOutcome (log e).
Proof. intros He c Hc. split; [apply (Inv_log e c He Hc)|exact I]. Qed.

Lemma inv_uniform env a b : hoare Inv AnyOutcome (uniform env a b).
Proof.
  intros [s [t d w]] Hc. split; [|exact I]. simpl.
  eapply Inv_counters. exact Hc.
Qed.

Lemma inv_asyncio_sleep env d : hoare Inv AnyOutcome (asyncio_sleep env d).
Proof.
  unfold asyncio_sleep.
  apply hoare_bind; [apply inv_log; exact I|intros _].
  apply hoare_bind; [apply hoare_gets|intros n].
  apply hoare_bind.
  - apply hoare_modify. intros [s [t dr w]] Hc. simpl. eapply Inv_counters. exact Hc.
  - intros _. destruct (cancel_at env) as [k|]; [|apply hoare_ret].
    destruct (k =? n)%nat; [apply hoare_raise_any|apply hoare_ret].
Qed.

Lemma inv_requests_post env attempt url h p t :
  model p = m -> hoare Inv AnyOutcome (requests_post env attempt url h p t).
Proof.
  intros Hp. unfold requests_post.
  apply hoare_bind; [apply inv_log; exact Hp|intros _].
  destruct (post env attempt url h p t);
    [apply hoare_ret|apply hoare_raise_any..].
Qed.

Lemma inv_set_last_used mo k : hoare Inv AnyOutcome (on_svc (modify (set_last_used mo k))).
Proof. intros c Hc. split; [|exact I]. apply Inv_last_used. exact Hc. Qed.

Ltac inv_steps :=
  repeat first
    [ apply hoare_ret
    | apply hoare_gets
    | apply hoare_raise_any
    | apply inv_uniform
    | apply inv_asyncio_sleep
    | apply inv_set_last_used
    | apply Inv_next
    | apply inv_log; exact I
    | apply inv_requests_post; reflexivity
    | apply hoare_bind; [|intros ?]
    | match goal with
      | |- hoare _ _ (if ?b then _ else _) => destruct b
      | |- hoare _ _ (match ?x with _ => _ end) => destruct x
      | |- hoare _ _ (let (_, _) := ?x in _) => destruct x
      end ].

Lemma attempt_body_inv env um em conf msgs max fk attempt :
  hoare Inv AnyOutcome (attempt_body env um em conf msgs max m fk attempt).
Proof.
  unfold attempt_body. apply hoare_try_except_any.
  - unfold time_sleep. inv_steps.
  - intros e k Hk. unfold time_sleep in Hk.
    destruct e; simpl in Hk; try discriminate Hk;
      injection Hk as <-; inv_steps.
Qed.

Lemma for_attempts_inv env um em conf msgs max fk range :
  hoare Inv AnyOutcome
    (for_attempts (attempt_body env um em conf msgs max m fk) range).
Proof.
  induction range as [|a range IH]; simpl.
  - apply hoare_ret.
  - apply hoare_bind; [apply attempt_body_inv|].
    intros [|text]; [exact IH|apply hoare_ret].
Qed.
End LoopInvariant.

(** Symbolic runs of the primitives *)

Lemma run_bind {S A B} (m : M S A) (k : A -> M S B) s a s' :
  m s = (Ok a, s') -> bind m k s = k a s'.
Proof. intros H. unfold bind. rewrite H. reflexivity. Qed.

Lemma run_asyncio_sleep env d c :
  cancel_at env <> Some (awaits (task c)) ->
  asyncio_sleep env d c = (Ok tt, awaited (logged (EvAsyncSleep d) c)).
Proof.
  intros Hc. unfold asyncio_sleep, bind, log, gets, modify, logged. simpl.
  destruct (cancel_at env) as [k|]; [|reflexivity].
  destruct (Nat.eqb_spec k (awaits (task c))); [congruence|reflexivity].
Qed.

Lemma run_next_api_key c :
  rotor_ok (svc c) ->
  next_api_key c = (Ok (key_at (svc c) 0), logged (EvNextKey (key_at (svc c) 0)) (rotated c)).
Proof.
  intros Hc. unfold next_api_key, bind, on_svc, zoom.
  rewrite get_next_api_key_ok by exact Hc. reflexivity.
Qed.

Lemma run_choice env ms m c :
  ms !! (choice_index env mod length ms)%nat = Some m ->
  choice env ms c = (Ok m, logged (EvChoice m) c).
Proof. intros H. unfold choice. rewrite H. reflexivity. Qed.

Lemma selected_model_lookup env s :
  models s <> [] ->
  models s !! (choice_index env mod length (models s))%nat = Some (selected_model env s).
Proof.
  intros Hm. unfold selected_model.
  destruct (nth_lookup_or_length (models s) (choice_index env mod length (models s))%nat
              EmptyString) as [E|E]; [exact E|].
  destruct (models s); [congruence|].
  pose proof (Nat.mod_upper_bound (choice_index env) (length (s0 :: l))) as Hb.
  simpl in *. lia.
Qed.

Lemma run_create env um em conf cm subj c :
  service_ok (svc c) ->
  cancel_at env <> Some (awaits (task c)) ->
  create_empathetic_response env um em conf cm subj c =
  bind
    (for_attempts
       (attempt_body env um em conf (build_messages um em cm subj)
          (max_retries (svc c)) (selected_model env (svc c)) (key_at (svc c) 0))
       (seq 0 (max_retries (svc c))))
    (fun r =>
       match r with
       | Some text => ret text
       | None => ret (_get_fallback_response em um)
       end)
    (loop_entry env c).
Proof.
  intros Hok Hnc. unfold create_empathetic_response.
  rewrite (run_bind _ _ c (initial_delay env c) (drawn c)) by reflexivity.
  cbv beta.
  rewrite (run_bind _ _ (drawn c) tt _ (run_asyncio_sleep env _ (drawn c) Hnc)).
  cbv beta.
  erewrite run_bind by reflexivity. cbv beta.
  erewrite run_bind by (apply run_next_api_key; apply Hok). cbv beta.
  erewrite (run_bind (bind _ _)); [reflexivity|].
  erewrite run_bind by reflexivity.
  apply run_choice. simpl. apply selected_model_lookup. apply (models_configured _ Hok).
Qed.

(** ** One turn of the loop, outcome by outcome *)

Lemma run_key_step fk attempt c :
  rotor_ok (svc c) ->
  (if (0 <? attempt)%nat then next_api_key else ret fk) c =
  (Ok (turn_key fk attempt c), keyed attempt c).
Proof.
  intros Hc. unfold turn_key, keyed. destruct (0 <? attempt)%nat.
  - apply run_next_api_key. exact Hc.
  - reflexivity.
Qed.

Lemma api_url_keyed attempt c : api_url (svc (keyed attempt c)) = api_url (svc c).
Proof. unfold keyed. destruct (0 <? attempt)%nat; reflexivity. Qed.

Lemma run_post_response env attempt url h p t c status body :
  post env attempt url h p t = Response status body ->
  requests_post env attempt url h p t c =
  (Ok (status, body), logged (EvPost attempt url h p t) c).
Proof. intros H. unfold requests_post, bind. simpl. rewrite H. reflexivity. Qed.

Section Turn.
Variables (env : Env) (um em : string) (conf : Q) (msgs : list Message)
          (max : nat) (m fk : string) (attempt : nat) (c : Ctx).
Hypothesis Hok : rotor_ok (svc c).
Variables (status : Z) (body : json_body).
Hypothesis Hpost :
  post env attempt (api_url (svc c)) (make_headers (turn_key fk attempt c))
    (make_payload m msgs) 30 = Response status body.

Local Abbreviation turn := (attempt_body env um em conf msgs max m fk attempt c).
Local Abbreviation after_call := (posted m msgs fk attempt c).

Ltac to_response :=
  unfold attempt_body, try_except;
  erewrite run_bind by (apply run_key_step; exact Hok); cbv beta zeta;
  erewrite run_bind by reflexivity; cbv beta;
  erewrite run_bind
    by (apply run_post_response; simpl; rewrite api_url_keyed; apply Hpost);
  cbv beta iota; simpl svc; rewrite api_url_keyed; fold after_call.

Ltac pick_branch :=
  repeat match goal with
    | |- context [(?x =? ?y)] => destruct (Z.eqb_spec x y); try lia
    | |- context [(?x >=? ?y)] => destruct (Z.geb_spec x y); try lia
    | |- context [(?x <? ?y)%nat] => destruct (Nat.ltb_spec x y); try lia
    end.

Lemma turn_other_retry :
  status <> 200 -> status <> 429 -> status < 500 -> (attempt < max - 1)%nat ->
  turn = (Ok Continue, after_call).
Proof. intros. to_response. pick_branch. reflexivity. Qed.

Lemma turn_other_last :
  status <> 200 -> status <> 429 -> status < 500 -> ~ (attempt < max - 1)%nat ->
  turn = (Ok (Return (_get_fallback_response em um)), after_call).
Proof. intros. to_response. pick_branch. reflexivity. Qed.

Lemma turn_5xx_retry :
  cancel_at env = None -> 500 <= status -> (attempt < max - 1)%nat ->
  turn = (Ok Continue, awaited (logged (EvAsyncSleep (backoff attempt)) after_call)).
Proof.
  intros Hnc **. to_response. pick_branch.
  erewrite run_bind by (apply run_asyncio_sleep; rewrite Hnc; discriminate).
  reflexivity.
Qed.

Lemma turn_5xx_last :
  500 <= status -> ~ (attempt < max - 1)%nat ->
  turn = (Ok (Return (_get_fallback_response em um)), after_call).
Proof. intros. to_response. pick_branch. reflexivity. Qed.

Lemma turn_429_retry :
  cancel_at env = None -> status = 429 -> (attempt < max - 1)%nat ->
  turn = (Ok Continue,
          awaited (logged (EvAsyncSleep (rate_limit_delay env after_call))
                     (drawn after_call))).
Proof.
  intros Hnc **. to_response. pick_branch.
  erewrite run_bind by reflexivity. cbv beta.
  erewrite run_bind by (apply run_asyncio_sleep; rewrite Hnc; discriminate).
  reflexivity.
Qed.

Lemma turn_429_last :
  status = 429 -> ~ (attempt < max - 1)%nat ->
  turn = (Ok (Return (_get_rate_limit_fallback em)), after_call).
Proof. intros. to_response. pick_branch. reflexivity. Qed.

Lemma turn_success text :
  status = 200 -> body = JsonChoices text ->
  turn = (Ok (Return (_enhance_educational_response (strip text) em conf)),
          used m (turn_key fk attempt c) after_call).
Proof.
  intros ? Hb. to_response. rewrite Hb. pick_branch; reflexivity.
Qed.
End Turn.

(** *** The loop as a whole, when every turn but the last continues *)

Lemma for_attempts_run (body : nat -> M Ctx ctl) (P : nat -> Ctx -> Prop)
    (Q : Ctx -> Prop) (ev : nat -> list event) (max : nat) (text : string) :
  (forall a c, (a < max - 1)%nat -> P a c ->
     exists c1, body a c = (Ok Continue, c1) /\ P (S a) c1 /\
                trace (task c1) = app (trace (task c)) (ev a)) ->
  (forall c, P (max - 1)%nat c ->
     exists c2, body (max - 1)%nat c = (Ok (Return text), c2) /\ Q c2 /\
                trace (task c2) = app (trace (task c)) (ev (max - 1)%nat)) ->
  forall n a c, (a + n = max)%nat -> (0 < n)%nat -> P a c ->
    exists c', for_attempts body (seq a n) c = (Ok (Some text), c') /\ Q c' /\
               trace (task c') = app (trace (task c)) (flat_map ev (seq a n)).
Proof.
  intros Hstep Hlast. induction n as [|n IH]; intros a c Han Hn HP; [lia|].
  simpl. destruct n as [|n].
  - assert (a = max - 1)%nat as -> by lia.
    destruct (Hlast c HP) as (c2 & E & HQ & Ht).
    exists c2. unfold bind. rewrite E. simpl. rewrite app_nil_r. auto.
  - destruct (Hstep a c ltac:(lia) HP) as (c1 & E & HP1 & Ht).
    destruct (IH (S a) c1 ltac:(lia) ltac:(lia) HP1) as (c' & E' & HQ & Ht').
    exists c'. unfold bind at 1. rewrite E. split; [exact E'|]. split; [exact HQ|].
    rewrite Ht', Ht, <- app_assoc. reflexivity.
Qed.

Lemma trace_logged e c : trace (task (logged e c)) = app (trace (task c)) [e].
Proof. reflexivity. Qed.
Lemma svc_logged e c : svc (logged e c) = svc c.
Proof. reflexivity. Qed.
Lemma trace_awaited c : trace (task (awaited c)) = trace (task c).
Proof. reflexivity. Qed.
Lemma svc_awaited c : svc (awaited c) = svc c.
Proof. reflexivity. Qed.
Lemma trace_drawn c : trace (task (drawn c)) = trace (task c).
Proof. reflexivity. Qed.
Lemma svc_drawn c : svc (drawn c) = svc c.
Proof. reflexivity. Qed.
Lemma draws_logged e c : draws (task (logged e c)) = draws (task c).
Proof. reflexivity. Qed.
Lemma draws_awaited c : draws (task (awaited c)) = draws (task c).
Proof. reflexivity. Qed.
Lemma draws_drawn c : draws (task (drawn c)) = S (draws (task c)).
Proof. reflexivity. Qed.
Lemma trace_used m k c : trace (task (used m k c)) = trace (task c).
Proof. reflexivity. Qed.
Lemma svc_used m k c : svc (used m k c) = set_last_used m k (svc c).
Proof. reflexivity. Qed.

Hint Rewrite trace_logged svc_logged trace_awaited svc_awaited trace_drawn svc_drawn
  draws_logged draws_awaited draws_drawn trace_used svc_used : ctx.

Lemma max_retries_pos s : rotor_ok s -> (2 <= max_retries s)%nat.
Proof.
  intros [Hk _]. unfold max_retries. destruct (api_keys s); [congruence|simpl; lia].
Qed.

(** The state of a turn that starts with the cursor [a] places on. *)
Lemma posted_of_advance s m msgs a c :
  rotor_ok s ->
  svc c = advance (Nat.max a 1) s ->
  svc (posted m msgs (key_at s 0) a c) = advance (S a) s /\
  turn_key (key_at s 0) a c = key_at s a /\
  api_url (svc c) = api_url s /\
  trace (task (posted m msgs (key_at s 0) a c)) =
    app (trace (task c)) (turn_events s m msgs (fun _ => []) a).
Proof.
  intros Hs Hc. unfold posted, turn_events, turn_key, keyed.
  destruct a as [|a].
  - change (0 <? 0)%nat with false. cbv iota.
    unfold logged, log, modify. cbn [snd svc task trace].
    rewrite Hc. auto.
  - change (0 <? S a)%nat with true. cbv iota.
    replace (Nat.max (S a) 1) with (S a) in Hc by lia.
    unfold logged, log, modify, rotated. cbn [snd svc task trace].
    rewrite Hc. rewrite key_at_advance by exact Hs. rewrite Nat.add_0_r.
    rewrite advance_advance by exact Hs.
    replace (S a + 1)%nat with (S (S a)) by lia.
    rewrite <- app_assoc. auto.
Qed.

Section AllServerErrors.
Variables (env : Env) (um em : string) (conf : Q) (msgs : list Message)
          (s : LLMService) (m : string).
Hypothesis Hs : rotor_ok s.
Hypothesis Hnc : cancel_at env = None.
Hypothesis H500 : always_500 env.

Local Abbreviation max := (max_retries s).
Local Abbreviation body := (attempt_body env um em conf msgs max m (key_at s 0)).
Local Abbreviation after := (then_backoff max).

Lemma server_error_loop c :
  svc c = advance 1 s ->
  exists c', for_attempts body (seq 0 max) c =
               (Ok (Some (_get_fallback_response em um)), c') /\
             svc c' = advance max s /\
             trace (task c') =
               app (trace (task c)) (flat_map (turn_events s m msgs after) (seq 0 max)).
Proof.
  intros Hc. pose proof (max_retries_pos s Hs) as Hmax.
  apply (for_attempts_run body (fun a c => svc c = advance (Nat.max a 1) s)
           (fun c => svc c = advance max s) (turn_events s m msgs after) max).
  - intros a c0 Ha HP.
    destruct (posted_of_advance s m msgs a c0 Hs HP) as (Hsvc & Hkey & Hurl & Htr).
    destruct (H500 a (api_url (svc c0)) (make_headers (turn_key (key_at s 0) a c0))
                (make_payload m msgs) 30) as [b Hb].
    eexists. split.
    + apply (turn_5xx_retry env um em conf msgs max m (key_at s 0) a c0
               ltac:(rewrite HP; apply advance_ok, Hs) 500 b Hb Hnc); lia.
    + split.
      * autorewrite with ctx. rewrite Hsvc. f_equal. lia.
      * autorewrite with ctx. rewrite Htr. unfold turn_events, then_backoff.
        destruct (Nat.ltb_spec a (max - 1)); [|lia].
        rewrite <- !app_assoc. reflexivity.
  - intros c0 HP.
    destruct (posted_of_advance s m msgs (max - 1) c0 Hs HP) as (Hsvc & Hkey & Hurl & Htr).
    destruct (H500 (max - 1)%nat (api_url (svc c0))
                (make_headers (turn_key (key_at s 0) (max - 1) c0))
                (make_payload m msgs) 30) as [b Hb].
    eexists. split.
    + apply (turn_5xx_last env um em conf msgs max m (key_at s 0) (max - 1) c0
               ltac:(rewrite HP; apply advance_ok, Hs) 500 b Hb); lia.
    + split.
      * rewrite Hsvc. f_equal. lia.
      * rewrite Htr. unfold turn_events, then_backoff.
        destruct (Nat.ltb_spec (max - 1) (max - 1)); [lia|]. reflexivity.
  - lia.
  - lia.
  - exact Hc.
Qed.
End AllServerErrors.

Lemma backoff_mono a b : (a <= b)%nat -> (backoff a <= backoff b)%Q.
Proof.
  intros Hab. unfold backoff, base_delay, Qle. simpl.
  assert (2 ^ Z.of_nat a <= 2 ^ Z.of_nat b) by (apply Z.pow_le_mono_r; lia).
  lia.
Qed.

Lemma backoff_sorted n a : StronglySorted Qle (map backoff (seq a n)).
Proof.
  revert a. induction n as [|n IH]; intros a; simpl; constructor.
  - apply IH.
  - apply List.Forall_forall. intros q Hq. apply in_map_iff in Hq as (b & <- & Hb).
    apply in_seq in Hb. apply backoff_mono. lia.
Qed.

Lemma sleeps_app t1 t2 : sleeps (app t1 t2) = app (sleeps t1) (sleeps t2).
Proof. apply omap_app. Qed.
Lemma posts_app t1 t2 : posts (app t1 t2) = app (posts t1) (posts t2).
Proof. apply omap_app. Qed.
Lemma next_keys_app t1 t2 : next_keys (app t1 t2) = app (next_keys t1) (next_keys t2).
Proof. apply omap_app. Qed.

Section Turns.
Variables (s : LLMService) (m : string) (msgs : list Message) (after : nat -> list event).

Local Abbreviation turns := (flat_map (turn_events s m msgs after)).

Lemma sleeps_turn a : sleeps (turn_events s m msgs after a) = sleeps (after a).
Proof. unfold turn_events. destruct (0 <? a)%nat; reflexivity. Qed.

Lemma sleeps_turns l : sleeps (turns l) = flat_map (fun a => sleeps (after a)) l.
Proof.
  induction l as [|a l IH]; [reflexivity|]. simpl.
  rewrite sleeps_app, sleeps_turn, IH. reflexivity.
Qed.

Hypothesis after_no_post : forall a, posts (after a) = [].
Hypothesis after_no_key : forall a, next_keys (after a) = [].

Lemma posts_turn a :
  posts (turn_events s m msgs after a) =
  [(a, make_headers (key_at s a), make_payload m msgs)].
Proof.
  unfold turn_events. rewrite posts_app.
  destruct (0 <? a)%nat; simpl; rewrite after_no_post; reflexivity.
Qed.

Lemma posts_turns l :
  posts (turns l) =
  map (fun a => (a, make_headers (key_at s a), make_payload m msgs)) l.
Proof.
  induction l as [|a l IH]; [reflexivity|]. cbn [flat_map map].
  rewrite posts_app, IH, posts_turn. reflexivity.
Qed.

Lemma next_keys_turn a :
  next_keys (turn_events s m msgs after (S a)) = [key_at s (S a)].
Proof.
  unfold turn_events. rewrite next_keys_app. simpl. rewrite after_no_key. reflexivity.
Qed.

Lemma next_keys_turns a n :
  next_keys (turns (seq (S a) n)) = map (key_at s) (seq (S a) n).
Proof.
  revert a. induction n as [|n IH]; intros a; [reflexivity|].
  cbn [seq flat_map map]. rewrite next_keys_app, IH, next_keys_turn. reflexivity.
Qed.

Lemma after_first_post_turns pre n :
  posts pre = [] ->
  after_first_post (app pre (turns (seq 0 (S n)))) =
  app (after 0) (turns (seq 1 n)).
Proof.
  intros Hpre. induction pre as [|e pre IH]; simpl.
  - reflexivity.
  - destruct e; simpl in Hpre; try discriminate; apply IH; exact Hpre.
Qed.
End Turns.

Lemma sleeps_until_last after max (f : nat -> Q) :
  (forall a, sleeps (after a) = if (a <? max - 1)%nat then [f a] else []) ->
  forall n a, (a + n = max)%nat -> (0 < n)%nat ->
    flat_map (fun a => sleeps (after a)) (seq a n) = map f (seq a (n - 1)).
Proof.
  intros Hafter. induction n as [|n IH]; intros a Han Hn; [lia|].
  simpl. rewrite Hafter. destruct n as [|n].
  - destruct (Nat.ltb_spec a (max - 1)); [lia|]. reflexivity.
  - destruct (Nat.ltb_spec a (max - 1)); [|lia].
    rewrite (IH (S a)) by lia. simpl. rewrite Nat.sub_0_r. reflexivity.
Qed.

Lemma loop_entry_trace env c :
  trace (task (loop_entry env c)) =
  app (trace (task c))
    [EvAsyncSleep (initial_delay env c); EvNextKey (key_at (svc c) 0);
     EvChoice (selected_model env (svc c))].
Proof. unfold loop_entry. autorewrite with ctx. simpl. rewrite <- !app_assoc. reflexivity. Qed.

(** Claim C4.  With a pool of K >= 1 keys, a downstream that answers every
    call with HTTP 500 and no cancellation, [create_empathetic_response]
    returns the generic fallback after exactly [max_retries = 2 * K]
    attempts (numbered 0 to 2K - 1), and the delays it takes between the
    attempts are [base_delay * 2 ^ attempt] for the attempts but the last:
    a non-decreasing sequence. *)
Theorem all_500_gives_generic_fallback env um em conf cm subj s :
  service_ok s -> cancel_at env = None -> always_500 env ->
  let r := create_empathetic_response env um em conf cm subj (fresh s) in
  let tr := trace (task (snd r)) in
  fst r = Ok (_get_fallback_response em um) /\
  max_retries s = (2 * length (api_keys s))%nat /\
  map (fun x => fst (fst x)) (posts tr) = seq 0 (max_retries s) /\
  delays_between_attempts tr = map backoff (seq 0 (max_retries s - 1)) /\
  StronglySorted Qle (delays_between_attempts tr).
Proof.
  intros Hs Hnc H500 r tr. subst r tr.
  rewrite run_create by (try exact Hs; rewrite Hnc; discriminate).
  set (msgs := build_messages um em cm subj).
  set (m := selected_model env (svc (fresh s))).
  destruct (server_error_loop env um em conf msgs s m (rotor _ Hs) Hnc H500
              (loop_entry env (fresh s)) eq_refl) as (c' & E & Hsvc & Htr).
  change (svc (fresh s)) with s.
  unfold bind. rewrite E. cbn [fst snd ret].
  pose proof (max_retries_pos s (rotor _ Hs)) as Hmax.
  rewrite Htr, loop_entry_trace.
  change (trace (task (fresh s))) with (@nil event). rewrite app_nil_l.
  change (svc (fresh s)) with s.
  set (after := then_backoff (max_retries s)).
  assert (Hdel : delays_between_attempts
                   ([EvAsyncSleep (initial_delay env (fresh s)); EvNextKey (key_at s 0);
                     EvChoice m] ++ flat_map (turn_events s m msgs after)
                                      (seq 0 (max_retries s)))%list
                 = map backoff (seq 0 (max_retries s - 1))).
  { unfold delays_between_attempts.
    destruct (max_retries s) as [|n] eqn:En; [lia|].
    rewrite after_first_post_turns by reflexivity.
    rewrite sleeps_app, sleeps_turns.
    rewrite (sleeps_until_last after (S n) backoff).
    - unfold after, then_backoff. destruct (Nat.ltb_spec 0 (S n - 1)); [|lia].
      simpl. rewrite Nat.sub_0_r. destruct n; [lia|]. simpl.
      rewrite Nat.sub_0_r. reflexivity.
    - intros a. unfold after, then_backoff. destruct (a <? S n - 1)%nat; reflexivity.
    - lia.
    - lia. }
  split; [reflexivity|]. split; [unfold max_retries; lia|]. split; [|split].
  - rewrite posts_app. change (posts [_; _; _]) with (@nil (nat * Headers * Payload)).
    rewrite app_nil_l, posts_turns.
    + rewrite map_map. simpl. apply map_id.
    + intros a. unfold after, then_backoff. destruct (a <? _)%nat; reflexivity.
  - exact Hdel.
  - refine (eq_ind_r (StronglySorted Qle) (backoff_sorted _ _) Hdel).
Qed.

Lemma draws_posted m msgs fk a c : draws (task (posted m msgs fk a c)) = draws (task c).
Proof. unfold posted, keyed. destruct (0 <? a)%nat; reflexivity. Qed.

Section RateLimitedUntilLast.
Variables (env : Env) (um em : string) (conf : Q) (msgs : list Message)
          (s : LLMService) (m : string) (text : string).
Hypothesis Hs : rotor_ok s.
Hypothesis Hnc : cancel_at env = None.
Hypothesis Hdown : rate_limited_until_last env (max_retries s) 200 text.

Local Abbreviation max := (max_retries s).
Local Abbreviation body := (attempt_body env um em conf msgs max m (key_at s 0)).

Lemma rate_limited_loop c :
  svc c = advance 1 s -> draws (task c) = 1%nat ->
  exists c', for_attempts body (seq 0 max) c =
               (Ok (Some (_enhance_educational_response (strip text) em conf)), c') /\
             svc c' = set_last_used m (key_at s (max - 1)) (advance max s) /\
             trace (task c') =
               app (trace (task c))
                 (flat_map (turn_events s m msgs (then_jitter env max)) (seq 0 max)).
Proof.
  intros Hc Hd. pose proof (max_retries_pos s Hs) as Hmax.
  destruct Hdown as [H429 H200].
  apply (for_attempts_run body
           (fun a c => svc c = advance (Nat.max a 1) s /\ draws (task c) = S a)
           (fun c => svc c = set_last_used m (key_at s (max - 1)) (advance max s))
           (turn_events s m msgs (then_jitter env max)) max).
  - intros a c0 Ha [HP HD].
    destruct (posted_of_advance s m msgs a c0 Hs HP) as (Hsvc & Hkey & Hurl & Htr).
    destruct (H429 a (api_url (svc c0)) (make_headers (turn_key (key_at s 0) a c0))
                (make_payload m msgs) 30 Ha) as [b Hb].
    eexists. split.
    + apply (turn_429_retry env um em conf msgs max m (key_at s 0) a c0
               ltac:(rewrite HP; apply advance_ok, Hs) 429 b Hb Hnc); [reflexivity|lia].
    + split; [split|].
      * autorewrite with ctx. rewrite Hsvc. f_equal. lia.
      * autorewrite with ctx. rewrite draws_posted, HD. reflexivity.
      * autorewrite with ctx. rewrite Htr. unfold turn_events, then_jitter.
        destruct (Nat.ltb_spec a (max - 1)); [|lia].
        unfold rate_limit_delay, rate_limit_jitter. rewrite draws_posted, HD.
        rewrite <- !app_assoc. reflexivity.
  - intros c0 [HP HD].
    destruct (posted_of_advance s m msgs (max - 1) c0 Hs HP) as (Hsvc & Hkey & Hurl & Htr).
    eexists. split.
    + apply (turn_success env um em conf msgs max m (key_at s 0) (max - 1) c0
               ltac:(rewrite HP; apply advance_ok, Hs) 200 (JsonChoices text)
               (H200 _ _ _ _) text eq_refl eq_refl).
    + split.
      * autorewrite with ctx. rewrite Hsvc, Hkey. do 2 f_equal. lia.
      * autorewrite with ctx. rewrite Htr. unfold turn_events, then_jitter.
        destruct (Nat.ltb_spec (max - 1) (max - 1)); [lia|]. reflexivity.
  - lia.
  - lia.
  - split; [exact Hc|exact Hd].
Qed.
End RateLimitedUntilLast.

(** The run of a dispatch that has the service to itself, with a
    downstream that answers 429 to the first [max_retries - 1] attempts and
    status 200 with a first choice to the last one: the keys handed out
    are then the pool taken cyclically from the cursor. *)
Lemma rate_limited_run_alone env um em conf cm subj s text :
  service_ok s -> cancel_at env = None ->
  rate_limited_until_last env (max_retries s) 200 text ->
  let r := create_empathetic_response env um em conf cm subj (fresh s) in
  let tr := trace (task (snd r)) in
  let last_key := key_at s (max_retries s - 1) in
  fst r = Ok (_enhance_educational_response (strip text) em conf) /\
  last_used_key (svc (snd r)) = Some last_key /\
  last (posts tr) =
    Some ((max_retries s - 1)%nat, make_headers last_key,
          make_payload (selected_model env s) (build_messages um em cm subj)) /\
  next_keys tr = cycle_from s (max_retries s) /\
  length (next_keys tr) = max_retries s /\
  current_key_index (svc (snd r)) = current_key_index (advance (max_retries s) s).
Proof.
  intros Hs Hnc Hdown r tr last_key. subst r tr last_key.
  rewrite run_create by (try exact Hs; rewrite Hnc; discriminate).
  change (svc (fresh s)) with s.
  set (msgs := build_messages um em cm subj).
  set (m := selected_model env s).
  destruct (rate_limited_loop env um em conf msgs s m text (rotor _ Hs) Hnc Hdown
              (loop_entry env (fresh s)) eq_refl eq_refl) as (c' & E & Hsvc & Htr).
  unfold bind. rewrite E. cbn [fst snd ret].
  pose proof (max_retries_pos s (rotor _ Hs)) as Hmax.
  rewrite Htr, loop_entry_trace, Hsvc.
  change (trace (task (fresh s))) with (@nil event). rewrite app_nil_l.
  change (svc (fresh s)) with s.
  assert (Hafter_p : forall a, posts (then_jitter env (max_retries s) a) = []).
  { intros a. unfold then_jitter. destruct (a <? _)%nat; reflexivity. }
  assert (Hafter_k : forall a, next_keys (then_jitter env (max_retries s) a) = []).
  { intros a. unfold then_jitter. destruct (a <? _)%nat; reflexivity. }
  assert (Hkeys :
    next_keys ([EvAsyncSleep (initial_delay env (fresh s)); EvNextKey (key_at s 0);
                EvChoice m] ++
               flat_map (turn_events s m msgs (then_jitter env (max_retries s)))
                 (seq 0 (max_retries s)))%list
    = cycle_from s (max_retries s)).
  { destruct (max_retries s) as [|n] eqn:En; [lia|].
    rewrite next_keys_app. cbn [seq flat_map]. rewrite next_keys_app.
    rewrite next_keys_turns by assumption.
    unfold turn_events at 1. change (0 <? 0)%nat with false. cbn [app].
    change (next_keys (EvPost _ _ _ _ _ :: ?l)) with (next_keys l).
    rewrite Hafter_k. reflexivity. }
  split; [reflexivity|]. split; [reflexivity|]. split; [|split; [|split]].
  - rewrite posts_app, posts_turns by assumption.
    change (posts [_; _; _]) with (@nil (nat * Headers * Payload)). rewrite app_nil_l.
    destruct (max_retries s) as [|n] eqn:En; [lia|].
    rewrite seq_S, map_app. cbn [map]. rewrite last_snoc. simpl. rewrite Nat.sub_0_r. reflexivity.
  - exact Hkeys.
  - refine (eq_ind_r (fun l => length l = max_retries s) _ Hkeys).
    unfold cycle_from. rewrite length_map, length_seq. reflexivity.
  - reflexivity.
Qed.

Lemma posts_length_turns s m msgs after n :
  (forall a, posts (after a) = []) ->
  length (posts (flat_map (turn_events s m msgs after) (seq 0 n))) = n.
Proof.
  intros Hafter. rewrite (posts_turns s m msgs after) by exact Hafter.
  rewrite length_map, length_seq. reflexivity.
Qed.


Lemma choices_app t1 t2 : choices (app t1 t2) = app (choices t1) (choices t2).
Proof. apply omap_app. Qed.

(** *** Rotation, whatever the attempts do *)

Lemma cycle_from_S s n : cycle_from s (S n) = app (cycle_from s n) [key_at s n].
Proof. unfold cycle_from. rewrite seq_S, map_app. reflexivity. Qed.

Lemma rot_fresh s : rotor_ok s -> rot s (fresh s).
Proof.
  intros Hs. split; [reflexivity|]. exists 0%nat. split; [reflexivity|].
  rewrite advance_0 by exact Hs. reflexivity.
Qed.

Lemma rot_log s0 e c :
  (forall k, e <> EvNextKey k) -> rot s0 c -> rot s0 (logged e c).
Proof.
  intros He (Hk & n & Hn & Hc). split; [exact Hk|]. exists n. split; [|exact Hc].
  rewrite trace_logged, next_keys_app, Hn.
  destruct e; try apply app_nil_r. destruct (He key eq_refl).
Qed.

Lemma rot_next s0 : rotor_ok s0 -> hoare (rot s0) AnyOutcome next_api_key.
Proof.
  intros Hs c (Hk & n & Hn & Hc). split; [|exact I].
  pose proof (cursor_in_range _ Hs) as Hrange.
  assert (Hc' : current_key_index (svc c) =
                (current_key_index s0 + Z.of_nat n) mod pool_size s0) by exact Hc.
  assert (Hp : pool_size (svc c) = pool_size s0) by (unfold pool_size; rewrite Hk; reflexivity).
  assert (Hok : rotor_ok (svc c)).
  { destruct Hs as [Hne Hr]. split; [rewrite Hk; exact Hne|].
    rewrite Hc', Hp. apply Z.mod_pos_bound. lia. }
  rewrite run_next_api_key by exact Hok. cbn [snd].
  split; [exact Hk|]. exists (S n). split.
  - rewrite trace_logged, next_keys_app, cycle_from_S. cbn [rotated task].
    rewrite Hn. f_equal. cbn. f_equal. unfold key_at.
    rewrite Hk, Hp, Hc'. change (Z.of_nat 0) with 0. rewrite Z.add_0_r, Z.mod_mod by lia.
    reflexivity.
  - cbn. rewrite Hp, Hc'. unfold pool_size. rewrite Zplus_mod_idemp_l. f_equal. lia.
Qed.

Lemma rot_dispatch env um em conf cm subj s0 :
  rotor_ok s0 ->
  hoare (rot s0) AnyOutcome (create_empathetic_response env um em conf cm subj).
Proof.
  intros Hs.
  assert (Hcount : forall s t d a d' a',
    rot s0 {| svc := s; task := {| trace := t; draws := d; awaits := a |} |} ->
    rot s0 {| svc := s; task := {| trace := t; draws := d'; awaits := a' |} |})
    by (intros * H; exact H).
  assert (Hlog : forall m e c, body_event m e -> rot s0 c -> rot s0 (logged e c)).
  { intros m e c He. apply rot_log. intros k ->. exact He. }
  assert (Hlast : forall c mo k,
    rot s0 c -> rot s0 {| svc := set_last_used mo k (svc c); task := task c |})
    by (intros c mo k H; exact H).
  unfold create_empathetic_response.
  apply hoare_bind; [apply (inv_uniform _ Hcount)|intros d].
  apply hoare_bind; [apply (inv_asyncio_sleep _ EmptyString (Hlog _) Hcount)|intros _].
  apply hoare_bind; [apply hoare_gets|intros max].
  apply hoare_bind; [apply rot_next, Hs|intros key].
  apply hoare_bind.
  - apply hoare_bind; [apply hoare_gets|intros ms]. unfold choice.
    destruct (ms !! _); [|apply hoare_raise_any].
    apply hoare_bind; [|intros _; apply hoare_ret].
    intros c Hc. split; [|exact I]. apply rot_log; [discriminate|exact Hc].
  - intros m. apply hoare_bind.
    + apply (for_attempts_inv _ m (Hlog m) Hcount Hlast (rot_next s0 Hs)).
    + intros [text|]; apply hoare_ret.
Qed.

(** Claim C6.  On a non-empty pool with the cursor inside it, [n] calls of
    [get_next_api_key] return the pool repeated cyclically from the cursor
    and leave the cursor inside the pool, for every [n]; and in a dispatch,
    whatever the attempts come to (any HTTP outcome, any cancellation), the
    keys handed out are again the pool taken cyclically from the cursor,
    none skipped, with the pool itself unchanged. *)
Theorem rotation_is_cyclic (s : LLMService) (n : nat) :
  api_keys s <> [] ->
  0 <= current_key_index s < pool_size s ->
  (take_keys n s = (Ok (cycle_from s n), advance n s) /\
   0 <= current_key_index (advance n s) < pool_size (advance n s)) /\
  (forall env um em conf cm subj,
     let c' := snd (create_empathetic_response env um em conf cm subj (fresh s)) in
     api_keys (svc c') = api_keys s /\
     exists k, next_keys (trace (task c')) = cycle_from s k /\
               current_key_index (svc c') = current_key_index (advance k s)).
Proof.
  intros Hk Hc. assert (Hs : rotor_ok s) by (split; assumption). split.
  - split; [apply take_keys_ok, Hs|apply (advance_ok n s Hs)].
  - intros env um em conf cm subj c'. subst c'.
    apply (rot_dispatch env um em conf cm subj s Hs (fresh s) (rot_fresh s Hs)).
Qed.

(** *** One model per request *)

Lemma on_model_log m t0 e c :
  body_event m e -> on_model m t0 c -> on_model m t0 (logged e c).
Proof.
  intros He (evs & Ht & Hc & Hp). exists (app evs [e]).
  rewrite trace_logged, Ht, <- app_assoc, choices_app, posts_app, Hc.
  split; [reflexivity|]. split.
  - destruct e; try reflexivity. destruct He.
  - apply Forall_app. split; [exact Hp|].
    destruct e; try apply Forall_nil_2. cbn. apply Forall_cons. split; [exact He|constructor].
Qed.

Lemma on_model_next m t0 : hoare (on_model m t0) AnyOutcome next_api_key.
Proof.
  intros c (evs & Ht & Hc & Hp). split; [|exact I].
  unfold next_api_key, bind, on_svc, zoom.
  destruct (get_next_api_key (svc c)) as [[key|e|] s']; cbn [snd task trace].
  - exists (app evs [EvNextKey key]). cbn.
    rewrite Ht, <- app_assoc, choices_app, posts_app, Hc.
    split; [reflexivity|]. split; [reflexivity|]. cbn. rewrite app_nil_r. exact Hp.
  - exists evs. auto.
  - exists evs. auto.
Qed.

(** Claim C1, as amended.  On a service with a configured pool (a key, the
    cursor inside the pool, a model to choose), in a task that its caller
    does not cancel, [create_empathetic_response] returns a text whatever
    the HTTP call does on any attempt (any status, any body, a timeout, a
    connection failure, any other exception): no exception leaves the
    call, and the service is left fit for the next call. *)
Theorem dispatch_returns_text env um em conf cm subj c :
  service_ok (svc c) -> cancel_at env = None ->
  exists text c',
    create_empathetic_response env um em conf cm subj c = (Ok text, c') /\
    service_ok (svc c').
Proof.
  intros Hs Hnc.
  destruct (create_empathetic_response_returns env um em conf cm subj Hnc c Hs) as [Hok Hr].
  destruct (create_empathetic_response env um em conf cm subj c) as [[text|e|] c'];
    simpl in *; try contradiction.
  exists text, c'. auto.
Qed.

(** Claim C3, as amended.  A turn of the retry loop whose call ends with a
    status other than 200, 429 and 5xx takes no delay at all: when
    attempts remain the loop goes on at once (the next turn fetches the
    next key), otherwise the turn returns the generic fallback.  The state
    after the turn is the state after its call. *)
Theorem other_status_retries_at_once env um em conf msgs max m fk attempt c status body :
  rotor_ok (svc c) ->
  post env attempt (api_url (svc c)) (make_headers (turn_key fk attempt c))
    (make_payload m msgs) 30 = Response status body ->
  status <> 200 -> status <> 429 -> status < 500 ->
  let r := attempt_body env um em conf msgs max m fk attempt c in
  fst r = (if (attempt <? max - 1)%nat then Ok Continue
           else Ok (Return (_get_fallback_response em um))) /\
  snd r = posted m msgs fk attempt c /\
  sleeps (trace (task (snd r))) = sleeps (trace (task c)).
Proof.
  intros Hok Hpost H200 H429 H500 r. subst r.
  assert (Hsl : sleeps (trace (task (posted m msgs fk attempt c))) = sleeps (trace (task c))).
  { unfold posted, keyed. destruct (0 <? attempt)%nat;
      rewrite !trace_logged, !sleeps_app; cbn; rewrite ?app_nil_r; reflexivity. }
  destruct (Nat.ltb_spec attempt (max - 1)).
  - rewrite (turn_other_retry env um em conf msgs max m fk attempt c Hok status body Hpost)
      by assumption. auto.
  - rewrite (turn_other_last env um em conf msgs max m fk attempt c Hok status body Hpost)
      by (try assumption; lia). auto.
Qed.

Lemma run_bind_raise {S A B} (m : M S A) (k : A -> M S B) s e s' :
  m s = (Raise e, s') -> bind m k s = (Raise e, s').
Proof. intros H. unfold bind. rewrite H. reflexivity. Qed.

Lemma run_bind_suspended {S A B} (m : M S A) (k : A -> M S B) s s' :
  m s = (Suspended, s') -> bind m k s = (Suspended, s').
Proof. intros H. unfold bind. rewrite H. reflexivity. Qed.

Lemma asyncio_sleep_state env d c :
  snd (asyncio_sleep env d c) = awaited (logged (EvAsyncSleep d) c).
Proof.
  unfold asyncio_sleep, bind, log, gets, modify, logged. simpl.
  destruct (cancel_at env) as [k|]; [|reflexivity].
  destruct (k =? awaits (task c))%nat; reflexivity.
Qed.

Lemma next_api_key_state c :
  let r := next_api_key c in
  match fst r with
  | Ok key => trace (task (snd r)) = app (trace (task c)) [EvNextKey key]
  | _ => trace (task (snd r)) = trace (task c)
  end /\
  models (svc (snd r)) = models (svc c).
Proof.
  unfold next_api_key, bind, on_svc, zoom, get_next_api_key.
  destruct (api_keys (svc c)); [split; reflexivity|].
  destruct (getitem _ _); split; reflexivity.
Qed.

Ltac step_or_stop E :=
  first [ rewrite (run_bind _ _ _ _ _ E); cbv beta
        | rewrite (run_bind_raise _ _ _ _ _ E)
        | rewrite (run_bind_suspended _ _ _ _ E) ].

(** In the trace of a logical request, either no model was drawn and no
    call was sent (the request ended before the selection), or the model
    was drawn exactly once, before every call, and every call's payload
    carries that model. *)
Lemma model_drawn_before_calls env um em conf cm subj s :
  let tr := trace (task (snd (create_empathetic_response env um em conf cm subj (fresh s)))) in
  let m := selected_model env s in
  (choices tr = [] /\ posts tr = []) \/
  (exists pre rest,
     tr = app pre (EvChoice m :: rest) /\
     choices pre = [] /\ posts pre = [] /\
     choices rest = [] /\
     Forall (fun x : nat * Headers * Payload => model (snd x) = m) (posts rest)).
Proof.
  intros tr m. subst tr. unfold create_empathetic_response.
  rewrite (run_bind _ _ (fresh s) (initial_delay env (fresh s)) (drawn (fresh s)))
    by reflexivity.
  cbv beta.
  pose proof (asyncio_sleep_state env (initial_delay env (fresh s)) (drawn (fresh s))) as Hsl.
  destruct (asyncio_sleep env _ (drawn (fresh s))) as [[[]|e|] c1] eqn:E1;
    cbn [snd] in Hsl; subst c1; step_or_stop E1;
    [|left; split; reflexivity..].
  set (c1 := awaited _) in *.
  erewrite run_bind by reflexivity. cbv beta.
  pose proof (next_api_key_state c1) as [Hk Hmod].
  destruct (next_api_key c1) as [[key|e|] c2] eqn:E2; cbn [fst snd] in Hk, Hmod;
    step_or_stop E2;
    [|left; cbn [snd]; rewrite Hk; split; reflexivity..].
  assert (E3 : (ms <- gets (fun c => models (svc c)) ;; choice env ms) c2 =
               match models s !! (choice_index env mod length (models s))%nat with
               | Some x => (Ok x, logged (EvChoice x) c2)
               | None => (Raise IndexError, c2)
               end).
  { unfold bind at 1, gets, choice. rewrite Hmod. change (models (svc c1)) with (models s).
    destruct (models s !! _); reflexivity. }
  destruct (models s !! (choice_index env mod length (models s))%nat) as [m'|] eqn:Em;
    step_or_stop E3;
    [|left; cbn [snd]; rewrite Hk; split; reflexivity].
  assert (m' = m) as ->.
  { unfold m, selected_model. symmetry. apply nth_lookup_Some with (d := EmptyString) in Em.
    exact Em. }
  right.
  set (body := attempt_body _ _ _ _ _ _ _ _).
  set (c3 := logged (EvChoice m) c2).
  assert (Hloop : on_model m (trace (task c3))
                    (snd (for_attempts body (seq 0 (length (api_keys (svc c1)) * 2)) c3))).
  { apply (for_attempts_inv (on_model m (trace (task c3))) m).
    - intros e c. apply on_model_log.
    - intros * H. exact H.
    - intros c mo k H. exact H.
    - apply on_model_next.
    - exists []. rewrite app_nil_r. repeat split. constructor. }
  match goal with
  | |- context [bind ?f ?k c3] =>
      assert (Hend : snd (bind f k c3) = snd (f c3))
        by (unfold bind; destruct (f c3) as [[[text|]|e|] c4]; reflexivity)
  end.
  rewrite Hend. destruct Hloop as (evs & Ht & Hc & Hp). rewrite Ht.
  unfold c3. rewrite trace_logged, Hk.
  exists [EvAsyncSleep (initial_delay env (fresh s)); EvNextKey key], evs.
  split; [rewrite <- app_assoc; reflexivity|]. auto.
Qed.

End DispatchFacts.

(** * The quota tracker *)

Section QuotaFacts.
Import Limiter Quota.

Lemma Qltb_false_iff x y : Qltb x y = false <-> (y <= x)%Q.
Proof.
  unfold Qltb. rewrite negb_false_iff. apply Qle_bool_iff.
Qed.

Lemma popleft_older_keeps cutoff d :
  Forall (fun t => (cutoff <= t)%Q) d -> popleft_older cutoff d = d.
Proof.
  intros H. destruct H as [|t d Ht _]; [reflexivity|].
  simpl. apply Qltb_false_iff in Ht. rewrite Ht. reflexivity.
Qed.

Lemma window_set user_id d self :
  window user_id (set_user_prompts (<[user_id := d]> (user_prompts self)) self) = d.
Proof. unfold window. simpl. rewrite lookup_insert_eq. reflexivity. Qed.

Lemma window_cleanup now user_id self :
  window user_id (_cleanup_old_prompts now user_id self) =
  popleft_older (now - reset_seconds self)%Q (window user_id self).
Proof. unfold _cleanup_old_prompts. rewrite window_set. reflexivity. Qed.

(** A check that finds nothing to evict. *)
Lemma check_in_window now user_id self t0 :
  Forall (fun t => (t0 <= t)%Q) (window user_id self) ->
  (now <= t0 + reset_seconds self)%Q ->
  let used := Z.of_nat (length (window user_id self)) in
  let r := can_user_make_prompt true now user_id self in
  fst r = (used <? max_prompts_per_user self, used,
           Z.max 0 (max_prompts_per_user self - used)) /\
  window user_id (snd r) = window user_id self /\
  max_prompts_per_user (snd r) = max_prompts_per_user self /\
  reset_hours (snd r) = reset_hours self.
Proof.
  intros Hw Hnow used r. subst used r. unfold can_user_make_prompt. cbn [negb fst snd].
  assert (E : window user_id (_cleanup_old_prompts now user_id self) = window user_id self).
  { rewrite window_cleanup. apply popleft_older_keeps.
    eapply Forall_impl; [exact Hw|]. cbv beta. intros t Ht. lra. }
  rewrite E. auto.
Qed.

Lemma record_in_window now stamp user_id self t0 :
  Forall (fun t => (t0 <= t)%Q) (window user_id self) ->
  (now <= t0 + reset_seconds self)%Q ->
  Z.of_nat (length (window user_id self)) < max_prompts_per_user self ->
  let r := record_prompt true now stamp user_id self in
  fst r = true /\
  window user_id (snd r) = app (window user_id self) [stamp] /\
  max_prompts_per_user (snd r) = max_prompts_per_user self /\
  reset_hours (snd r) = reset_hours self.
Proof.
  intros Hw Hnow Hlt r. subst r. unfold record_prompt.
  destruct (check_in_window now user_id self t0 Hw Hnow) as (Hr & Hwin & Hmax & Hres).
  destruct (can_user_make_prompt true now user_id self) as [[[can used] remaining] self'].
  cbn [fst snd] in *. injection Hr as -> -> ->.
  destruct (Z.ltb_spec (Z.of_nat (length (window user_id self))) (max_prompts_per_user self));
    [|lia].
  cbn [negb fst snd]. rewrite window_set, Hwin. auto.
Qed.

Lemma check_then_record_in_window t0 user_id times : forall self,
  Forall (fun t => (t0 <= t)%Q) (window user_id self) ->
  Forall (round_in_window self t0) times ->
  Z.of_nat (length (window user_id self) + length times) = max_prompts_per_user self ->
  let k := length (window user_id self) in
  let r := check_then_record true times user_id self in
  fst r = map (fun i => ((true, Z.of_nat i, max_prompts_per_user self - Z.of_nat i), true))
              (seq k (length times)) /\
  Forall (fun t => (t0 <= t)%Q) (window user_id (snd r)) /\
  Z.of_nat (length (window user_id (snd r))) = max_prompts_per_user self /\
  max_prompts_per_user (snd r) = max_prompts_per_user self /\
  reset_hours (snd r) = reset_hours self.
Proof.
  induction times as [|[[a b] stamp] times IH]; intros self Hw Ht Hlen k r; subst k r.
  - simpl in *. rewrite Nat.add_0_r in Hlen. auto.
  - apply Forall_cons in Ht as [(Ha & Hb & Hc) Ht]. cbn [fst snd] in Ha, Hb, Hc.
    cbn [check_then_record].
    destruct (check_in_window a user_id self t0 Hw (proj2 Ha)) as (Hr1 & Hw1 & Hm1 & Hh1).
    destruct (can_user_make_prompt true a user_id self) as [checked self1].
    cbn [fst snd] in *.
    assert (Hb' : (b <= t0 + reset_seconds self1)%Q).
    { unfold reset_seconds in *. rewrite Hh1. exact (proj2 Hb). }
    assert (Hw' : Forall (fun t => (t0 <= t)%Q) (window user_id self1))
      by (rewrite Hw1; exact Hw).
    destruct (record_in_window b stamp user_id self1 t0 Hw' Hb'
                ltac:(rewrite Hw1, Hm1; simpl in Hlen; lia)) as (Hr2 & Hw2 & Hm2 & Hh2).
    destruct (record_prompt true b stamp user_id self1) as [recorded self2].
    cbn [fst snd] in *.
    specialize (IH self2).
    destruct IH as (Hr3 & Hw3 & Hl3 & Hm3 & Hh3).
    + rewrite Hw2, Hw1. apply Forall_app. split; [exact Hw|].
      apply Forall_cons. split; [exact (proj1 Hc)|constructor].
    + eapply Forall_impl; [exact Ht|]. intros [[x y] z]. unfold round_in_window, in_window,
        reset_seconds. rewrite Hh2, Hh1. auto.
    + rewrite Hw2, Hw1, length_app, Hm2, Hm1. simpl in *. lia.
    + destruct (check_then_record true times user_id self2) as [results self3].
      cbn [fst snd] in *. rewrite Hr1, Hr2, Hr3.
      rewrite Hw2, Hw1, length_app, Hm2, Hm1 in *. cbn [length] in *.
      split; [|rewrite Hh3, Hh2, Hh1; auto].
      cbn [seq map].
      replace (length (window user_id self) + 1)%nat
        with (S (length (window user_id self))) by lia.
      f_equal. f_equal. f_equal; [f_equal|].
      * destruct (Z.ltb_spec (Z.of_nat (length (window user_id self)))
                    (max_prompts_per_user self)); [reflexivity|lia].
      * lia.
Qed.

(** Claim C8.  With enforcement on, an identity with no history has used 0
    at once; and when [max_prompts_per_user] rounds of check-then-record
    and one more check all read the clock within one reset window, round
    [i] is allowed with [i] used and recorded with [True], and the last
    check answers (False, max, 0). *)
Theorem quota_exhausted_after_max self user_id times t0 t_last :
  window user_id self = [] ->
  max_prompts_per_user self = Z.of_nat (length times) ->
  Forall (round_in_window self t0) times ->
  in_window self t0 t_last ->
  let max := max_prompts_per_user self in
  let r := check_then_record true times user_id self in
  (forall now, snd (fst (fst (can_user_make_prompt true now user_id self))) = 0) /\
  fst r = map (fun i => ((true, Z.of_nat i, max - Z.of_nat i), true))
              (seq 0 (length times)) /\
  fst (can_user_make_prompt true t_last user_id (snd r)) = (false, max, 0).
Proof.
  intros Hempty Hmax Hrounds Hlast max r. subst max r. split.
  - intros now. unfold can_user_make_prompt. cbn [negb fst snd].
    rewrite window_cleanup, Hempty. reflexivity.
  - destruct (check_then_record_in_window t0 user_id times self) as (Hr & Hw & Hl & Hm & Hh).
    + rewrite Hempty. constructor.
    + exact Hrounds.
    + rewrite Hempty, Hmax. reflexivity.
    + rewrite Hempty in Hr. split; [exact Hr|].
      destruct (check_in_window t_last user_id (snd (check_then_record true times user_id self))
                  t0 Hw) as (Hc & _).
      * unfold reset_seconds. rewrite Hh. exact (proj2 Hlast).
      * rewrite Hc, Hl, Hm, Z.ltb_irrefl, Z.sub_diag. reflexivity.
Qed.

Lemma record_disabled now stamp user_id self :
  record_prompt false now stamp user_id self =
  (true,
   set_user_prompts
     (<[user_id := app (window user_id self) [stamp]]> (user_prompts self)) self).
Proof. reflexivity. Qed.

Lemma record_each_disabled user_id times : forall self,
  let self' := snd (record_each false times user_id self) in
  fst (record_each false times user_id self) = map (fun _ => true) times /\
  window user_id self' = app (window user_id self) (map snd times) /\
  max_prompts_per_user self' = max_prompts_per_user self /\
  reset_hours self' = reset_hours self.
Proof.
  induction times as [|[now stamp] times IH]; intros self self'; subst self'.
  - simpl. rewrite app_nil_r. auto.
  - cbn [record_each]. rewrite record_disabled.
    specialize (IH (set_user_prompts
                      (<[user_id := app (window user_id self) [stamp]]> (user_prompts self))
                      self)).
    destruct (record_each false times user_id _) as [results self2].
    cbn [fst snd] in *. destruct IH as (Hr & Hw & Hm & Hh).
    rewrite Hr, Hw, Hm, Hh, window_set, <- app_assoc. auto.
Qed.

(** Claim C10.  With enforcement off, a check answers (True, 0, max) and
    changes nothing, while a record still appends its time stamp and
    answers [True]; so after any number of such records, a check with
    enforcement on, made while those time stamps are within the reset
    window, counts every one of them against the limit. *)
Theorem disabled_quota_still_accrues self user_id times now :
  let self' := snd (record_each false times user_id self) in
  let used := Z.of_nat (length (window user_id self')) in
  Forall (fun t => (now - reset_seconds self <= t)%Q) (window user_id self') ->
  (forall t, can_user_make_prompt false t user_id self =
             ((true, 0, max_prompts_per_user self), self)) /\
  (forall t stamp,
     fst (record_prompt false t stamp user_id self) = true /\
     window user_id (snd (record_prompt false t stamp user_id self)) =
       app (window user_id self) [stamp]) /\
  fst (record_each false times user_id self) = map (fun _ => true) times /\
  window user_id self' = app (window user_id self) (map snd times) /\
  fst (can_user_make_prompt true now user_id self') =
    (used <? max_prompts_per_user self, used,
     Z.max 0 (max_prompts_per_user self - used)).
Proof.
  intros self' used Hw. subst used.
  destruct (record_each_disabled user_id times self) as (Hr & Hwin & Hm & Hh).
  fold self' in Hwin, Hm, Hh.
  split; [reflexivity|]. split.
  - intros t stamp. rewrite record_disabled. cbn [fst snd]. rewrite window_set. auto.
  - split; [exact Hr|]. split; [exact Hwin|].
    destruct (check_in_window now user_id self' (now - reset_seconds self)%Q Hw) as (Hc & _).
    + unfold reset_seconds. rewrite Hh. lra.
    + rewrite Hc, Hm. reflexivity.
Qed.


End QuotaFacts.

(** * The admission gate *)

Section GateFacts.
Import Queue Handler.

(** Claim C9, as amended.  A call of [add_request] that finds a free permit
    adds one to [total_requests]; it hands on the result of the wrapped
    coroutine, or its exception; an exception derived from [Exception]
    adds one to [failed_requests], any other (a cancellation) adds none.
    [get_stats] returns the entries mode, total_requests, failed_requests,
    success_rate, message and timestamp. *)
Theorem add_request_counts {W A : Type} (request_func : M W A) (q : SimpleStatsTracker)
    (w : W) (now_iso : string) :
  (0 < _semaphore q)%nat ->
  let r := add_request request_func (q, w) in
  let inner := request_func w in
  (forall a, fst inner = Ok a ->
     r = (Ok a, (counted q 0, snd inner))) /\
  (forall e, fst inner = Raise e -> isinstance_Exception e = true ->
     r = (Raise e, (counted q 1, snd inner))) /\
  (forall e, fst inner = Raise e -> isinstance_Exception e = false ->
     r = (Raise e, (counted q 0, snd inner))) /\
  total_requests (fst (snd r)) = total_requests q + 1 /\
  keys (get_stats now_iso q) =
    ["mode"; "total_requests"; "failed_requests"; "success_rate"; "message"; "timestamp"].
Proof.
  intros Hfree r inner. subst r inner.
  unfold add_request, bind, acquire, try_finally, try_except, zoom, release, count_request,
    count_failure, on_tracker, modify, raise, ret, counted.
  cbn [fst snd]. destruct (_semaphore q) as [|free] eqn:Hsem; [lia|].
  cbn [fst snd]. destruct (request_func w) as [[a|e|] w']; cbn [fst snd].
  - repeat split; intros; try discriminate; try congruence.
    + injection H as ->. rewrite Z.add_0_r. reflexivity.
  - destruct (isinstance_Exception e) eqn:He; cbn [fst snd];
      repeat split; intros; try discriminate; try congruence.
    + injection H as ->. reflexivity.
    + injection H as ->. rewrite Z.add_0_r. reflexivity.
  - repeat split; intros; try discriminate.
Qed.

End GateFacts.

(** * The route *)

Section RouteFacts.
Import Service Run Quota Handler Chat.

(** *** What the handler keeps true *)

Lemma popleft_older_suffix cutoff d : Limiter.popleft_older cutoff d `suffix_of` d.
Proof.
  induction d as [|t d IH]; simpl; [reflexivity|].
  destruct (Qltb t cutoff); [|reflexivity].
  apply suffix_cons_r. exact IH.
Qed.

(** One pure check: the window shrinks at most, the bound stays. *)
Lemma check_shrinks enabled now user_id l :
  let r := Limiter.can_user_make_prompt enabled now user_id l in
  Limiter.max_prompts_per_user (snd r) = Limiter.max_prompts_per_user l /\
  Limiter.window user_id (snd r) `suffix_of` Limiter.window user_id l /\
  (enabled = true ->
   allowed (fst r) =
   (Z.of_nat (length (Limiter.window user_id (snd r))) <? Limiter.max_prompts_per_user l)) /\
  (enabled = false -> allowed (fst r) = true).
Proof.
  unfold Limiter.can_user_make_prompt. destruct enabled; cbn [negb fst snd allowed].
  - rewrite window_cleanup. split; [reflexivity|]. split; [apply popleft_older_suffix|].
    split; [reflexivity|discriminate].
  - split; [reflexivity|]. split; [reflexivity|]. split; [discriminate|reflexivity].
Qed.

Lemma suffix_length_le {A} (l1 l2 : list A) : l1 `suffix_of` l2 -> (length l1 <= length l2)%nat.
Proof. intros [k ->]. rewrite length_app. lia. Qed.

Section Handler.
Variables (env : Env) (user_id : string) (l0 : Limiter.UserPromptLimiter).

Lemma first_check w :
  service_ok (llm_service w) -> user_limiter w = l0 ->
  exists r w',
    can_user_make_prompt env user_id w = (Ok r, w') /\
    allowed r =
      allowed (fst (Limiter.can_user_make_prompt (PROMPT_LIMIT_ENABLED w)
                      (time_time env (clock_reads w)) user_id l0)) /\
    conversation_service w' = conversation_service w /\
    (allowed r = true -> serving user_id l0 true w').
Proof.
  intros Hs Hl. unfold can_user_make_prompt, bind, gets, read_clock, ret.
  destruct (PROMPT_LIMIT_ENABLED w) eqn:He; cbn [fst snd user_limiter]; rewrite Hl.
  - pose proof (check_shrinks true (time_time env (clock_reads w)) user_id l0)
      as (Hm & Hsuf & Hal & _).
    destruct (Limiter.can_user_make_prompt true _ user_id l0) as [r l1].
    cbn [fst snd] in *. eexists _, _. split; [reflexivity|]. split; [reflexivity|].
    split; [reflexivity|]. intros Hr. split; [exact Hs|].
    split; [exact Hm|]. split; [exact Hsuf|]. intros _ _.
    rewrite (Hal eq_refl) in Hr. apply Z.ltb_lt in Hr. exact Hr.
  - cbn. eexists _, _. split; [reflexivity|]. split; [reflexivity|].
    split; [reflexivity|]. intros _. split; [exact Hs|].
    split; [reflexivity|]. split; [reflexivity|]. cbn. rewrite He. discriminate.
Qed.

Lemma later_check conversation_id :
  returns (fun w => serving user_id l0 true w /\ has_conversation user_id conversation_id w)
    (can_user_make_prompt env user_id)
    (fun r w => allowed r = true /\ serving user_id l0 true w /\
                has_conversation user_id conversation_id w).
Proof.
  intros w [[Hs (Hm & Hsuf & Hroom)] Hc].
  unfold can_user_make_prompt, bind, gets, read_clock, ret.
  destruct (PROMPT_LIMIT_ENABLED w) eqn:He; cbn [fst snd user_limiter].
  - pose proof (check_shrinks true (time_time env (clock_reads w)) user_id (user_limiter w))
      as (Hm' & Hsuf' & Hal & _).
    destruct (Limiter.can_user_make_prompt true _ user_id (user_limiter w)) as [r l1].
    cbn [fst snd] in *. eexists _, _. split; [reflexivity|].
    specialize (Hroom eq_refl eq_refl). pose proof (suffix_length_le _ _ Hsuf').
    assert (Hlt : Z.of_nat (length (Limiter.window user_id l1))
                  < Limiter.max_prompts_per_user l0) by lia.
    split; [|split; [split; [exact Hs|]|exact Hc]].
    + rewrite (Hal eq_refl), Hm. apply Z.ltb_lt. exact Hlt.
    + split; [cbn; congruence|]. split; [cbn; etransitivity; eassumption|].
      intros _ _. exact Hlt.
  - cbn. eexists _, _. split; [reflexivity|]. split; [reflexivity|].
    split; [split; [exact Hs|]|exact Hc].
    split; [exact Hm|]. split; [exact Hsuf|]. cbn. rewrite He. discriminate.
Qed.

End Handler.

Section Served.
Variables (env : Env) (user_id : string) (l0 : Limiter.UserPromptLimiter).

Lemma get_conversation_found cid :
  returns (in_service user_id l0 cid) (get_conversation cid user_id)
    (fun r w => is_Some r /\ in_service user_id l0 cid w).
Proof. apply returns_gets. intros w Hw. split; [apply Hw|exact Hw]. Qed.

Lemma new_ChatMessage_keeps cid content sender emotion confidence :
  returns (in_service user_id l0 cid) (new_ChatMessage env content sender emotion confidence)
    (fun _ w => in_service user_id l0 cid w).
Proof. intros w Hw. eexists _, _. split; [reflexivity|exact Hw]. Qed.

Lemma add_message_keeps cid cid' message :
  returns (in_service user_id l0 cid) (add_message_to_conversation env cid' user_id message)
    (fun _ w => in_service user_id l0 cid w).
Proof.
  intros w [Hs Hc]. unfold add_message_to_conversation,
    Conversations.add_message_to_conversation.
  destruct (Conversations.get_conversation cid' user_id (conversation_service w));
    eexists _, _; (split; [reflexivity|]); (split; [exact Hs|]); [|exact Hc].
  unfold has_conversation, Conversations.get_conversation, Conversations._save_conversation
    in *. cbn. apply lookup_insert_is_Some'. right. exact Hc.
Qed.

Lemma create_conversation_gives :
  returns (serving user_id l0 true) (create_conversation env user_id)
    (fun c w => in_service user_id l0 (Conversations.id c) w).
Proof.
  intros w Hs. eexists _, _. split; [reflexivity|]. split; [exact Hs|].
  unfold has_conversation, Conversations.get_conversation. cbn.
  rewrite lookup_insert_eq. eexists. reflexivity.
Qed.

(** The dispatch, wrapped as the handler wraps it, always hands back a
    text and leaves the conversations alone; the limiter is then what the
    other handlers made of it. *)
Lemma dispatch_served cid message emotion confidence context_messages conversation :
  returns (in_service user_id l0 cid)
    (try_except
       (await env
          (wait_for
             (queued
                (generate_response env message emotion confidence context_messages
                   conversation))))
       (fun e => match e with
                 | TimeoutError => Some (ret timeout_apology)
                 | _ => None
                 end))
    (fun _ w => exists l, back_from_dispatch env user_id l0 l cid w).
Proof.
  intros w [[Hs Hq] Hc].
  assert (Hback : forall w', user_limiter w' = user_limiter w ->
            PROMPT_LIMIT_ENABLED w' = PROMPT_LIMIT_ENABLED w ->
            conversation_service w' = conversation_service w ->
            exists l, back_from_dispatch env user_id l0 l cid
                        (set_user_limiter (interleaved env (user_limiter w')) w')).
  { intros w' Hl He Hcs. exists (user_limiter w). split; [cbn; rewrite Hl; reflexivity|].
    split.
    - destruct Hq as (Hm & Hsuf & Hroom). cbn [PROMPT_LIMIT_ENABLED set_user_limiter].
      rewrite He. split; [exact Hm|]. split; [exact Hsuf|]. intros E. apply Hroom; auto.
    - unfold has_conversation in *. cbn [conversation_service set_user_limiter].
      rewrite Hcs. exact Hc. }
  unfold try_except, await, wait_for, queued, zoom, Queue.add_request, bind, Queue.acquire,
    try_finally, try_except, Queue.release, Queue.count_request, Queue.count_failure,
    Queue.on_tracker, modify, raise, ret, generate_response, zoom.
  cbn [fst snd]. destruct (Queue._semaphore (request_queue w)) as [|free].
  { eexists _, _. split; [reflexivity|]. apply Hback; reflexivity. }
  cbn [fst snd llm_service task set_llm set_request_queue].
  destruct (create_empathetic_response_cancellable (llm_env env) (content message) emotion
              confidence (Some context_messages) (Conversations.subject conversation)
              {| LLM.svc := llm_service w; LLM.task := task w |} Hs) as [Hok Hr].
  destruct (LLM.create_empathetic_response _ _ _ _ _ _ _) as [[text|e|] c'];
    cbn [fst snd meets] in *; try contradiction.
  - eexists _, _. split; [reflexivity|]. apply Hback; reflexivity.
  - subst e. cbn [fst snd]. eexists _, _. split; [reflexivity|]. apply Hback; reflexivity.
Qed.

Lemma new_ChatMessage_back l cid content sender emotion confidence :
  returns (back_from_dispatch env user_id l0 l cid)
    (new_ChatMessage env content sender emotion confidence)
    (fun _ w => back_from_dispatch env user_id l0 l cid w).
Proof. intros w Hw. eexists _, _. split; [reflexivity|exact Hw]. Qed.

Lemma add_message_back l cid cid' message :
  returns (back_from_dispatch env user_id l0 l cid)
    (add_message_to_conversation env cid' user_id message)
    (fun _ w => back_from_dispatch env user_id l0 l cid w).
Proof.
  intros w (Hl & Hroom & Hc). unfold add_message_to_conversation,
    Conversations.add_message_to_conversation.
  destruct (Conversations.get_conversation cid' user_id (conversation_service w));
    eexists _, _; (split; [reflexivity|]); (split; [exact Hl|]); (split; [exact Hroom|]);
    [|exact Hc].
  unfold has_conversation, Conversations.get_conversation, Conversations._save_conversation
    in *. cbn. apply lookup_insert_is_Some'. right. exact Hc.
Qed.

(** The record runs on the limiter it finds. *)
Lemma record_runs l cid :
  returns (back_from_dispatch env user_id l0 l cid)
    (record_prompt env user_id)
    (fun _ w =>
       has_room (PROMPT_LIMIT_ENABLED w) user_id l0 l /\
       exists now stamp,
         user_limiter w =
           snd (Limiter.record_prompt (PROMPT_LIMIT_ENABLED w) now stamp user_id
                  (interleaved env l))).
Proof.
  intros w (Hl & Hroom & _).
  unfold record_prompt, bind, gets, read_clock, ret.
  destruct (PROMPT_LIMIT_ENABLED w) eqn:He; cbn [fst snd user_limiter]; rewrite Hl.
  - destruct (fst (fst (fst (Limiter.can_user_make_prompt true _ user_id _))));
      cbn [fst snd user_limiter];
      match goal with
      | |- context [Limiter.record_prompt true ?now ?stamp user_id ?l1] =>
          destruct (Limiter.record_prompt true now stamp user_id l1) as [r l2] eqn:E
      end;
      eexists _, _; (split; [reflexivity|]);
      cbn [PROMPT_LIMIT_ENABLED user_limiter set_user_limiter];
      (split; [rewrite He; exact Hroom|]); eexists _, _; rewrite He, E; reflexivity.
  - destruct (fst (fst (fst (Limiter.can_user_make_prompt false _ user_id _))));
      cbn [fst snd user_limiter]; rewrite ?Hl;
      match goal with
      | |- context [Limiter.record_prompt false ?now ?stamp user_id ?l1] =>
          destruct (Limiter.record_prompt false now stamp user_id l1) as [r l2] eqn:E
      end;
      eexists _, _; (split; [reflexivity|]);
      cbn [PROMPT_LIMIT_ENABLED user_limiter set_user_limiter];
      (split; [rewrite He; exact Hroom|]); eexists _, _; rewrite He, E; reflexivity.
Qed.
End Served.

(** A record on a limiter with room in the window adds its stamp. *)
Lemma record_with_room enabled now stamp user_id l0 l l' :
  has_room enabled user_id l0 l ->
  Limiter.max_prompts_per_user l' = Limiter.max_prompts_per_user l ->
  Limiter.window user_id l' = Limiter.window user_id l ->
  exists kept,
    Limiter.window user_id (snd (Limiter.record_prompt enabled now stamp user_id l')) =
      app kept [stamp] /\
    kept `suffix_of` Limiter.window user_id l0.
Proof.
  intros (Hm & Hsuf & Hroom) Hm' Hw. unfold Limiter.record_prompt.
  pose proof (check_shrinks enabled now user_id l') as (Hmax & Hkept & Hon & Hoff).
  destruct (Limiter.can_user_make_prompt enabled now user_id l')
    as [[[can used] remaining] l1].
  cbn [fst snd allowed] in *.
  assert (can = true) as ->.
  { destruct enabled; [|apply Hoff; reflexivity].
    rewrite (Hon eq_refl). apply Z.ltb_lt.
    pose proof (suffix_length_le _ _ Hkept) as Hlen. rewrite Hw in Hlen.
    specialize (Hroom eq_refl). lia. }
  cbn [negb snd]. rewrite window_set. eexists. split; [reflexivity|].
  rewrite Hw in Hkept. etransitivity; eassumption.
Qed.

Lemma returns_switch {A} (enabled : bool) (P : World -> Prop) (m : M World A) Q :
  keeps_switch m -> returns P m Q ->
  returns (fun w => PROMPT_LIMIT_ENABLED w = enabled /\ P w) m
    (fun a w => PROMPT_LIMIT_ENABLED w = enabled /\ Q a w).
Proof.
  intros K H w [He HP]. destruct (H w HP) as (a & w' & E & HQ).
  exists a, w'. split; [exact E|]. split; [|exact HQ]. rewrite (K _ _ _ E). exact He.
Qed.

Lemma check_keeps_switch env user_id : keeps_switch (can_user_make_prompt env user_id).
Proof.
  intros w a w'. unfold can_user_make_prompt, bind, gets, read_clock, ret.
  destruct (PROMPT_LIMIT_ENABLED w) eqn:He; cbn [fst snd];
    destruct (Limiter.can_user_make_prompt _ _ _ _) as [r0 l1];
    intros [= <- <-]; cbn; rewrite ?He; reflexivity.
Qed.

Lemma get_keeps_switch cid user_id : keeps_switch (get_conversation cid user_id).
Proof. intros w a w' [= <- <-]. reflexivity. Qed.

Lemma create_keeps_switch env user_id : keeps_switch (create_conversation env user_id).
Proof. intros w a w' [= <- <-]. reflexivity. Qed.

Lemma new_keeps_switch env content sender emotion confidence :
  keeps_switch (new_ChatMessage env content sender emotion confidence).
Proof. intros w a w' [= <- <-]. reflexivity. Qed.

Lemma add_keeps_switch env cid user_id message :
  keeps_switch (add_message_to_conversation env cid user_id message).
Proof.
  intros w a w'. unfold add_message_to_conversation.
  destruct (Conversations.add_message_to_conversation _ _ _ _ _) as [r s].
  intros [= <- <-]. reflexivity.
Qed.

Lemma record_keeps_switch env user_id : keeps_switch (record_prompt env user_id).
Proof.
  intros w a w'. unfold record_prompt, bind, gets, read_clock, ret.
  destruct (PROMPT_LIMIT_ENABLED w) eqn:He; cbn [fst snd user_limiter];
    repeat match goal with
      | |- context [if ?b then _ else _] => destruct b; cbn [fst snd user_limiter]
      | |- context [let (_, _) := ?x in _] => destruct x; cbn [fst snd user_limiter]
      end;
    intros [= <- <-]; cbn; rewrite ?He; reflexivity.
Qed.

Lemma dispatch_keeps_switch env message emotion confidence context_messages conversation :
  keeps_switch
    (try_except
       (await env
          (wait_for
             (queued
                (generate_response env message emotion confidence context_messages
                   conversation))))
       (fun e => match e with
                 | TimeoutError => Some (ret timeout_apology)
                 | _ => None
                 end)).
Proof.
  intros w a w'.
  unfold try_except, await, wait_for, queued, zoom, Queue.add_request, bind, Queue.acquire,
    try_finally, try_except, Queue.release, Queue.count_request, Queue.count_failure,
    Queue.on_tracker, modify, raise, ret, generate_response, zoom.
  cbn [fst snd]. destruct (Queue._semaphore (request_queue w)) as [|free].
  { intros [= <- <-]. reflexivity. }
  cbn [fst snd llm_service task set_llm set_request_queue].
  destruct (LLM.create_empathetic_response _ _ _ _ _ _ _) as [[text|e|] c'];
    cbn [fst snd]; [| |intros [= <- <-]; reflexivity].
  - intros [= <- <-]. reflexivity.
  - destruct (isinstance_Exception e); cbn [fst snd]; destruct e; cbn [fst snd];
      try discriminate; intros [= <- <-]; reflexivity.
Qed.

(** Claim C2, as amended.  A request that passes the quota check, on a
    service with a configured pool and in a store that is a directory tree
    (the identity names a directory, the id a file), is answered, and
    [record_prompt] runs for it once, whatever its dispatch came to: a
    live answer, a fallback, or the apology put in when the end-to-end
    deadline fires.  The record runs on the limiter as the handlers of
    other requests left it during the dispatch, [interleaved env l], where
    [l] is the limiter in which this request had room at its second check.
    When the others left the window of the identity alone, the window is
    afterwards what was left of the old window with exactly one new time
    stamp at its end; when they filled it, the record adds nothing and the
    handler does not look at what it returns. *)
Theorem served_request_is_recorded env conversation_id request message w :
  let user_id := Limiter.get_user_id_from_request request in
  service_ok (llm_service w) ->
  Tree.names_directory user_id -> Tree.names_file conversation_id -> Tree.tree_like env w ->
  allowed (fst (Limiter.can_user_make_prompt (PROMPT_LIMIT_ENABLED w)
                  (time_time env (clock_reads w)) user_id (user_limiter w))) = true ->
  exists response w' l now stamp,
    send_message env conversation_id request message w = (Ok response, w') /\
    has_room (PROMPT_LIMIT_ENABLED w) user_id (user_limiter w) l /\
    user_limiter w' =
      snd (Limiter.record_prompt (PROMPT_LIMIT_ENABLED w) now stamp user_id
             (interleaved env l)) /\
    (Limiter.window user_id (interleaved env l) = Limiter.window user_id l ->
     exists kept,
       Limiter.window user_id (user_limiter w') = app kept [stamp] /\
       kept `suffix_of` Limiter.window user_id (user_limiter w)).
Proof.
  intros user_id Hs _ _ _ Hfirst.
  set (l0 := user_limiter w). set (enabled := PROMPT_LIMIT_ENABLED w).
  set (Post := fun (_ : ChatResponse) (w' : World) =>
                 exists l now stamp,
                   has_room enabled user_id l0 l /\
                   user_limiter w' =
                     snd (Limiter.record_prompt enabled now stamp user_id
                            (interleaved env l))).
  assert (H : returns (fun w0 => w0 = w)
                (send_message env conversation_id request message) Post).
  { unfold send_message. fold user_id. apply returns_try.
    eapply returns_bind with
      (Q := fun r w' => PROMPT_LIMIT_ENABLED w' = enabled /\
                        allowed r = true /\ serving user_id l0 true w' /\
                        conversation_service w' = conversation_service w).
    { intros w0 ->.
      destruct (first_check env user_id l0 w Hs eq_refl) as (r & w' & E & Ha & Hc & Hserv).
      exists r, w'. rewrite Ha in Hserv |- *.
      split; [exact E|]. split; [apply (check_keeps_switch _ _ _ _ _ E)|].
      split; [exact Hfirst|]. split; [apply Hserv, Hfirst|exact Hc]. }
    intros [[can used] remaining]. apply returns_pure_snd. cbn [allowed fst]. intros ->.
    cbn [negb].
    eapply returns_bind with
      (Q := fun r w' => PROMPT_LIMIT_ENABLED w' = enabled /\
                        r = Conversations.get_conversation conversation_id user_id
                              (conversation_service w') /\ serving user_id l0 true w').
    { apply returns_gets. intros w0 (He & Hserv & Hc). auto. }
    intros conversation.
    eapply returns_bind with
      (Q := fun found w' => PROMPT_LIMIT_ENABLED w' = enabled /\
                            in_service user_id l0 (snd found) w').
    { destruct conversation as [c|].
      - apply returns_ret. intros w0 (He & Hc & Hserv). split; [exact He|].
        split; [exact Hserv|].
        unfold has_conversation. cbn [snd]. rewrite <- Hc. eexists. reflexivity.
      - eapply returns_pre with
          (P' := fun w0 => PROMPT_LIMIT_ENABLED w0 = enabled /\ serving user_id l0 true w0);
          [intros w0 (He & _ & Hw); auto|].
        eapply returns_bind;
          [apply returns_switch; [apply create_keeps_switch|apply create_conversation_gives]|].
        intros c. apply returns_ret. intros w0 Hw. exact Hw. }
    intros [[c warning] cid]. cbn [snd].
    eapply returns_bind;
      [apply returns_switch; [apply new_keeps_switch|apply new_ChatMessage_keeps]|].
    intros user_message.
    eapply returns_bind;
      [apply returns_switch; [apply add_keeps_switch|apply add_message_keeps]|].
    intros ?.
    apply returns_try.
    eapply returns_bind;
      [apply returns_switch;
         [apply check_keeps_switch
         |eapply returns_pre; [|apply (later_check env user_id l0 cid)];
          intros w0 Hw; exact Hw]|].
    intros [[can2 used2] remaining2]. apply returns_pure_snd. cbn [allowed fst]. intros ->.
    cbn [negb].
    eapply returns_bind;
      [apply returns_switch; [apply get_keeps_switch|apply get_conversation_found]|].
    intros conv2. apply returns_pure_snd. intros [c2 ->].
    eapply returns_bind;
      [apply returns_switch; [apply new_keeps_switch|apply new_ChatMessage_keeps]|].
    intros user_message2.
    eapply returns_bind;
      [apply returns_switch; [apply add_keeps_switch|apply add_message_keeps]|].
    intros ?.
    destruct (classify_emotion env (content message)) as [emotion confidence].
    eapply returns_bind;
      [apply returns_switch; [apply get_keeps_switch|apply get_conversation_found]|].
    intros conv3. apply returns_pure_snd. intros [c3 ->].
    eapply returns_bind;
      [apply returns_switch; [apply dispatch_keeps_switch|apply dispatch_served]|].
    intros ai_content. apply returns_ex_snd. intros l.
    eapply returns_bind;
      [apply (returns_switch enabled); [apply new_keeps_switch|apply new_ChatMessage_back]|].
    intros ai_message.
    eapply returns_bind;
      [apply returns_switch; [apply add_keeps_switch|apply add_message_back]|].
    intros ?.
    eapply returns_bind;
      [apply returns_switch; [apply record_keeps_switch|apply record_runs]|].
    intros recorded. apply returns_ret.
    intros w0 (He4 & Hroom & now & stamp & Hrec).
    exists l, now, stamp. rewrite He4 in Hroom, Hrec. auto. }
  destruct (H w eq_refl) as (response & w' & E & l & now & stamp & Hroom & Hrec).
  exists response, w', l, now, stamp.
  split; [exact E|]. split; [exact Hroom|]. split; [exact Hrec|].
  intros Hquiet. rewrite Hrec.
  apply (record_with_room enabled now stamp user_id l0 l (interleaved env l) Hroom);
    [reflexivity|exact Hquiet].
Qed.

End RouteFacts.

(** * The theorems at concrete inputs *)

Section Instances.
Import Examples LLM Service Trace Run Quota.

Lemma service_ok_two_keys : service_ok two_keys.
Proof.
  split; [split|]; [discriminate| |discriminate].
  unfold pool_size. simpl. lia.
Qed.

(** Claim C1, as amended, on two keys and a downstream that always fails. *)
Lemma dispatch_returns_text_witness :
  service_ok (svc (fresh two_keys)) /\
  cancel_at (downstream (always 500) None) = None /\
  exists text c',
    create_empathetic_response (downstream (always 500) None) "halo" "Netral" (1 # 2)
      None None (fresh two_keys) = (Ok text, c') /\
    service_ok (svc c').
Proof.
  assert (H1 : service_ok (svc (fresh two_keys))).
  { split; [split|]; [discriminate| |discriminate]. unfold pool_size. simpl. lia. }
  split; [exact H1|]. split; [reflexivity|].
  apply (dispatch_returns_text (downstream (always 500) None) "halo" "Netral" (1 # 2)
           None None (fresh two_keys) H1 eq_refl).
Defined.

(** Claim C1 as stated fails.  With no key in the environment the pool is
    empty and the first key lookup, which stands before the [try], raises;
    and a cancellation delivered at the first await leaves the call as
    [CancelledError]. *)
Lemma dispatch_raises_without_keys :
  api_keys no_keys = [] /\
  fst (create_empathetic_response (downstream (always 200) None) "halo" "Netral" (1 # 2)
         None None (fresh no_keys)) = Raise (Exception "No API keys available") /\
  fst (create_empathetic_response (downstream (always 200) (Some 0%nat)) "halo" "Netral"
         (1 # 2) None None (fresh two_keys)) = Raise CancelledError.
Proof. vm_compute. repeat split; reflexivity. Qed.

(** Claim C3 as stated fails.  After a 404 with attempts remaining the turn
    sleeps not at all, where the same turn after a 500 sleeps
    [base_delay * 2 ^ 0]. *)
Lemma other_status_no_backoff_counterexample :
  let turn status :=
    attempt_body (downstream (always status) None) "halo" "Netral" (1 # 2) [] 2
      "some/model" "sk-or-v1-aaaaaa1" 0 (fresh one_key) in
  fst (turn 404) = Ok Continue /\
  fst (turn 500) = Ok Continue /\
  sleeps (trace (task (snd (turn 404)))) = [] /\
  sleeps (trace (task (snd (turn 500)))) = [backoff 0].
Proof. vm_compute. repeat split; reflexivity. Qed.


(** Claim C2 as stated fails.  With a downstream that always answers 500 the
    stored reply is the generic fallback, and with the deadline firing at
    the first await it is the apology; either way the window of the
    identity, empty before, holds a time stamp afterwards. *)
Lemma fallback_consumes_quota :
  let run cancel :=
    Chat.send_message (outside (downstream (always 500) cancel)) "c1" (bearer "tok") halo
      (start one_key true) in
  Limiter.window "tok" (Chat.user_limiter (start one_key true)) = [] /\
  last_stored "tok" "0" (snd (run None)) = Some (_get_fallback_response "Netral" "halo") /\
  Limiter.window "tok" (Chat.user_limiter (snd (run None))) = [inject_Z 1003] /\
  last_stored "tok" "0" (snd (run (Some 0%nat))) = Some Chat.timeout_apology /\
  Limiter.window "tok" (Chat.user_limiter (snd (run (Some 0%nat)))) = [inject_Z 1003].
Proof. vm_compute. repeat split; reflexivity. Qed.

(** A request whose window was filled by others during its dispatch is
    answered all the same, and its record adds nothing. *)
Lemma filled_window_is_not_recorded :
  let run := Chat.send_message (three_meanwhile (downstream (always 500) None)) "c1"
               (bearer "tok") halo (start one_key true) in
  (exists response, fst run = Ok response) /\
  Limiter.window "tok" (Chat.user_limiter (snd run)) =
    [inject_Z 1002; inject_Z 1002; inject_Z 1002].
Proof. vm_compute. split; [eexists; reflexivity|reflexivity]. Qed.

(** Claim C2, as amended, on a request served by the fallback. *)
Lemma served_request_is_recorded_witness :
  let env := outside (downstream (always 500) None) in
  let w := start one_key true in
  let user_id := Limiter.get_user_id_from_request (bearer "tok") in
  service_ok (Chat.llm_service w) /\
  Tree.names_directory user_id /\ Tree.names_file "c1" /\ Tree.tree_like env w /\
  exists response w' l now stamp,
    Chat.send_message env "c1" (bearer "tok") halo w = (Ok response, w') /\
    Handler.has_room (Chat.PROMPT_LIMIT_ENABLED w) user_id (Chat.user_limiter w) l /\
    Chat.user_limiter w' =
      snd (Limiter.record_prompt (Chat.PROMPT_LIMIT_ENABLED w) now stamp user_id
             (Chat.interleaved env l)) /\
    (Limiter.window user_id (Chat.interleaved env l) = Limiter.window user_id l ->
     exists kept,
       Limiter.window user_id (Chat.user_limiter w') = app kept [stamp] /\
       kept `suffix_of` Limiter.window user_id (Chat.user_limiter w)).
Proof.
  cbv zeta.
  assert (H1 : service_ok (Chat.llm_service (start one_key true))).
  { split; [split|]; [discriminate| |discriminate]. unfold pool_size. simpl. lia. }
  assert (H2 : Tree.tree_like (outside (downstream (always 500) None)) (start one_key true)).
  { split; [|reflexivity]. intros user_id cid c H. discriminate H. }
  split; [exact H1|]. split; [reflexivity|]. split; [reflexivity|]. split; [exact H2|].
  apply (served_request_is_recorded (outside (downstream (always 500) None)) "c1"
           (bearer "tok") halo (start one_key true) H1); [reflexivity..|exact H2|reflexivity].
Defined.

(** Claim C3, as amended, on the second turn of four after a 404. *)
Lemma other_status_retries_at_once_witness :
  let env := downstream (always 404) None in
  let c := fresh two_keys in
  let r := attempt_body env "halo" "Netral" (1 # 2) [] 4 "some/model" "sk-or-v1-aaaaaa1" 1 c in
  rotor_ok (svc c) /\
  fst r = Ok Continue /\
  snd r = posted "some/model" [] "sk-or-v1-aaaaaa1" 1 c /\
  sleeps (trace (task (snd r))) = sleeps (trace (task c)).
Proof.
  cbv zeta.
  assert (H1 : rotor_ok (svc (fresh two_keys))).
  { split; [discriminate|]. unfold pool_size. simpl. lia. }
  split; [exact H1|].
  apply (other_status_retries_at_once (downstream (always 404) None) "halo" "Netral" (1 # 2)
           [] 4 "some/model" "sk-or-v1-aaaaaa1" 1 (fresh two_keys) 404 JsonNoChoices H1
           eq_refl); lia.
Defined.

(** Claim C4 on two keys: four attempts, delays 0.5, 1 and 2 seconds. *)
Lemma all_500_gives_generic_fallback_witness :
  let env := downstream (always 500) None in
  let r := create_empathetic_response env "halo" "Netral" (1 # 2) None None (fresh two_keys) in
  always_500 env /\
  fst r = Ok (_get_fallback_response "Netral" "halo") /\
  map (fun x => fst (fst x)) (posts (trace (task (snd r)))) = [0; 1; 2; 3]%nat /\
  delays_between_attempts (trace (task (snd r))) = map backoff [0; 1; 2]%nat.
Proof.
  cbv zeta.
  assert (H1 : always_500 (downstream (always 500) None)).
  { intros a url h p t. exists JsonNoChoices. reflexivity. }
  split; [exact H1|].
  pose proof (all_500_gives_generic_fallback (downstream (always 500) None) "halo" "Netral"
                (1 # 2) None None two_keys service_ok_two_keys eq_refl H1) as H.
  cbv zeta in H. destruct H as (Hr & _ & Hp & Hd & _).
  split; [exact Hr|]. split; [exact Hp|exact Hd].
Defined.


(** Claim C6 on two keys and five lookups. *)
Lemma rotation_is_cyclic_witness :
  api_keys two_keys <> [] /\
  0 <= current_key_index two_keys < pool_size two_keys /\
  fst (take_keys 5 two_keys) =
    Ok ["sk-or-v1-aaaaaa1"; "sk-or-v1-bbbbbb2"; "sk-or-v1-aaaaaa1"; "sk-or-v1-bbbbbb2";
        "sk-or-v1-aaaaaa1"] /\
  current_key_index (snd (take_keys 5 two_keys)) = 1.
Proof.
  assert (H1 : api_keys two_keys <> []) by discriminate.
  assert (H2 : 0 <= current_key_index two_keys < pool_size two_keys)
    by (unfold pool_size; simpl; lia).
  split; [exact H1|]. split; [exact H2|].
  destruct (rotation_is_cyclic two_keys 5 H1 H2) as [[E _] _].
  rewrite E. split; reflexivity.
Defined.

(** Claim C8 on the limiter of the module: three rounds, then a refusal. *)
Lemma quota_exhausted_after_max_witness :
  let r := check_then_record true three_rounds "u1" Limiter.user_limiter in
  Forall (round_in_window Limiter.user_limiter (inject_Z 1000)) three_rounds /\
  in_window Limiter.user_limiter (inject_Z 1000) (inject_Z 4000) /\
  fst r = [ ((true, 0, 3), true); ((true, 1, 2), true); ((true, 2, 1), true) ] /\
  fst (Limiter.can_user_make_prompt true (inject_Z 4000) "u1" (snd r)) = (false, 3, 0).
Proof.
  cbv zeta.
  assert (Hin : forall t, 1000 <= t <= 87400 ->
                  in_window Limiter.user_limiter (inject_Z 1000) (inject_Z t)).
  { intros t Ht. unfold in_window, reset_seconds, Qle. simpl. lia. }
  assert (H1 : Forall (round_in_window Limiter.user_limiter (inject_Z 1000)) three_rounds).
  { repeat constructor; apply Hin; lia. }
  assert (H2 : in_window Limiter.user_limiter (inject_Z 1000) (inject_Z 4000))
    by (apply Hin; lia).
  split; [exact H1|]. split; [exact H2|].
  destruct (quota_exhausted_after_max Limiter.user_limiter "u1" three_rounds (inject_Z 1000)
              (inject_Z 4000) eq_refl eq_refl H1 H2) as (_ & Hr & Hc).
  split; [exact Hr|exact Hc].
Defined.

(** Claim C10 on the limiter of the module: four records while enforcement
    is off, then a check with enforcement on. *)
Lemma disabled_quota_still_accrues_witness :
  let self' := snd (record_each false four_records "u1" Limiter.user_limiter) in
  fst (record_each false four_records "u1" Limiter.user_limiter) = [true; true; true; true] /\
  Limiter.window "u1" self' = [inject_Z 1000; inject_Z 1001; inject_Z 1002; inject_Z 1003] /\
  fst (Limiter.can_user_make_prompt true (inject_Z 2000) "u1" self') = (false, 4, 0).
Proof.
  cbv zeta.
  assert (H1 : Forall (fun t => (inject_Z 2000 - reset_seconds Limiter.user_limiter <= t)%Q)
                 (Limiter.window "u1"
                    (snd (record_each false four_records "u1" Limiter.user_limiter)))).
  { repeat constructor; unfold Qle; simpl; lia. }
  destruct (disabled_quota_still_accrues Limiter.user_limiter "u1" four_records
              (inject_Z 2000) H1) as (_ & _ & Hr & Hw & Hc).
  split; [exact Hr|]. split; [exact Hw|exact Hc].
Defined.

(** Claim C9, as amended, on a coroutine that returns and one that raises. *)
Lemma add_request_counts_witness :
  (0 < Queue._semaphore Queue.init)%nat /\
  Queue.add_request (ret 7 : M unit Z) (Queue.init, tt) =
    (Ok 7, ({| Queue.total_requests := 1; Queue.failed_requests := 0;
               Queue._semaphore := 50 |}, tt)) /\
  Queue.add_request (raise (Exception "boom") : M unit Z) (Queue.init, tt) =
    (Raise (Exception "boom"),
     ({| Queue.total_requests := 1; Queue.failed_requests := 1;
         Queue._semaphore := 50 |}, tt)).
Proof.
  assert (H1 : (0 < Queue._semaphore Queue.init)%nat) by (simpl; lia).
  split; [exact H1|]. split.
  - destruct (add_request_counts (ret 7 : M unit Z) Queue.init tt EmptyString H1)
      as (H & _). exact (H 7 eq_refl).
  - destruct (add_request_counts (raise (Exception "boom") : M unit Z) Queue.init tt
                EmptyString H1) as (_ & H & _). exact (H _ eq_refl eq_refl).
Defined.

(** Claim C9 as stated fails.  The dict of [get_stats] has no capacity
    entry, and a wrapped coroutine that ends in a cancellation is not
    counted as failed. *)
Lemma get_stats_has_no_capacity :
  ~ In "capacity" (Queue.keys (Queue.get_stats "2025-01-01T00:00:00" Queue.init)) /\
  Queue.add_request (raise CancelledError : M unit Z) (Queue.init, tt) =
    (Raise CancelledError,
     ({| Queue.total_requests := 1; Queue.failed_requests := 0;
         Queue._semaphore := 50 |}, tt)).
Proof.
  split; [|reflexivity]. simpl. intros H.
  repeat (destruct H as [H|H]; [discriminate H|]). exact H.
Qed.

End Instances.

(** * Further properties of the code

    What follows goes beyond the dispatch core, the tracker, the gate and
    the served request as the sections above have them: the identity of a
    request, the reports of the tracker, the conversation store and its
    routes, the calls of a dispatch, and the requests that are turned
    down. *)

(** ** Strings *)

Section StringFacts.
Import Text.

(** What [lstrip] does at the head of a string: nothing, or it drops
    one character of white space, whatever follows it. *)
Lemma lstrip_cases s :
  lstrip s = s \/
  exists w t,
    w <> EmptyString /\ s = w ++ t /\ forall u, lstrip (w ++ u) = lstrip u.
Proof.
  destruct s as [|c1 s1]; [left; reflexivity|].
  destruct (isspace c1) eqn:E1.
  { right. exists (String c1 EmptyString), s1. split; [discriminate|]. split; [reflexivity|].
    intros u. change (lstrip (String c1 u) = lstrip u).
    cbn [lstrip]. rewrite E1. reflexivity. }
  destruct s1 as [|c2 s2]; [left; cbn [lstrip]; rewrite E1; reflexivity|].
  destruct (isspace2 c1 c2) eqn:E2.
  { right. exists (String c1 (String c2 EmptyString)), s2. split; [discriminate|].
    split; [reflexivity|]. intros u. change (lstrip (String c1 (String c2 u)) = lstrip u).
    cbn [lstrip]. rewrite E1, E2. reflexivity. }
  destruct s2 as [|c3 s3]; [left; cbn [lstrip]; rewrite E1, E2; reflexivity|].
  destruct (isspace3 c1 c2 c3) eqn:E3.
  { right. exists (String c1 (String c2 (String c3 EmptyString))), s3.
    split; [discriminate|]. split; [reflexivity|].
    intros u. change (lstrip (String c1 (String c2 (String c3 u))) = lstrip u).
    cbn [lstrip]. rewrite E1, E2, E3. reflexivity. }
  left. cbn [lstrip]. rewrite E1, E2, E3. reflexivity.
Qed.

Lemma append_length s t : String.length (s ++ t) = (String.length s + String.length t)%nat.
Proof.
  induction s as [|c s IH]; [reflexivity|].
  change (S (String.length (s ++ t)) = S (String.length s + String.length t)).
  rewrite IH. reflexivity.
Qed.

Lemma append_assoc s t u : (s ++ t) ++ u = s ++ t ++ u.
Proof.
  induction s as [|c s IH]; [reflexivity|].
  change (String c ((s ++ t) ++ u) = String c (s ++ t ++ u)). rewrite IH. reflexivity.
Qed.

Lemma nonempty_length s : s <> EmptyString -> (0 < String.length s)%nat.
Proof. destruct s; [congruence|cbn; lia]. Qed.

(** Induction on the length of a string. *)
Lemma by_length (P : string -> Prop) :
  (forall s, (forall t, (String.length t < String.length s)%nat -> P t) -> P s) ->
  forall s, P s.
Proof.
  intros H s. remember (String.length s) as n eqn:E. revert s E.
  induction n as [n IH] using lt_wf_ind. intros s ->.
  apply H. intros t Ht. apply (IH _ Ht t eq_refl).
Qed.

Lemma lstrip_length s : (String.length (lstrip s) <= String.length s)%nat.
Proof.
  induction s as [s IH] using by_length.
  destruct (lstrip_cases s) as [->|(w & t & Hw & -> & Hdrop)]; [lia|].
  rewrite Hdrop, append_length. apply nonempty_length in Hw.
  specialize (IH t). rewrite append_length in IH. specialize (IH ltac:(lia)). lia.
Qed.

Lemma lstrip_headed s : headed (lstrip s).
Proof.
  unfold headed. induction s as [s IH] using by_length.
  destruct (lstrip_cases s) as [E|(w & t & Hw & -> & Hdrop)]; [rewrite E; exact E|].
  rewrite Hdrop. apply IH. rewrite append_length. apply nonempty_length in Hw. lia.
Qed.

Lemma lstrip_of_headed s : headed s -> lstrip s = s.
Proof. intros H. exact H. Qed.

(** White space before a string is dropped with it. *)
Lemma lstrip_blank_app s t : blank s = true -> lstrip (s ++ t) = lstrip t.
Proof.
  unfold blank. induction s as [s IH] using by_length.
  destruct (lstrip_cases s) as [E|(w & u & Hw & -> & Hdrop)].
  - rewrite E. destruct s; [reflexivity|discriminate].
  - rewrite Hdrop, append_assoc, Hdrop. apply IH.
    rewrite append_length. apply nonempty_length in Hw. lia.
Qed.

Lemma headed_prefix p t : headed (p ++ t) -> headed p.
Proof.
  unfold headed. intros H.
  destruct (lstrip_cases p) as [E|(w & u & Hw & -> & Hdrop)]; [exact E|]. exfalso.
  rewrite append_assoc, Hdrop in H.
  pose proof (lstrip_length (u ++ t)) as Hlen. rewrite H in Hlen.
  rewrite !append_length in Hlen. apply nonempty_length in Hw. lia.
Qed.

(** [rstrip] cuts white space off, and nothing else. *)
Lemma rstrip_split s : exists t, s = rstrip s ++ t /\ blank t = true.
Proof.
  induction s as [|c s (t & Es & Ht)]; [exists EmptyString; split; reflexivity|].
  cbn [rstrip]. destruct (blank (String c s)) eqn:Hb.
  - exists (String c s). split; [reflexivity|exact Hb].
  - exists t. split; [|exact Ht].
    change (String c s = String c (rstrip s ++ t)). rewrite <- Es. reflexivity.
Qed.

Lemma rstrip_headed s : headed s -> headed (rstrip s).
Proof.
  intros H. destruct (rstrip_split s) as (t & Es & _).
  rewrite Es in H. exact (headed_prefix _ _ H).
Qed.

Lemma blank_app s t : blank s = true -> blank t = true -> blank (s ++ t) = true.
Proof. intros Hs Ht. unfold blank. rewrite (lstrip_blank_app _ _ Hs). exact Ht. Qed.

Lemma rstrip_idem s : rstrip (rstrip s) = rstrip s.
Proof.
  induction s as [|c s IH]; [reflexivity|].
  cbn [rstrip]. destruct (blank (String c s)) eqn:Hb; [reflexivity|].
  cbn [rstrip]. rewrite IH.
  destruct (blank (String c (rstrip s))) eqn:Hb'; [|reflexivity]. exfalso.
  destruct (rstrip_split s) as (t & Es & Ht).
  assert (Hall : blank (String c (rstrip s) ++ t) = true) by (apply blank_app; assumption).
  change (blank (String c (rstrip s ++ t)) = true) in Hall.
  rewrite <- Es, Hb in Hall. discriminate Hall.
Qed.

Lemma strip_idem s : strip (strip s) = strip s.
Proof.
  unfold strip. rewrite (lstrip_of_headed (rstrip (lstrip s))).
  - apply rstrip_idem.
  - apply rstrip_headed, lstrip_headed.
Qed.

Lemma lower_app s t : lower (s ++ t) = lower s ++ lower t.
Proof. induction s as [|c s IH]; simpl; [reflexivity|]. rewrite IH. reflexivity. Qed.

Lemma lower_length s : String.length (lower s) = String.length s.
Proof. induction s as [|c s IH]; simpl; [reflexivity|]. rewrite IH. reflexivity. Qed.

Lemma drop_chars_app s t : drop_chars (String.length s) (s ++ t) = t.
Proof. induction s as [|c s IH]; simpl; [destruct t; reflexivity|exact IH]. Qed.

Lemma prefix_app s t : String.prefix s (s ++ t) = true.
Proof.
  induction s as [|c s IH]; simpl; [destruct t; reflexivity|].
  destruct (ascii_dec c c); [exact IH|congruence].
Qed.

End StringFacts.

(** ** Identities *)

Section IdentityFacts.
Import Text Limiter.

(** A letter stands at the head of what [lstrip] leaves. *)
Lemma lstrip_letter c s : lower_ascii c = "b"%char -> lstrip (String c s) = String c s.
Proof.
  intros E.
  assert (Hc : c = "b"%char \/ c = "B"%char).
  { destruct c as [[] [] [] [] [] [] [] []]; try discriminate E; auto. }
  destruct Hc as [->| ->]; destruct s as [|c2 [|c3 s]]; reflexivity.
Qed.

Lemma strip_blank_not_bearer h :
  strip h = EmptyString -> startswith (lower h) "bearer " = false.
Proof.
  destruct h as [|c h]; [reflexivity|]. intros Hs.
  unfold startswith. cbn [lower].
  change (String.prefix "bearer " (String (lower_ascii c) (lower h)))
    with (if ascii_dec "b" (lower_ascii c) then String.prefix "earer " (lower h) else false).
  destruct (ascii_dec "b" (lower_ascii c)) as [E|]; [|reflexivity]. exfalso.
  unfold strip in Hs. rewrite (lstrip_letter c h (eq_sym E)) in Hs.
  cbn [rstrip] in Hs. unfold blank in Hs. rewrite (lstrip_letter c h (eq_sym E)) in Hs.
  discriminate Hs.
Qed.

Lemma nonempty_false s : LLM.nonempty s = false -> s = EmptyString.
Proof. destruct s; [reflexivity|discriminate]. Qed.

(** Property X1.  The identity of a request is never blank and carries no white space
    around it; a request with no [authorization] header, or with one that
    is empty or blank, is [unknown_user]. *)
Theorem identity_is_never_blank (request : Request) :
  let user_id := get_user_id_from_request request in
  user_id <> EmptyString /\
  strip user_id = user_id /\
  (authorization request = None -> user_id = "unknown_user") /\
  (forall h, authorization request = Some h -> strip h = EmptyString ->
             user_id = "unknown_user").
Proof.
  unfold get_user_id_from_request. destruct (authorization request) as [h|].
  - destruct (LLM.nonempty h) eqn:Hh.
    + destruct (startswith (lower h) "bearer ") eqn:Hb.
      * destruct (LLM.nonempty (strip (drop_chars 7 h))) eqn:Ht.
        -- repeat split; try discriminate.
           ++ intros E. rewrite E in Ht. discriminate Ht.
           ++ apply strip_idem.
           ++ intros h' [= <-] Hs. rewrite (strip_blank_not_bearer _ Hs) in Hb.
              discriminate Hb.
        -- repeat split; try discriminate; reflexivity.
      * destruct (LLM.nonempty (strip h)) eqn:Ht.
        -- repeat split; try discriminate.
           ++ intros E. rewrite E in Ht. discriminate Ht.
           ++ apply strip_idem.
           ++ intros h' [= <-] Hs. rewrite Hs in Ht. discriminate Ht.
        -- repeat split; try discriminate; reflexivity.
    + repeat split; try discriminate; reflexivity.
  - repeat split; try discriminate; reflexivity.
Qed.

(** Property X2.  The [Bearer ] prefix, in any letter case, changes nothing: a token
    sent with it and the same token sent bare are one identity. *)
Theorem bearer_prefix_is_optional (prefix token : string) :
  lower prefix = "bearer " ->
  startswith (lower token) "bearer " = false ->
  get_user_id_from_request {| authorization := Some (prefix ++ token) |} =
  get_user_id_from_request {| authorization := Some token |}.
Proof.
  intros Hp Ht. unfold get_user_id_from_request. cbn [authorization].
  assert (Hlen : String.length prefix = 7%nat).
  { rewrite <- lower_length, Hp. reflexivity. }
  assert (Hne : LLM.nonempty (prefix ++ token) = true).
  { destruct prefix; [discriminate Hlen|reflexivity]. }
  rewrite Hne, lower_app, Hp.
  unfold startswith in *. rewrite prefix_app.
  rewrite <- Hlen, drop_chars_app, Ht.
  destruct (LLM.nonempty token) eqn:Hn; [reflexivity|].
  apply nonempty_false in Hn. subst token. reflexivity.
Qed.

End IdentityFacts.

(** ** The sliding window *)

Section WindowFacts.
Import Limiter Quota LimiterStats.

(** The clean-up drops a run of stamps at the old end, all of them
    older than the cutoff. *)
Lemma popleft_older_split cutoff d :
  exists dropped,
    d = app dropped (popleft_older cutoff d) /\
    Forall (fun t => (t < cutoff)%Q) dropped.
Proof.
  induction d as [|t d (dropped & Hd & Hold)]; [exists []; split; [reflexivity|constructor]|].
  simpl. destruct (Qltb t cutoff) eqn:E.
  - exists (t :: dropped). split; [simpl; f_equal; exact Hd|].
    constructor; [|exact Hold]. apply Qnot_le_lt. intros Hle.
    apply Qltb_false_iff in Hle. congruence.
  - exists []. split; [reflexivity|constructor].
Qed.

Lemma window_other u v d self :
  u <> v ->
  window v (set_user_prompts (<[u := d]> (user_prompts self)) self) = window v self.
Proof.
  intros Huv. unfold window. simpl. rewrite lookup_insert_ne by exact Huv. reflexivity.
Qed.

Lemma check_frame enabled now u self :
  let self' := snd (can_user_make_prompt enabled now u self) in
  max_prompts_per_user self' = max_prompts_per_user self /\
  reset_hours self' = reset_hours self /\
  forall v, u <> v -> window v self' = window v self.
Proof.
  unfold can_user_make_prompt. destruct enabled; cbn [negb snd]; [|auto].
  split; [reflexivity|]. split; [reflexivity|].
  intros v Huv. apply window_other. exact Huv.
Qed.

Lemma record_frame enabled now stamp u self :
  let self' := snd (record_prompt enabled now stamp u self) in
  max_prompts_per_user self' = max_prompts_per_user self /\
  reset_hours self' = reset_hours self /\
  forall v, u <> v -> window v self' = window v self.
Proof.
  unfold record_prompt.
  pose proof (check_frame enabled now u self) as (Hm & Hh & Hw).
  destruct (can_user_make_prompt enabled now u self) as [[[can used] remaining] self1].
  cbn [snd] in *. destruct can; cbn [negb snd]; [|auto].
  split; [exact Hm|]. split; [exact Hh|].
  intros v Huv. rewrite window_other by exact Huv. apply Hw. exact Huv.
Qed.

(** What a check answers is a function of the limits and of the
    identity's own window. *)
Lemma check_of_window enabled now u self1 self2 :
  max_prompts_per_user self1 = max_prompts_per_user self2 ->
  reset_hours self1 = reset_hours self2 ->
  window u self1 = window u self2 ->
  fst (can_user_make_prompt enabled now u self1) =
  fst (can_user_make_prompt enabled now u self2).
Proof.
  intros Hm Hh Hw. unfold can_user_make_prompt.
  destruct enabled; cbn [negb fst]; [|rewrite Hm; reflexivity].
  rewrite !window_cleanup. unfold reset_seconds. cbn [max_prompts_per_user].
  unfold _cleanup_old_prompts. cbn [max_prompts_per_user set_user_prompts].
  rewrite Hm, Hh, Hw. reflexivity.
Qed.

(** Property X3.  With enforcement on, a check drops time stamps at the old end of
    the window only, and only stamps older than the reset period before
    the clock value it reads: no prompt made within the period is
    forgotten.  What it reports is the number of stamps it has kept.
    (The cutoff of the code is the float nearest to the difference that
    the model takes exactly.  A stamp, a float itself, that is below the
    nearest float is below the difference, so what is said of the stamps
    that are dropped does not depend on the rounding.) *)
Theorem only_old_prompts_are_dropped self user_id now :
  let r := can_user_make_prompt true now user_id self in
  let kept := window user_id (snd r) in
  let used := Z.of_nat (length kept) in
  (exists dropped,
     window user_id self = app dropped kept /\
     Forall (fun t => (t < now - reset_seconds self)%Q) dropped) /\
  fst r = (used <? max_prompts_per_user self, used,
           Z.max 0 (max_prompts_per_user self - used)).
Proof.
  intros r kept used. subst r kept used.
  unfold can_user_make_prompt. cbn [negb fst snd].
  rewrite window_cleanup. split; [apply popleft_older_split|reflexivity].
Qed.

(** Property X4.  Checks and records of one identity leave the window of every other
    identity alone, and with it every answer the other identity gets. *)
Theorem quota_is_per_identity self u v enabled now stamp :
  u <> v ->
  let checked := snd (can_user_make_prompt enabled now u self) in
  let recorded := snd (record_prompt enabled now stamp u self) in
  window v checked = window v self /\
  window v recorded = window v self /\
  (forall e t, fst (can_user_make_prompt e t v checked) =
               fst (can_user_make_prompt e t v self)) /\
  (forall e t, fst (can_user_make_prompt e t v recorded) =
               fst (can_user_make_prompt e t v self)).
Proof.
  intros Huv checked recorded. subst checked recorded.
  pose proof (check_frame enabled now u self) as (Hm1 & Hh1 & Hw1).
  pose proof (record_frame enabled now stamp u self) as (Hm2 & Hh2 & Hw2).
  cbv zeta in *.
  split; [apply Hw1, Huv|]. split; [apply Hw2, Huv|].
  split; intros e t; apply check_of_window; auto.
Qed.

Lemma check_length enabled now u self :
  (length (window u (snd (can_user_make_prompt enabled now u self)))
   <= length (window u self))%nat.
Proof.
  pose proof (check_shrinks enabled now u self) as (_ & Hsuf & _).
  apply suffix_length_le. exact Hsuf.
Qed.

Lemma record_within_limit now stamp u self :
  Z.of_nat (length (window u self)) <= max_prompts_per_user self ->
  Z.of_nat (length (window u (snd (record_prompt true now stamp u self))))
  <= max_prompts_per_user self.
Proof.
  intros Hle. unfold record_prompt.
  pose proof (check_length true now u self) as Hlen.
  pose proof (check_shrinks true now u self) as (Hm & _ & Hal & _).
  specialize (Hal eq_refl). unfold allowed in Hal.
  destruct (can_user_make_prompt true now u self) as [[[can used] remaining] self1].
  cbn [fst snd] in *. subst can.
  destruct (Z.ltb_spec (Z.of_nat (length (window u self1))) (max_prompts_per_user self));
    cbn [negb snd].
  - rewrite window_set, length_app. simpl. lia.
  - lia.
Qed.

(** Property X5.  With enforcement on, a window that holds no more time stamps than
    the limit never comes to hold more, whatever the clock reads in the
    rounds of check and record that follow. *)
Theorem window_stays_within_limit user_id times : forall self,
  Z.of_nat (length (window user_id self)) <= max_prompts_per_user self ->
  let self' := snd (check_then_record true times user_id self) in
  max_prompts_per_user self' = max_prompts_per_user self /\
  Z.of_nat (length (window user_id self')) <= max_prompts_per_user self.
Proof.
  induction times as [|[[a b] stamp] times IH]; intros self Hle self'; subst self'.
  - simpl. auto.
  - cbn [check_then_record].
    pose proof (check_frame true a user_id self) as (Hm1 & _ & _).
    pose proof (check_length true a user_id self) as Hl1.
    destruct (can_user_make_prompt true a user_id self) as [checked self1].
    cbn [snd] in *.
    pose proof (record_frame true b stamp user_id self1) as (Hm2 & _ & _).
    pose proof (record_within_limit b stamp user_id self1 ltac:(lia)) as Hl2.
    destruct (record_prompt true b stamp user_id self1) as [recorded self2].
    cbn [snd] in *.
    specialize (IH self2 ltac:(lia)). cbv zeta in IH.
    destruct (check_then_record true times user_id self2) as [results self3].
    cbn [snd] in *. destruct IH as [Hm3 Hl3]. split; lia.
Qed.

End WindowFacts.

(** ** The reports of the quota tracker *)

Section ReportFacts.
Import Limiter Quota LimiterStats.

(** Property X6.  A check that allows a prompt is honoured by the record that follows
    it, however late: the clean-up inside the record can only make room. *)
Theorem allowed_check_is_honoured self user_id enabled now later stamp :
  let checked := can_user_make_prompt enabled now user_id self in
  allowed (fst checked) = true ->
  let recorded := record_prompt enabled later stamp user_id (snd checked) in
  fst recorded = true /\
  exists kept,
    kept `suffix_of` window user_id self /\
    window user_id (snd recorded) = app kept [stamp].
Proof.
  intros checked Hal recorded. subst checked recorded.
  pose proof (check_shrinks enabled now user_id self) as (Hm1 & Hsuf1 & Hon1 & _).
  destruct (can_user_make_prompt enabled now user_id self) as [r1 self1].
  cbn [fst snd] in *. unfold record_prompt.
  pose proof (check_shrinks enabled later user_id self1) as (Hm2 & Hsuf2 & Hon2 & Hoff2).
  destruct (can_user_make_prompt enabled later user_id self1) as [[[can used] remaining] self2].
  cbn [fst snd allowed] in *.
  assert (Hcan : can = true).
  { destruct enabled; [|apply Hoff2; reflexivity].
    rewrite (Hon2 eq_refl). rewrite (Hon1 eq_refl) in Hal.
    apply Z.ltb_lt in Hal. apply Z.ltb_lt.
    pose proof (suffix_length_le _ _ Hsuf2). lia. }
  subst can. cbn [negb fst snd]. split; [reflexivity|].
  exists (window user_id self2). split; [etransitivity; eassumption|].
  apply window_set.
Qed.

(** *** Identities are kept for ever *)

Lemma cleanup_dom now u self :
  dom (user_prompts (_cleanup_old_prompts now u self)) = {[u]} ∪ dom (user_prompts self).
Proof. unfold _cleanup_old_prompts. simpl. apply dom_insert_L. Qed.

Lemma check_dom enabled now u self :
  dom (user_prompts self) ⊆ dom (user_prompts (snd (can_user_make_prompt enabled now u self))).
Proof.
  unfold can_user_make_prompt. destruct enabled; cbn [negb snd]; [|reflexivity].
  rewrite cleanup_dom. apply union_subseteq_r.
Qed.

Lemma record_dom enabled now stamp u self :
  dom (user_prompts self) ⊆ dom (user_prompts (snd (record_prompt enabled now stamp u self))).
Proof.
  unfold record_prompt. pose proof (check_dom enabled now u self) as H.
  destruct (can_user_make_prompt enabled now u self) as [[[can used] remaining] self1].
  cbn [snd] in *. destruct can; cbn [negb snd]; [|exact H].
  simpl. rewrite dom_insert_L. etransitivity; [exact H|apply union_subseteq_r].
Qed.

Lemma check_dom_known enabled now u self :
  u ∈ dom (user_prompts self) ->
  dom (user_prompts (snd (can_user_make_prompt enabled now u self))) = dom (user_prompts self).
Proof.
  intros Hu. unfold can_user_make_prompt. destruct enabled; cbn [negb snd]; [|reflexivity].
  rewrite cleanup_dom. apply subseteq_union_1_L, singleton_subseteq_l. exact Hu.
Qed.

Lemma cleanup_each_dom now ids : forall self,
  Forall (fun u => u ∈ dom (user_prompts self)) ids ->
  dom (user_prompts (cleanup_each now ids self)) = dom (user_prompts self).
Proof.
  induction ids as [|u ids IH]; intros self Hids; [reflexivity|].
  apply Forall_cons in Hids as [Hu Hids]. cbn [cleanup_each fold_left].
  assert (E : dom (user_prompts (_cleanup_old_prompts (now u) u self))
              = dom (user_prompts self)).
  { rewrite cleanup_dom. apply subseteq_union_1_L, singleton_subseteq_l. exact Hu. }
  unfold cleanup_each in IH. rewrite IH; [exact E|].
  eapply Forall_impl; [exact Hids|]. intros v Hv. cbv beta. rewrite E. exact Hv.
Qed.

Lemma count_at_limit_spec enabled now ids : forall self,
  Forall (fun u => u ∈ dom (user_prompts self)) ids ->
  let r := count_at_limit enabled now ids self in
  0 <= fst r <= Z.of_nat (length ids) /\
  (enabled = false -> fst r = 0) /\
  dom (user_prompts (snd r)) = dom (user_prompts self) /\
  max_prompts_per_user (snd r) = max_prompts_per_user self /\
  reset_hours (snd r) = reset_hours self.
Proof.
  induction ids as [|u ids IH]; intros self Hids r; subst r.
  - simpl. repeat split; lia.
  - apply Forall_cons in Hids as [Hu Hids]. cbn [count_at_limit].
    pose proof (check_dom_known enabled (now u) u self Hu) as Hd.
    pose proof (check_frame enabled (now u) u self) as (Hm & Hh & _).
    pose proof (check_shrinks enabled (now u) u self) as (_ & _ & _ & Hoff).
    destruct (can_user_make_prompt enabled (now u) u self) as [[[can used] remaining] self1].
    cbn [fst snd allowed] in *.
    specialize (IH self1). destruct IH as (Hn & Hz & Hd' & Hm' & Hh').
    { eapply Forall_impl; [exact Hids|]. intros v Hv. cbv beta. rewrite Hd. exact Hv. }
    destruct (count_at_limit enabled now ids self1) as [n self2]. cbn [fst snd length] in *.
    split; [destruct can; cbn [negb]; lia|].
    split; [intros He; rewrite (Hz He), (Hoff He); reflexivity|].
    split; [congruence|]. split; congruence.
Qed.

Lemma user_ids_known self : Forall (fun u => u ∈ dom (user_prompts self)) (user_ids self).
Proof.
  unfold user_ids. apply List.Forall_forall. intros u Hu.
  apply in_map_iff in Hu as ([u' d] & <- & Hin). simpl.
  apply list_elem_of_In, elem_of_map_to_list in Hin.
  apply elem_of_dom. eexists. exact Hin.
Qed.

Lemma user_ids_length self : length (user_ids self) = size (user_prompts self).
Proof. unfold user_ids. rewrite length_map. apply length_map_to_list. Qed.

Lemma size_of_dom (m1 m2 : gmap string (list Q)) : dom m1 = dom m2 -> size m1 = size m2.
Proof. intros H. rewrite <- !size_dom, H. reflexivity. Qed.

Lemma sum_lengths_nonneg (l : list (string * list Q)) :
  0 <= fold_right Z.add 0 (map (fun kv => Z.of_nat (length (snd kv))) l).
Proof. induction l as [|kv l IH]; simpl; lia. Qed.

(** Property X8.  No operation of the tracker removes an identity: once seen, an
    identity stays in [user_prompts], with an empty window at the least. *)
Theorem identities_are_never_forgotten self :
  (forall enabled now u,
     dom (user_prompts self)
     ⊆ dom (user_prompts (snd (can_user_make_prompt enabled now u self)))) /\
  (forall enabled now stamp u,
     dom (user_prompts self)
     ⊆ dom (user_prompts (snd (record_prompt enabled now stamp u self)))) /\
  (forall enabled now1 now2 iso u,
     dom (user_prompts self)
     ⊆ dom (user_prompts (snd (get_user_stats enabled now1 now2 iso u self)))) /\
  (forall enabled now1 now2 now_iso,
     dom (user_prompts (snd (get_all_stats enabled now1 now2 now_iso self)))
     = dom (user_prompts self)).
Proof.
  split; [intros; apply check_dom|]. split; [intros; apply record_dom|]. split.
  - intros enabled now1 now2 iso u. unfold get_user_stats.
    pose proof (check_dom enabled now2 u (_cleanup_old_prompts now1 u self)) as H.
    destruct (can_user_make_prompt enabled now2 u _) as [[[can used] remaining] self2].
    cbn [snd] in *. rewrite cleanup_dom in H.
    etransitivity; [|exact H]. apply union_subseteq_r.
  - intros enabled now1 now2 now_iso. unfold get_all_stats.
    pose proof (cleanup_each_dom now1 (user_ids self) self (user_ids_known self)) as Hd.
    set (self1 := cleanup_each now1 (user_ids self) self) in *.
    pose proof (count_at_limit_spec enabled now2 (user_ids self1) self1
                  (user_ids_known self1)) as (_ & _ & Hd' & _).
    destruct (count_at_limit enabled now2 (user_ids self1) self1) as [n self2].
    cbn [fst snd] in *. congruence.
Qed.

(** Property X9.  [get_all_stats] counts as active every identity the tracker has ever
    seen, those with nothing left in their window too; the identities at
    their limit are some of these, and none when enforcement is off. *)
Theorem all_stats_count_every_identity enabled now1 now2 now_iso self :
  let stats := fst (get_all_stats enabled now1 now2 now_iso self) in
  total_active_users stats = Z.of_nat (size (user_prompts self)) /\
  0 <= users_at_limit stats <= total_active_users stats /\
  0 <= total_prompts_today stats /\
  (enabled = false -> users_at_limit stats = 0).
Proof.
  cbv zeta. unfold get_all_stats.
  pose proof (cleanup_each_dom now1 (user_ids self) self (user_ids_known self)) as Hd.
  set (self1 := cleanup_each now1 (user_ids self) self) in *.
  pose proof (count_at_limit_spec enabled now2 (user_ids self1) self1
                (user_ids_known self1)) as (Hn & Hz & _).
  destruct (count_at_limit enabled now2 (user_ids self1) self1) as [n self2].
  cbn [fst snd total_active_users users_at_limit total_prompts_today] in *.
  rewrite user_ids_length in Hn. rewrite (size_of_dom _ _ Hd) in *.
  split; [reflexivity|]. split; [exact Hn|]. split; [apply sum_lengths_nonneg|exact Hz].
Qed.

End ReportFacts.

(** ** The counters of the admission gate *)

Section CounterFacts.
Import Queue Gate.

Lemma success_rate_range total failed :
  0 <= failed <= total ->
  (0 <= inject_Z (total - failed) / inject_Z (Z.max total 1) * 100 <= 100)%Q.
Proof.
  intros H.
  assert (Hm : (0 < inject_Z (Z.max total 1))%Q).
  { change 0%Q with (inject_Z 0). rewrite <- Zlt_Qlt. lia. }
  assert (Hn : (0 <= inject_Z (total - failed))%Q).
  { change 0%Q with (inject_Z 0). rewrite <- Zle_Qle. lia. }
  assert (Hle : (inject_Z (total - failed) <= inject_Z (Z.max total 1))%Q).
  { rewrite <- Zle_Qle. lia. }
  assert (H0 : (0 <= inject_Z (total - failed) / inject_Z (Z.max total 1))%Q).
  { apply Qle_shift_div_l; [exact Hm|]. rewrite Qmult_0_l. exact Hn. }
  assert (H1 : (inject_Z (total - failed) / inject_Z (Z.max total 1) <= 1)%Q).
  { apply Qle_shift_div_r; [exact Hm|]. rewrite Qmult_1_l. exact Hle. }
  split; lra.
Qed.

Lemma add_request_counters {W A : Type} (request_func : M W A) q w :
  let q' := fst (snd (add_request request_func (q, w))) in
  total_requests q <= total_requests q' <= total_requests q + 1 /\
  failed_requests q <= failed_requests q' /\
  failed_requests q' - failed_requests q <= total_requests q' - total_requests q.
Proof.
  cbv zeta.
  unfold add_request, bind, acquire, try_finally, try_except, zoom, release, count_request,
    count_failure, on_tracker, modify, raise, ret.
  cbn [fst snd]. destruct (_semaphore q) as [|free]; cbn [fst snd]; [lia|].
  destruct (request_func w) as [[a|e|] w']; unfold bind; cbn; try lia.
  destruct (isinstance_Exception e); cbn; lia.
Qed.

(** Property X10.  Whatever the wrapped coroutine does, the gate never counts more
    failures than requests, and the success rate it reports lies between
    0 and 100; before the first request it is 0. *)
Theorem gate_counters_stay_consistent {W A : Type} (request_func : M W A)
    (q : SimpleStatsTracker) (w : W) (now_iso : string) :
  counters_ok q ->
  let q' := fst (snd (add_request request_func (q, w))) in
  counters_ok q' /\
  total_requests q <= total_requests q' <= total_requests q + 1 /\
  exists rate,
    stat "success_rate" (get_stats now_iso q') = Some (VFloat rate) /\
    (0 <= rate <= 100)%Q /\
    (total_requests q' = 0 -> (rate == 0)%Q).
Proof.
  intros Hq q'. pose proof (add_request_counters request_func q w) as (Ht & Hf & Hd).
  fold q' in Ht, Hf, Hd. unfold counters_ok in *.
  split; [lia|]. split; [exact Ht|].
  eexists. split; [reflexivity|]. split.
  - apply success_rate_range. lia.
  - intros H0. assert (failed_requests q' = 0) as -> by lia. rewrite H0. reflexivity.
Qed.

End CounterFacts.

(** ** The conversation store *)

Section StoreFacts.
Import Conversations Store Shelf.

Lemma store_ok_empty : store_ok {| files := ∅ |}.
Proof. intros u cid c H. unfold get_conversation in H. simpl in H. discriminate H. Qed.

Lemma save_keeps_ok c u self :
  store_ok self -> store_ok (_save_conversation c u self).
Proof.
  intros Hok u' cid' c'. unfold get_conversation, _save_conversation. simpl.
  destruct (decide ((u, id c) = (u', cid'))) as [E|E].
  - rewrite E, lookup_insert_eq. injection E as <- <-. intros [= <-]. reflexivity.
  - rewrite lookup_insert_ne by exact E. apply Hok.
Qed.

Lemma get_saved c u self : get_conversation (id c) u (_save_conversation c u self) = Some c.
Proof. unfold get_conversation, _save_conversation. simpl. apply lookup_insert_eq. Qed.

Lemma delete_keeps_ok cid u self :
  store_ok self -> store_ok (snd (delete_conversation cid u self)).
Proof.
  intros Hok. unfold delete_conversation.
  destruct (files self !! (u, cid)); cbn [snd]; [|exact Hok].
  intros u' cid' c'. unfold get_conversation. simpl. intros H.
  apply lookup_delete_Some in H as [_ H]. exact (Hok u' cid' c' H).
Qed.

Lemma save_keeps_names c u self :
  Tree.names_directory u -> Tree.names_file (id c) ->
  Tree.keys_are_names self -> Tree.keys_are_names (_save_conversation c u self).
Proof.
  intros Hu Hc Hnames u' cid' c'. unfold _save_conversation. cbn [files].
  destruct (decide ((u, id c) = (u', cid'))) as [E|E].
  - injection E as <- <-. auto.
  - rewrite lookup_insert_ne by exact E. apply Hnames.
Qed.

(** Property X11.  The store as a directory tree: the identity names a directory, the
    id a file, and so does every key of the map.  What is said of a
    conversation is said of the fields that the model has: id, owner,
    title, messages, subject and study level (not [created_at] and
    [updated_at]).  Of a conversation that is filed, a new message
    becomes the last one and of these fields none but the title changes
    besides, a new title changes the title alone among them, and a
    deletion makes the conversation unknown; on one that is not filed
    the three operations answer [False] and change nothing.  A new
    conversation under an id that names a file is filed as it was made,
    with no message. *)
Theorem stored_conversation_round_trip (_generate_title : string -> string)
    (conversation_id user_id : string) (self : ConversationService) :
  Tree.names_directory user_id -> Tree.names_file conversation_id ->
  Tree.keys_are_names self ->
  store_ok self ->
  match get_conversation conversation_id user_id self with
  | Some c =>
      (forall m,
         let r := add_message_to_conversation _generate_title conversation_id user_id m self in
         fst r = true /\ store_ok (snd r) /\
         exists t,
           get_conversation conversation_id user_id (snd r) =
           Some {| id := id c; user_id := Conversations.user_id c; title := t;
                   messages := app (messages c) [m];
                   subject := subject c; study_level := study_level c |}) /\
      (forall t,
         let r := update_conversation_title conversation_id user_id t self in
         fst r = true /\ store_ok (snd r) /\
         get_conversation conversation_id user_id (snd r) = Some (retitled t c)) /\
      (let r := delete_conversation conversation_id user_id self in
       fst r = true /\ store_ok (snd r) /\
       get_conversation conversation_id user_id (snd r) = None /\
       delete_conversation conversation_id user_id (snd r) = (false, snd r))
  | None =>
      (forall m, add_message_to_conversation _generate_title conversation_id user_id m self
                 = (false, self)) /\
      (forall t, update_conversation_title conversation_id user_id t self = (false, self)) /\
      delete_conversation conversation_id user_id self = (false, self)
  end /\
  (forall new_id title subject study_level,
     Tree.names_file new_id ->
     let r := create_conversation new_id user_id title subject study_level self in
     store_ok (snd r) /\ Tree.keys_are_names (snd r) /\
     get_conversation new_id user_id (snd r) = Some (fst r) /\
     id (fst r) = new_id /\ messages (fst r) = []).
Proof.
  intros Huser _ Hnames Hok. split.
  - destruct (get_conversation conversation_id user_id self) as [c|] eqn:E.
    + pose proof (Hok _ _ _ E) as Hid. split; [|split].
      * intros m r. subst r. unfold add_message_to_conversation. rewrite E. cbn [fst snd].
        split; [reflexivity|]. split; [apply save_keeps_ok, Hok|].
        eexists. rewrite <- Hid at 1.
        match goal with
        | |- get_conversation (id c) ?u (_save_conversation ?c' ?u ?s) = _ =>
            exact (get_saved c' u s)
        end.
      * intros t r. subst r. unfold update_conversation_title. rewrite E. cbn [fst snd].
        split; [reflexivity|]. split; [apply save_keeps_ok, Hok|].
        rewrite <- Hid at 1. exact (get_saved (retitled t c) user_id self).
      * cbv zeta. pose proof (delete_keeps_ok conversation_id user_id self Hok) as Hd.
        unfold delete_conversation in *. unfold get_conversation in E. rewrite E in *.
        cbn [fst snd] in *. split; [reflexivity|]. split; [exact Hd|].
        unfold get_conversation. cbn [files]. rewrite lookup_delete_eq. auto.
    + unfold add_message_to_conversation, update_conversation_title, delete_conversation.
      rewrite E. unfold get_conversation in E. rewrite E. auto.
  - intros new_id title subject study_level Hnew r. subst r. unfold create_conversation.
    cbn [fst snd]. split; [apply save_keeps_ok, Hok|].
    split; [apply save_keeps_names; assumption|].
    split; [|split; reflexivity].
    match goal with
    | |- get_conversation _ ?u (_save_conversation ?c' ?u ?s) = _ => exact (get_saved c' u s)
    end.
Qed.

(** *** Titles *)

Lemma add_title (gen : string -> string) cid u m self c :
  store_ok self ->
  get_conversation cid u self = Some c ->
  let self' := snd (add_message_to_conversation gen cid u m self) in
  store_ok self' /\
  get_conversation cid u self' =
    Some {| id := id c; user_id := Conversations.user_id c;
            title :=
              if (length (List.filter from_user (app (messages c) [m])) =? 1)%nat
                 && String.eqb (title c) default_title
              then gen (msg_content m) else title c;
            messages := app (messages c) [m];
            subject := subject c; study_level := study_level c |}.
Proof.
  intros Hok E self'. subst self'. pose proof (Hok _ _ _ E) as Hid.
  unfold add_message_to_conversation. rewrite E. cbn [snd].
  split; [apply save_keeps_ok, Hok|].
  rewrite <- Hid at 1.
  match goal with
  | |- get_conversation _ ?u (_save_conversation ?c' ?u ?s) = _ => exact (get_saved c' u s)
  end.
Qed.

Lemma add_each_app gen cid u ms1 ms2 self :
  add_each gen cid u (app ms1 ms2) self = add_each gen cid u ms2 (add_each gen cid u ms1 self).
Proof. revert self. induction ms1 as [|m ms1 IH]; intros self; simpl; [reflexivity|apply IH]. Qed.

Lemma add_each_custom_title (_generate_title : string -> string)
    (conversation_id user_id : string) (ms : list ChatMessage) :
  forall (self : ConversationService) (c : Conversation),
  store_ok self ->
  get_conversation conversation_id user_id self = Some c ->
  title c <> default_title ->
  exists c',
    get_conversation conversation_id user_id
      (add_each _generate_title conversation_id user_id ms self) = Some c' /\
    title c' = title c /\
    messages c' = app (messages c) ms.
Proof.
  induction ms as [|m ms IH]; intros self c Hok E Ht.
  - exists c. simpl. rewrite app_nil_r. auto.
  - cbn [add_each].
    destruct (add_title _generate_title conversation_id user_id m self c Hok E) as [Hok' E'].
    apply String.eqb_neq in Ht. rewrite Ht, andb_false_r in E'.
    destruct (IH _ _ Hok' E') as (c' & E2 & Ht2 & Hm2).
    { cbn [title]. apply String.eqb_neq. exact Ht. }
    exists c'. split; [exact E2|]. split; [exact Ht2|].
    rewrite Hm2. cbn [messages]. rewrite <- app_assoc. reflexivity.
Qed.

Lemma filter_none {A} (f : A -> bool) l :
  Forall (fun x => f x = false) l -> List.filter f l = [].
Proof. induction 1 as [|x l Hx _ IH]; simpl; [reflexivity|]. rewrite Hx. exact IH. Qed.

(** Property X12.  A conversation with the default title and no message of the user
    yet takes its title from the first message of the user, and keeps
    that title from then on. *)
Theorem title_comes_from_first_user_message (_generate_title : string -> string)
    (conversation_id user_id : string) (before after : list ChatMessage) (m : ChatMessage)
    (self : ConversationService) (c : Conversation) :
  store_ok self ->
  get_conversation conversation_id user_id self = Some c ->
  title c = default_title ->
  Forall (fun x => from_user x = false) (app (messages c) before) ->
  from_user m = true ->
  _generate_title (msg_content m) <> default_title ->
  title_of conversation_id user_id
    (add_each _generate_title conversation_id user_id (app before (m :: after)) self)
  = Some (_generate_title (msg_content m)).
Proof.
  intros Hok E Ht Hnone Hm Hgen.
  rewrite add_each_app. cbn [add_each].
  assert (Hbefore : exists c1,
            store_ok (add_each _generate_title conversation_id user_id before self) /\
            get_conversation conversation_id user_id
              (add_each _generate_title conversation_id user_id before self) = Some c1 /\
            title c1 = default_title /\ messages c1 = app (messages c) before).
  { clear Hm Hgen. revert self c Hok E Ht Hnone.
    induction before as [|b before IH]; intros self c Hok E Ht Hnone.
    - exists c. simpl. rewrite app_nil_r. auto.
    - cbn [add_each].
      destruct (add_title _generate_title conversation_id user_id b self c Hok E)
        as [Hok' E'].
      assert (Hcount : List.filter from_user (app (messages c) [b]) = []).
      { apply filter_none. apply Forall_app in Hnone as [H1 H2].
        apply Forall_app. split; [exact H1|].
        apply Forall_cons in H2 as [Hb _]. apply Forall_cons. split; [exact Hb|constructor]. }
      rewrite Hcount in E'. cbn [length Nat.eqb andb] in E'.
      destruct (IH _ _ Hok' E') as (c1 & Hok1 & E1 & Ht1 & Hm1).
      { exact Ht. }
      { cbn [messages]. rewrite <- app_assoc. exact Hnone. }
      exists c1. split; [exact Hok1|]. split; [exact E1|]. split; [exact Ht1|].
      rewrite Hm1. cbn [messages]. rewrite <- app_assoc. reflexivity. }
  destruct Hbefore as (c1 & Hok1 & E1 & Ht1 & Hm1).
  destruct (add_title _generate_title conversation_id user_id m _ c1 Hok1 E1) as [Hok2 E2].
  assert (Hcount : List.filter from_user (app (messages c1) [m]) = [m]).
  { rewrite List.filter_app, Hm1, (filter_none _ _ Hnone). simpl. rewrite Hm. reflexivity. }
  rewrite Hcount, Ht1 in E2. cbn [length Nat.eqb] in E2.
  rewrite String.eqb_refl in E2. cbn [andb] in E2.
  destruct (add_each_custom_title _generate_title conversation_id user_id after _ _ Hok2 E2)
    as (c' & E3 & Ht3 & _).
  { cbn [title]. exact Hgen. }
  unfold title_of. rewrite E3. cbn. rewrite Ht3. reflexivity.
Qed.

End StoreFacts.

(** ** One turn of the retry loop, whatever its call comes to *)

Lemma run_post env attempt url h p t c :
  LLM.requests_post env attempt url h p t c =
  (match LLM.post env attempt url h p t with
   | LLM.Response status body => Ok (status, body)
   | LLM.PostTimeout => Raise RequestsTimeout
   | LLM.PostConnectionError => Raise RequestsConnectionError
   | LLM.PostError msg => Raise (Exception msg)
   end,
   Run.logged (LLM.EvPost attempt url h p t) c).
Proof.
  unfold LLM.requests_post, bind. simpl.
  destruct (LLM.post env attempt url h p t); reflexivity.
Qed.

Section AnyTurn.
Import LLM Service Trace Run Dispatch.

Variables (env : Env) (um em : string) (conf : Q) (msgs : list Message)
          (max : nat) (m fk : string) (attempt : nat) (c : Ctx).
Hypothesis Hok : rotor_ok (svc c).

Local Abbreviation turn := (attempt_body env um em conf msgs max m fk attempt c).
Local Abbreviation after_call := (posted m msgs fk attempt c).
Local Abbreviation outcome_of_call :=
  (post env attempt (api_url (svc c)) (make_headers (turn_key fk attempt c))
     (make_payload m msgs) 30).

Ltac to_call :=
  unfold attempt_body, try_except;
  erewrite run_bind by (apply run_key_step; exact Hok); cbv beta zeta;
  erewrite run_bind by reflexivity; cbv beta;
  unfold bind at 1; rewrite run_post;
  simpl svc; rewrite api_url_keyed; fold after_call.

Lemma turn_verdict :
  cancel_at env = None ->
  fst turn = Ok (verdict em um conf (attempt <? max - 1)%nat outcome_of_call).
Proof.
  intros Hnc. to_call. unfold verdict, is_answer, last_word, asyncio_sleep. rewrite Hnc.
  destruct outcome_of_call as [status body| | |msg]; cbv beta iota.
  - destruct (status =? 200); [|destruct (status =? 429); [|destruct (status >=? 500)]];
      try destruct body; destruct (attempt <? max - 1)%nat; reflexivity.
  - destruct (attempt <? max - 1)%nat; reflexivity.
  - destruct (attempt <? max - 1)%nat; reflexivity.
  - destruct (attempt <? max - 1)%nat; reflexivity.
Qed.

Lemma keyed_frame :
  api_keys (svc (keyed attempt c)) = api_keys (svc c) /\
  api_url (svc (keyed attempt c)) = api_url (svc c) /\
  models (svc (keyed attempt c)) = models (svc c) /\
  awaits (task (keyed attempt c)) = awaits (task c).
Proof. unfold keyed. destruct (0 <? attempt)%nat; auto. Qed.

Ltac run_turn :=
  unfold asyncio_sleep, uniform, time_sleep, log, bind, ret, raise, gets, modify,
    on_svc, zoom;
  cbn [fst snd svc task trace draws awaits isinstance_Exception].

Ltac split_turn :=
  repeat match goal with
    | |- context [if ?b then _ else _] =>
        lazymatch b with
        | true => fail
        | false => fail
        | _ => destruct b; cbv beta iota delta [isinstance_Exception]
        end
    | |- context [match ?x with _ => _ end] =>
        lazymatch x with
        | Some _ => fail
        | None => fail
        | JsonChoices _ => fail
        | JsonNoChoices => fail
        | JsonMalformed => fail
        | _ => idtac
        end;
        match type of x with
        | json_body => destruct x; cbv beta iota delta [isinstance_Exception]
        | option nat => destruct x; cbv beta iota delta [isinstance_Exception]
        end
    end.

(** What a turn leaves behind: its call, then at most sleeps; the pool
    as it was, the cursor where the key step put it. *)
Lemma turn_effect :
  (exists after,
     trace (task (snd turn)) = app (trace (task after_call)) after /\
     Forall is_sleep after) /\
  api_keys (svc (snd turn)) = api_keys (svc c) /\
  current_key_index (svc (snd turn)) = current_key_index (svc (keyed attempt c)) /\
  api_url (svc (snd turn)) = api_url (svc c) /\
  models (svc (snd turn)) = models (svc c) /\
  (fst turn = Ok Continue -> svc (snd turn) = svc (keyed attempt c)).
Proof.
  destruct keyed_frame as (Hk & Hu & Hm & _).
  remember turn as t eqn:E. revert E.
  to_call. destruct outcome_of_call as [status body| | |msg];
    cbv beta iota delta [isinstance_Exception].
  all: split_turn; run_turn; split_turn; run_turn.
  all: intros ->; cbn [fst snd svc task trace].
  all: (split;
        [first [ exists []; split; [symmetry; apply app_nil_r|constructor]
               | eexists; split; [reflexivity|repeat constructor] ]|]).
  all: repeat split; try assumption; try reflexivity; try discriminate.
Qed.

(** A call that times out or cannot connect is followed by a blocking
    sleep at most: the turn has no await, so nothing can cancel it. *)
Lemma turn_blocked :
  outcome_of_call = PostTimeout \/ outcome_of_call = PostConnectionError ->
  fst turn = Ok (verdict em um conf (attempt <? max - 1)%nat outcome_of_call) /\
  (exists after,
     trace (task (snd turn)) = app (trace (task after_call)) after /\
     Forall is_blocking_sleep after) /\
  svc (snd turn) = svc (keyed attempt c).
Proof.
  intros Hcall. remember turn as t eqn:E. revert E.
  to_call. unfold verdict.
  destruct Hcall as [-> | ->]; cbv beta iota delta [isinstance_Exception is_answer];
    cbn [orb negb]; destruct (attempt <? max - 1)%nat; run_turn;
    intros ->; cbn [fst snd svc task trace negb].
  all: (split; [reflexivity|split; [|reflexivity]]).
  all: first [ exists []; split; [symmetry; apply app_nil_r|constructor]
             | eexists; split; [reflexivity|repeat constructor] ].
Qed.

End AnyTurn.

(** ** The calls of a dispatch *)

Section Calls.
Import LLM Service Trace Run Dispatch.

Lemma calls_app t1 t2 : calls (app t1 t2) = app (calls t1) (calls t2).
Proof. apply List.filter_app. Qed.

Lemma calls_of_sleeps after : Forall is_sleep after -> calls after = [].
Proof.
  induction 1 as [|e after He _ IH]; [reflexivity|].
  destruct e; try contradiction; exact IH.
Qed.

Lemma calls_turn_events s m msgs a :
  calls (turn_events s m msgs (fun _ => []) a) = [call s m msgs a].
Proof. unfold turn_events. destruct (0 <? a)%nat; reflexivity. Qed.

(** A turn that starts with the cursor where [a] lookups leave it. *)
Lemma turn_at env um em conf msgs max m s a c :
  rotor_ok s ->
  svc c = advance (Nat.max a 1) s ->
  let r := attempt_body env um em conf msgs max m (key_at s 0) a c in
  (exists after,
     trace (task (snd r)) =
       app (trace (task c)) (app (turn_events s m msgs (fun _ => []) a) after) /\
     Forall is_sleep after) /\
  api_keys (svc (snd r)) = api_keys s /\
  current_key_index (svc (snd r)) = current_key_index (advance (S a) s) /\
  (fst r = Ok Continue -> svc (snd r) = advance (S a) s) /\
  (cancel_at env = None ->
   fst r = Ok (verdict em um conf (a <? max - 1)%nat (answer_to env s m msgs a))).
Proof.
  intros Hs Hc r. subst r.
  assert (Hok : rotor_ok (svc c)) by (rewrite Hc; apply advance_ok, Hs).
  destruct (posted_of_advance s m msgs a c Hs Hc) as (Hsvc & Hkey & Hurl & Htr).
  destruct (turn_effect env um em conf msgs max m (key_at s 0) a c Hok)
    as ((after & Hafter & Hsl) & Hkeys & Hcur & _ & _ & Hcont).
  change (svc (keyed a c)) with (svc (posted m msgs (key_at s 0) a c)) in Hcur, Hcont.
  rewrite Hsvc in Hcur, Hcont.
  split; [|split; [|split; [|split]]].
  - exists after. split; [|exact Hsl]. rewrite Hafter, Htr, <- app_assoc. reflexivity.
  - rewrite Hkeys, Hc. reflexivity.
  - exact Hcur.
  - exact Hcont.
  - intros Hnc. rewrite (turn_verdict env um em conf msgs max m (key_at s 0) a c Hok Hnc).
    unfold answer_to. rewrite Hkey, Hurl. reflexivity.
Qed.

Lemma calls_after_turn s m msgs a t after :
  Forall is_sleep after ->
  calls (app t (app (turn_events s m msgs (fun _ => []) a) after)) =
  app (calls t) [call s m msgs a].
Proof.
  intros Hsl. rewrite !calls_app, calls_turn_events, (calls_of_sleeps _ Hsl), app_nil_r.
  reflexivity.
Qed.

Lemma next_keys_of_sleeps after : Forall is_sleep after -> next_keys after = [].
Proof.
  induction 1 as [|e after He _ IH]; [reflexivity|].
  destruct e; try contradiction; exact IH.
Qed.

Lemma next_keys_after_turn s m msgs a t after :
  Forall is_sleep after ->
  next_keys (app t (app (turn_events s m msgs (fun _ => []) a) after)) =
  app (next_keys t) (turn_keys s a).
Proof.
  intros Hsl. rewrite !next_keys_app, (next_keys_of_sleeps _ Hsl), app_nil_r.
  unfold turn_events, turn_keys. destruct (0 <? a)%nat; reflexivity.
Qed.

Lemma turn_keys_then s a k :
  app (turn_keys s a) (map (key_at s) (seq (S a) k)) =
  map (key_at s) (seq (Nat.max a 1) (a + S k - Nat.max a 1)).
Proof.
  unfold turn_keys. destruct a as [|a].
  - cbn [Nat.ltb Nat.leb Nat.max app]. replace (0 + S k - 1)%nat with k by lia. reflexivity.
  - change (0 <? S a)%nat with true.
    replace (Nat.max (S a) 1) with (S a) by lia.
    replace (S a + S k - S a)%nat with (S k) by lia. reflexivity.
Qed.

Lemma turn_keys_alone s a :
  turn_keys s a = map (key_at s) (seq (Nat.max a 1) (a + 1 - Nat.max a 1)).
Proof.
  rewrite <- (turn_keys_then s a 0). cbn [seq map]. rewrite app_nil_r. reflexivity.
Qed.

(** The loop of a dispatch that has the service to itself, whatever the
    outside does: one call per turn taken, in the order of the attempts,
    each with the key of its turn. *)
Lemma loop_calls env um em conf msgs max m s :
  rotor_ok s ->
  forall n a c,
    svc c = advance (Nat.max a 1) s ->
    let r := for_attempts (attempt_body env um em conf msgs max m (key_at s 0)) (seq a n) c in
    exists k,
      (k <= n)%nat /\ (1 <= n -> 1 <= k)%nat /\
      calls (trace (task (snd r))) =
        app (calls (trace (task c))) (map (call s m msgs) (seq a k)) /\
      api_keys (svc (snd r)) = api_keys s /\
      next_keys (trace (task (snd r))) =
        app (next_keys (trace (task c)))
          (map (key_at s) (seq (Nat.max a 1) (a + k - Nat.max a 1))).
Proof.
  intros Hs. induction n as [|n IH]; intros a c Hc r; subst r.
  - exists 0%nat. simpl. rewrite app_nil_r, Hc.
    replace (a + 0 - Nat.max a 1)%nat with 0%nat by lia. cbn [seq map].
    rewrite app_nil_r. repeat split; try lia; reflexivity.
  - cbn [seq for_attempts]. unfold bind.
    destruct (turn_at env um em conf msgs max m s a c Hs Hc)
      as ((after & Htr & Hsl) & Hkeys & _ & Hcont & _).
    destruct (attempt_body env um em conf msgs max m (key_at s 0) a c) as [[[|text]|e|] c1];
      cbn [fst snd] in *; cbv beta iota; unfold ret; cbn [fst snd].
    + specialize (Hcont eq_refl).
      destruct (IH (S a) c1) as (k & Hk & _ & Hcalls & Hkeys' & Hnext).
      { rewrite Hcont. f_equal. lia. }
      exists (S k). split; [lia|]. split; [lia|]. split; [|split; [exact Hkeys'|]].
      * rewrite Hcalls, Htr, (calls_after_turn _ _ _ _ _ _ Hsl), <- app_assoc. reflexivity.
      * rewrite Hnext, Htr, (next_keys_after_turn _ _ _ _ _ _ Hsl), <- app_assoc.
        replace (Nat.max (S a) 1) with (S a) by lia.
        replace (S a + k - S a)%nat with k by lia.
        rewrite turn_keys_then. reflexivity.
    + exists 1%nat. split; [lia|]. split; [lia|]. split; [|split; [exact Hkeys|]].
      * rewrite Htr. apply calls_after_turn. exact Hsl.
      * rewrite Htr, (next_keys_after_turn _ _ _ _ _ _ Hsl), turn_keys_alone. reflexivity.
    + exists 1%nat. split; [lia|]. split; [lia|]. split; [|split; [exact Hkeys|]].
      * rewrite Htr. apply calls_after_turn. exact Hsl.
      * rewrite Htr, (next_keys_after_turn _ _ _ _ _ _ Hsl), turn_keys_alone. reflexivity.
    + exists 1%nat. split; [lia|]. split; [lia|]. split; [|split; [exact Hkeys|]].
      * rewrite Htr. apply calls_after_turn. exact Hsl.
      * rewrite Htr, (next_keys_after_turn _ _ _ _ _ _ Hsl), turn_keys_alone. reflexivity.
Qed.

Lemma max_retries_ge s : rotor_ok s -> (1 <= max_retries s)%nat.
Proof. intros Hs. pose proof (max_retries_pos s Hs). lia. Qed.

Lemma dispatch_calls env um em conf cm subj s :
  service_ok s ->
  let r := create_empathetic_response env um em conf cm subj (fresh s) in
  exists k,
    (k <= max_retries s)%nat /\
    (cancel_at env <> Some 0%nat -> (1 <= k)%nat) /\
    calls (trace (task (snd r))) =
      map (call s (selected_model env s) (build_messages um em cm subj)) (seq 0 k) /\
    next_keys (trace (task (snd r))) = map (key_at s) (seq 0 k).
Proof.
  intros Hs r. subst r.
  destruct (decide (cancel_at env = Some 0%nat)) as [Hc|Hc].
  - exists 0%nat. split; [lia|]. split; [contradiction|].
    unfold create_empathetic_response, bind, uniform, asyncio_sleep, bind, log, gets, modify.
    cbn [fst snd svc task trace draws awaits fresh new_task]. rewrite Hc.
    split; reflexivity.
  - rewrite run_create by (try exact Hs; exact Hc).
    change (svc (fresh s)) with s.
    match goal with
    | |- context [bind ?loop ?k ?c] =>
        replace (snd (bind loop k c)) with (snd (loop c))
          by (unfold bind, ret; destruct (loop c) as [[[t|]|e|] c']; reflexivity)
    end.
    destruct (loop_calls env um em conf (build_messages um em cm subj)
                (max_retries s) (selected_model env s) s
                (rotor _ Hs) (max_retries s) 0%nat (loop_entry env (fresh s)) eq_refl)
      as (k & Hk & Hk1 & Hcalls & _ & Hnext).
    pose proof (Hk1 (max_retries_ge _ (rotor _ Hs))) as Hpos.
    exists k. split; [exact Hk|]. split; [intros _; exact Hpos|]. split.
    + cbv zeta in Hcalls. rewrite Hcalls, loop_entry_trace. reflexivity.
    + cbv zeta in Hnext. rewrite Hnext, loop_entry_trace.
      change (svc (fresh s)) with s. change (Nat.max 0 1) with 1%nat.
      destruct k as [|k]; [lia|]. replace (0 + S k - 1)%nat with k by lia. reflexivity.
Qed.

Lemma imap_keys {B} (f : nat -> string -> B) (g : nat -> string) k : forall n,
  imap (fun i => f (n + i)%nat) (map g (seq n k)) = map (fun a => f a (g a)) (seq n k).
Proof.
  induction k as [|k IH]; intros n; [reflexivity|].
  cbn [seq map imap]. rewrite Nat.add_0_r. f_equal.
  rewrite <- (IH (S n)). apply imap_ext. intros i x _. cbn. f_equal. lia.
Qed.

(** Calls and keys of a dispatch, paired. *)
Lemma dispatch_calls_by_key env um em conf cm subj s :
  service_ok s ->
  let tr := trace (task (snd (create_empathetic_response env um em conf cm subj (fresh s)))) in
  (length (next_keys tr) <= max_retries s)%nat /\
  (cancel_at env <> Some 0%nat -> next_keys tr <> []) /\
  length (calls tr) = length (next_keys tr) /\
  calls tr =
    imap (call_with s (selected_model env s) (build_messages um em cm subj)) (next_keys tr).
Proof.
  intros Hs tr. subst tr.
  destruct (dispatch_calls env um em conf cm subj s Hs) as (k & Hk & H1 & Hcalls & Hnext).
  cbv zeta in Hcalls, Hnext. rewrite Hcalls, Hnext, !length_map, !length_seq.
  split; [exact Hk|]. split; [|split; [reflexivity|]].
  - intros Hc. specialize (H1 Hc). destruct k; [lia|discriminate].
  - symmetry.
    exact (imap_keys (call_with s (selected_model env s) (build_messages um em cm subj))
             (key_at s) k 0).
Qed.

(** Property X13.  Whatever the outside does, the calls of a dispatch are one per key
    that the dispatch was handed, in the order of the keys: attempt [a]
    carries the key of the [a]-th lookup, and all carry the same model,
    messages and 30 second timeout to the same address.  There are at
    most twice as many as the pool has keys, and a dispatch that is not
    cancelled in its first delay makes one. *)
Theorem calls_of_a_dispatch env um em conf cm subj s :
  service_ok s ->
  let tr := trace (task (snd (create_empathetic_response env um em conf cm subj (fresh s)))) in
  (length (next_keys tr) <= 2 * length (api_keys s))%nat /\
  (cancel_at env <> Some 0%nat -> next_keys tr <> []) /\
  calls tr =
    imap (call_with s (selected_model env s) (build_messages um em cm subj)) (next_keys tr).
Proof.
  intros Hs tr.
  destruct (dispatch_calls_by_key env um em conf cm subj s Hs) as (Hk & H1 & _ & Hc).
  unfold max_retries in Hk. split; [fold tr in Hk; lia|]. split; [exact H1|exact Hc].
Qed.

Lemma no_posts_no_calls tr : posts tr = [] -> calls tr = [].
Proof.
  induction tr as [|e tr IH]; [reflexivity|].
  destruct e; cbn; try exact IH. discriminate.
Qed.

(** Claim C7.  On a service with a configured pool, in a request that is
    not cancelled during its first delay, the model is drawn exactly once,
    before every call; there is a call, and the payload of every call
    carries the model that was drawn. *)
Theorem model_chosen_once env um em conf cm subj s :
  service_ok s -> cancel_at env <> Some 0%nat ->
  let tr := trace (task (snd (create_empathetic_response env um em conf cm subj (fresh s)))) in
  let m := selected_model env s in
  exists pre rest,
    tr = app pre (EvChoice m :: rest) /\
    choices pre = [] /\ posts pre = [] /\
    choices rest = [] /\ posts rest <> [] /\
    Forall (fun x : nat * Headers * Payload => model (snd x) = m) (posts rest).
Proof.
  intros Hs Hnc tr m.
  destruct (dispatch_calls env um em conf cm subj s Hs) as (k & _ & Hk & Hcalls & _).
  specialize (Hk Hnc). cbv zeta in Hcalls. fold tr in Hcalls.
  assert (Hsome : calls tr <> []).
  { rewrite Hcalls. destruct k; [lia|discriminate]. }
  destruct (model_drawn_before_calls env um em conf cm subj s)
    as [[_ Hnone]|(pre & rest & Htr & Hc1 & Hp1 & Hc2 & Hall)].
  - exfalso. apply Hsome. apply no_posts_no_calls. exact Hnone.
  - exists pre, rest. fold tr in Htr. fold m in Htr, Hall.
    split; [exact Htr|]. split; [exact Hc1|]. split; [exact Hp1|]. split; [exact Hc2|].
    split; [|exact Hall].
    intros Hnone. apply Hsome. rewrite Htr, calls_app.
    rewrite (no_posts_no_calls _ Hp1). cbn. apply no_posts_no_calls. exact Hnone.
Qed.

End Calls.

(** ** Which attempt decides the reply *)

Section Decision.
Import LLM Service Trace Run Dispatch.

Variables (env : Env) (um em : string) (conf : Q) (msgs : list Message)
          (m : string) (s : LLMService) (k : nat).
Hypothesis Hs : rotor_ok s.
Hypothesis Hnc : cancel_at env = None.
Hypothesis Hk : (k < max_retries s)%nat.
Hypothesis Hbefore :
  forall a, (a < k)%nat -> is_answer (answer_to env s m msgs a) = false.
Hypothesis Hat :
  is_answer (answer_to env s m msgs k) = true \/ k = (max_retries s - 1)%nat.

Local Abbreviation body := (attempt_body env um em conf msgs (max_retries s) m (key_at s 0)).

Lemma answer_inv r :
  is_answer r = true -> exists text, r = Response 200 (JsonChoices text).
Proof.
  destruct r as [status [text| |]| | |]; try discriminate. simpl.
  intros H. apply Z.eqb_eq in H. subst status. exists text. reflexivity.
Qed.

Lemma loop_decided :
  forall n a c,
    (a + n = max_retries s)%nat -> (a <= k)%nat ->
    svc c = advance (Nat.max a 1) s ->
    let r := for_attempts body (seq a n) c in
    fst r = Ok (Some (last_word em um conf (answer_to env s m msgs k))) /\
    calls (trace (task (snd r))) =
      app (calls (trace (task c))) (map (call s m msgs) (seq a (S k - a))) /\
    current_key_index (svc (snd r)) = current_key_index (advance (S k) s) /\
    (is_answer (answer_to env s m msgs k) = true ->
     last_used_key (svc (snd r)) = Some (key_at s k) /\
     last_used_model (svc (snd r)) = Some m).
Proof.
  induction n as [|n IH]; intros a c Han Hak Hc r; subst r; [lia|].
  cbn [seq for_attempts]. unfold bind.
  destruct (turn_at env um em conf msgs (max_retries s) m s a c Hs Hc)
    as ((after & Htr & Hsl) & _ & Hcur & Hcont & Hverdict).
  specialize (Hverdict Hnc). unfold verdict in Hverdict.
  destruct (Nat.eq_dec a k) as [->|Hne].
  - assert (Hret : is_answer (answer_to env s m msgs k)
                   || negb (k <? max_retries s - 1)%nat = true).
    { destruct Hat as [->| ->]; [reflexivity|].
      rewrite Nat.ltb_irrefl. apply orb_true_r. }
    rewrite Hret in Hverdict.
    assert (Hused : is_answer (answer_to env s m msgs k) = true ->
              last_used_key (svc (snd (body k c))) = Some (key_at s k) /\
              last_used_model (svc (snd (body k c))) = Some m).
    { intros Ha. destruct (answer_inv _ Ha) as [text Hr].
      assert (Hok : rotor_ok (svc c)) by (rewrite Hc; apply advance_ok, Hs).
      destruct (posted_of_advance s m msgs k c Hs Hc) as (_ & Hkey & Hurl & _).
      unfold answer_to in Hr. rewrite <- Hkey, <- Hurl in Hr.
      rewrite (turn_success env um em conf msgs (max_retries s) m (key_at s 0) k c Hok
                 200 (JsonChoices text) Hr text eq_refl eq_refl).
      cbn [snd]. rewrite svc_used. cbn. rewrite Hkey. auto. }
    destruct (body k c) as [[[|text]|e|] c1]; cbn [fst snd] in *; try discriminate Hverdict.
    injection Hverdict as ->. cbv beta iota. unfold ret. cbn [fst snd].
    replace (S k - k)%nat with 1%nat by lia.
    split; [reflexivity|]. split; [|split; [exact Hcur|exact Hused]].
    rewrite Htr. apply calls_after_turn. exact Hsl.
  - assert (Hlt : (a < k)%nat) by lia.
    rewrite (Hbefore a Hlt) in Hverdict.
    assert (Hrem : (a <? max_retries s - 1)%nat = true) by (apply Nat.ltb_lt; lia).
    rewrite Hrem in Hverdict. cbn [orb negb] in Hverdict.
    destruct (body a c) as [[[|text]|e|] c1]; cbn [fst snd] in *; try discriminate Hverdict.
    specialize (Hcont eq_refl). cbv beta iota.
    destruct (IH (S a) c1 ltac:(lia) ltac:(lia)) as (Hr & Hcalls & Hcur' & Hused).
    { rewrite Hcont. f_equal. lia. }
    split; [exact Hr|]. split; [|split; [exact Hcur'|exact Hused]].
    rewrite Hcalls, Htr, (calls_after_turn _ _ _ _ _ _ Hsl), <- app_assoc.
    replace (S k - a)%nat with (S (S k - S a)) by lia. reflexivity.
Qed.

End Decision.

Section Decided.
Import LLM Service Trace Run Dispatch.

Lemma dispatch_decided env um em conf cm subj s k :
  service_ok s -> cancel_at env = None ->
  let m := selected_model env s in
  let msgs := build_messages um em cm subj in
  (k < max_retries s)%nat ->
  (forall a, (a < k)%nat -> is_answer (answer_to env s m msgs a) = false) ->
  is_answer (answer_to env s m msgs k) = true \/ k = (max_retries s - 1)%nat ->
  let r := create_empathetic_response env um em conf cm subj (fresh s) in
  fst r = Ok (last_word em um conf (answer_to env s m msgs k)) /\
  calls (trace (task (snd r))) = map (call s m msgs) (seq 0 (S k)) /\
  current_key_index (svc (snd r)) = current_key_index (advance (S k) s) /\
  (is_answer (answer_to env s m msgs k) = true ->
   last_used_key (svc (snd r)) = Some (key_at s k) /\
   last_used_model (svc (snd r)) = Some m).
Proof.
  intros Hs Hnc m msgs Hk Hbefore Hat r. subst r.
  rewrite run_create by (try exact Hs; rewrite Hnc; discriminate).
  change (svc (fresh s)) with s. fold m msgs.
  destruct (loop_decided env um em conf msgs m s k (rotor _ Hs) Hnc Hk Hbefore Hat
              (max_retries s) 0%nat (loop_entry env (fresh s)) eq_refl ltac:(lia) eq_refl)
    as (Hr & Hcalls & Hcur & Hused).
  cbv zeta in Hr, Hcalls, Hcur, Hused. unfold bind.
  destruct (for_attempts _ _ _) as [[[text|]|e|] c']; cbn [fst snd] in *;
    try discriminate Hr.
  injection Hr as ->. unfold ret. cbn [fst snd].
  split; [reflexivity|]. split; [|split; [exact Hcur|exact Hused]].
  rewrite Hcalls, loop_entry_trace. rewrite Nat.sub_0_r. reflexivity.
Qed.

(** Property X14.  When no attempt but perhaps the last gets an answer, the dispatch
    makes all its attempts and the last one alone decides the reply: the
    enhanced answer, or the canned reply that goes with the way the last
    call ended.  How the earlier attempts failed leaves no mark on it. *)
Theorem last_attempt_decides env um em conf cm subj s :
  service_ok s -> cancel_at env = None ->
  let m := selected_model env s in
  let msgs := build_messages um em cm subj in
  let last := (max_retries s - 1)%nat in
  (forall a, (a < last)%nat -> is_answer (answer_to env s m msgs a) = false) ->
  let r := create_empathetic_response env um em conf cm subj (fresh s) in
  fst r = Ok (last_word em um conf (answer_to env s m msgs last)) /\
  calls (trace (task (snd r))) = map (call s m msgs) (seq 0 (max_retries s)).
Proof.
  intros Hs Hnc m msgs last Hbefore r.
  pose proof (max_retries_pos s (rotor _ Hs)) as Hpos.
  destruct (dispatch_decided env um em conf cm subj s last Hs Hnc ltac:(subst last; lia)
              Hbefore (or_intror eq_refl)) as (Hr & Hcalls & _).
  subst r. split; [exact Hr|]. rewrite Hcalls. subst last.
  replace (S (max_retries s - 1)) with (max_retries s) by lia. reflexivity.
Qed.

(** Property X15.  The first attempt that gets status 200 with a first choice, whatever
    key it carries, ends the dispatch: the reply is that answer, stripped
    and enhanced, no further call is made (one key was handed out and one
    call made per attempt so far), and the key of the last call and the
    model are noted as last used. *)
Theorem first_answer_ends_dispatch env um em conf cm subj s k text :
  service_ok s -> cancel_at env = None ->
  let m := selected_model env s in
  let msgs := build_messages um em cm subj in
  (k < max_retries s)%nat ->
  (forall a key, (a < k)%nat -> is_answer (answer_with env s m msgs a key) = false) ->
  (forall key, answer_with env s m msgs k key = Response 200 (JsonChoices text)) ->
  let r := create_empathetic_response env um em conf cm subj (fresh s) in
  let tr := trace (task (snd r)) in
  fst r = Ok (_enhance_educational_response (strip text) em conf) /\
  length (next_keys tr) = S k /\
  calls tr = imap (call_with s m msgs) (next_keys tr) /\
  last_used_key (svc (snd r)) = last (next_keys tr) /\
  last_used_model (svc (snd r)) = Some m.
Proof.
  intros Hs Hnc m msgs Hk Hbefore Hanswer r tr.
  assert (Hat : answer_to env s m msgs k = Response 200 (JsonChoices text))
    by apply (Hanswer (key_at s k)).
  assert (Ha : is_answer (answer_to env s m msgs k) = true) by (rewrite Hat; reflexivity).
  destruct (dispatch_decided env um em conf cm subj s k Hs Hnc Hk
              (fun a Hlt => Hbefore a (key_at s a) Hlt) (or_introl Ha))
    as (Hr & Hcalls & _ & Hused).
  destruct (Hused Ha) as [Hkey Hmodel].
  fold m msgs in Hr, Hcalls. rewrite Hat in Hr. fold r in Hr, Hcalls, Hkey, Hmodel.
  destruct (dispatch_calls env um em conf cm subj s Hs) as (k' & _ & _ & Hcalls' & Hnext).
  destruct (dispatch_calls_by_key env um em conf cm subj s Hs) as (_ & _ & _ & Hpaired).
  cbv zeta in Hcalls', Hnext, Hpaired. fold r in Hcalls', Hnext, Hpaired.
  fold tr in Hcalls, Hcalls', Hnext, Hpaired. fold m msgs in Hpaired.
  assert (k' = S k) as ->.
  { apply (f_equal (@length _)) in Hcalls'. rewrite Hcalls in Hcalls'.
    rewrite !length_map, !length_seq in Hcalls'. symmetry. exact Hcalls'. }
  split; [exact Hr|]. split; [rewrite Hnext, length_map, length_seq; reflexivity|].
  split; [exact Hpaired|]. split; [|exact Hmodel].
  rewrite Hkey, Hnext, seq_S, map_app. cbn [map]. rewrite last_snoc. reflexivity.
Qed.

End Decided.

(** ** Retries that block *)

Section Blocking.
Import LLM Service Trace Run Dispatch.

Lemma awaited_app t1 t2 :
  awaited_delays (app t1 t2) = app (awaited_delays t1) (awaited_delays t2).
Proof. apply omap_app. Qed.

Lemma awaited_blocking after : Forall is_blocking_sleep after -> awaited_delays after = [].
Proof.
  induction 1 as [|e after He _ IH]; [reflexivity|].
  destruct e; try contradiction; exact IH.
Qed.

Lemma awaited_turn_events s m msgs a :
  awaited_delays (turn_events s m msgs (fun _ => []) a) = [].
Proof. unfold turn_events. destruct (0 <? a)%nat; reflexivity. Qed.

Lemma blocking_is_sleep after : Forall is_blocking_sleep after -> Forall is_sleep after.
Proof.
  intros H. eapply Forall_impl; [exact H|]. intros e. destruct e; simpl; tauto.
Qed.

Variables (env : Env) (um em : string) (conf : Q) (msgs : list Message)
          (m : string) (s : LLMService).
Hypothesis Hs : rotor_ok s.
Hypothesis Hfail :
  forall a, (a < max_retries s)%nat ->
    answer_to env s m msgs a = PostTimeout \/
    answer_to env s m msgs a = PostConnectionError.

Local Abbreviation body := (attempt_body env um em conf msgs (max_retries s) m (key_at s 0)).

Lemma loop_blocked :
  forall n a c,
    (a + n = max_retries s)%nat -> (1 <= n)%nat ->
    svc c = advance (Nat.max a 1) s ->
    let r := for_attempts body (seq a n) c in
    fst r = Ok (Some (last_word em um conf (answer_to env s m msgs (max_retries s - 1)))) /\
    calls (trace (task (snd r))) =
      app (calls (trace (task c))) (map (call s m msgs) (seq a n)) /\
    awaited_delays (trace (task (snd r))) = awaited_delays (trace (task c)).
Proof.
  induction n as [|n IH]; intros a c Han Hn Hc r; subst r; [lia|].
  cbn [seq for_attempts]. unfold bind.
  assert (Hok : rotor_ok (svc c)) by (rewrite Hc; apply advance_ok, Hs).
  destruct (posted_of_advance s m msgs a c Hs Hc) as (Hsvc & Hkey & Hurl & Htr).
  pose proof (Hfail a ltac:(lia)) as Hcall.
  unfold answer_to in Hcall. rewrite <- Hkey, <- Hurl in Hcall.
  destruct (turn_blocked env um em conf msgs (max_retries s) m (key_at s 0) a c Hok Hcall)
    as (Hverdict & (after & Hafter & Hbl) & Hsvc').
  change (svc (keyed a c)) with (svc (posted m msgs (key_at s 0) a c)) in Hsvc'.
  rewrite Hsvc in Hsvc'. rewrite Htr in Hafter. rewrite <- app_assoc in Hafter.
  rewrite Hkey, Hurl in Hverdict. fold (answer_to env s m msgs a) in Hverdict.
  assert (Hna : is_answer (answer_to env s m msgs a) = false).
  { destruct (Hfail a ltac:(lia)) as [-> | ->]; reflexivity. }
  unfold verdict in Hverdict. rewrite Hna in Hverdict. cbn [orb] in Hverdict.
  assert (Hcalls1 : calls (trace (task (snd (body a c)))) =
                    app (calls (trace (task c))) [call s m msgs a]).
  { rewrite Hafter. apply calls_after_turn, blocking_is_sleep, Hbl. }
  assert (Haw1 : awaited_delays (trace (task (snd (body a c)))) =
                 awaited_delays (trace (task c))).
  { rewrite Hafter, !awaited_app, awaited_turn_events, (awaited_blocking _ Hbl), app_nil_r.
    reflexivity. }
  destruct n as [|n].
  - assert (a = max_retries s - 1)%nat as Ha by lia.
    assert (Hrem : (a <? max_retries s - 1)%nat = false) by (apply Nat.ltb_ge; lia).
    rewrite Hrem in Hverdict. cbn [negb] in Hverdict.
    destruct (body a c) as [[[|text]|e|] c1]; cbn [fst snd] in *; try discriminate Hverdict.
    injection Hverdict as ->. cbv beta iota. unfold ret. cbn [fst snd seq map].
    rewrite Ha at 1. auto.
  - assert (Hrem : (a <? max_retries s - 1)%nat = true) by (apply Nat.ltb_lt; lia).
    rewrite Hrem in Hverdict. cbn [negb] in Hverdict.
    destruct (body a c) as [[[|text]|e|] c1]; cbn [fst snd] in *; try discriminate Hverdict.
    cbv beta iota.
    destruct (IH (S a) c1 ltac:(lia) ltac:(lia)) as (Hr & Hcalls & Haw).
    { rewrite Hsvc'. f_equal. lia. }
    split; [exact Hr|]. split.
    + rewrite Hcalls, Hcalls1, <- app_assoc. reflexivity.
    + rewrite Haw. exact Haw1.
Qed.

End Blocking.

Section Blocked.
Import LLM Service Trace Run Dispatch.

(** Property X16.  After a time-out or a connection failure the loop waits with
    [time.sleep], not with an await.  So when every call ends in one of
    the two, the first delay is the only await of the dispatch: a
    cancellation that does not strike there never reaches it, and it
    makes every attempt and returns the canned reply of the last failure. *)
Theorem blocking_retries_cannot_be_cancelled env um em conf cm subj s :
  service_ok s -> cancel_at env <> Some 0%nat ->
  let m := selected_model env s in
  let msgs := build_messages um em cm subj in
  (forall a, (a < max_retries s)%nat ->
     answer_to env s m msgs a = PostTimeout \/
     answer_to env s m msgs a = PostConnectionError) ->
  let r := create_empathetic_response env um em conf cm subj (fresh s) in
  fst r = Ok (last_word em um conf (answer_to env s m msgs (max_retries s - 1))) /\
  calls (trace (task (snd r))) = map (call s m msgs) (seq 0 (max_retries s)) /\
  awaited_delays (trace (task (snd r))) = [initial_delay env (fresh s)].
Proof.
  intros Hs Hnc m msgs Hfail r. subst r.
  rewrite run_create by (try exact Hs; exact Hnc).
  change (svc (fresh s)) with s. fold m msgs.
  destruct (loop_blocked env um em conf msgs m s (rotor _ Hs) Hfail
              (max_retries s) 0%nat (loop_entry env (fresh s)) eq_refl
              (max_retries_ge s (rotor _ Hs)) eq_refl)
    as (Hr & Hcalls & Haw).
  cbv zeta in Hr, Hcalls, Haw. unfold bind.
  destruct (for_attempts _ _ _) as [[[text|]|e|] c']; cbn [fst snd] in *;
    try discriminate Hr.
  injection Hr as ->. unfold ret. cbn [fst snd].
  split; [reflexivity|]. split.
  - rewrite Hcalls, loop_entry_trace. reflexivity.
  - rewrite Haw, loop_entry_trace. reflexivity.
Qed.

End Blocked.



(** ** Prompts and canned replies *)

Section Tables.
Import LLM Dispatch.

Lemma dict_get_unknown d k default :
  ~ In k (map fst d) -> dict_get d k default = default.
Proof.
  induction d as [|[k' v] d IH]; intros Hk; [reflexivity|]. simpl in *.
  destruct (String.eqb_spec k' k) as [->|_]; [tauto|]. apply IH. tauto.
Qed.

Lemma dict_mem_unknown d k : ~ In k (map fst d) -> dict_mem d k = false.
Proof.
  induction d as [|[k' v] d IH]; intros Hk; [reflexivity|]. simpl in *.
  destruct (String.eqb_spec k' k) as [->|_]; [tauto|]. apply IH. tauto.
Qed.

Lemma dict_get_cases d k default :
  dict_get d k default = default \/ In (dict_get d k default) (map snd d).
Proof.
  induction d as [|[k' v] d IH]; [left; reflexivity|]. simpl.
  destruct (String.eqb k' k); [right; left; reflexivity|].
  destruct IH as [IH|IH]; [left; exact IH|right; right; exact IH].
Qed.

Lemma app_nonempty s t : s <> EmptyString -> (s ++ t) <> EmptyString.
Proof. destruct s; [congruence|discriminate]. Qed.

Lemma table_reply_nonempty d emotion :
  forallb nonempty (map snd d) = true ->
  dict_get d "Netral" EmptyString <> EmptyString ->
  dict_get d emotion (dict_get d "Netral" EmptyString) <> EmptyString.
Proof.
  intros Hall Hn.
  destruct (dict_get_cases d emotion (dict_get d "Netral" EmptyString)) as [->|Hin];
    [exact Hn|].
  rewrite forallb_forall in Hall. specialize (Hall _ Hin).
  intros E. rewrite E in Hall. discriminate Hall.
Qed.

(** Property X18.  Every canned reply has a text, whatever label the classifier gave
    and whatever the message. *)
Theorem canned_replies_are_never_blank (emotion user_message : string) :
  _get_fallback_response emotion user_message <> EmptyString /\
  _get_rate_limit_fallback emotion <> EmptyString /\
  _get_timeout_fallback emotion <> EmptyString /\
  _get_connection_fallback emotion <> EmptyString.
Proof.
  split; [|split; [|split]].
  - unfold _get_fallback_response.
    assert (H : dict_get fallbacks emotion (dict_get fallbacks "Netral" EmptyString)
                <> EmptyString)
      by (apply table_reply_nonempty; [reflexivity|discriminate]).
    destruct (any_in _ _); [apply app_nonempty, H|].
    destruct (any_in _ _); [apply app_nonempty, H|].
    destruct (any_in _ _); [apply app_nonempty, H|exact H].
  - apply table_reply_nonempty; [reflexivity|discriminate].
  - apply table_reply_nonempty; [reflexivity|discriminate].
  - apply table_reply_nonempty; [reflexivity|discriminate].
Qed.

Lemma unknown_tables emotion :
  ~ In emotion known_emotions ->
  (forall user_message,
     _get_fallback_response emotion user_message =
     _get_fallback_response "Netral" user_message) /\
  _get_rate_limit_fallback emotion = _get_rate_limit_fallback "Netral" /\
  _get_timeout_fallback emotion = _get_timeout_fallback "Netral" /\
  _get_connection_fallback emotion = _get_connection_fallback "Netral" /\
  (forall subject,
     get_educational_system_prompt emotion subject =
     get_educational_system_prompt "Netral" subject) /\
  dict_mem learning_tips emotion = false.
Proof.
  intros Hu.
  assert (Hget : forall d, incl (map fst d) known_emotions ->
            forall default, dict_get d emotion default = default).
  { intros d Hd default. apply dict_get_unknown. intros Hin. apply Hu, Hd, Hin. }
  assert (Hall : forall l, l = known_emotions -> incl l known_emotions)
    by (intros l ->; apply incl_refl).
  split; [|split; [|split; [|split; [|split]]]].
  - intros um. unfold _get_fallback_response.
    rewrite (Hget fallbacks (Hall _ eq_refl)). reflexivity.
  - unfold _get_rate_limit_fallback.
    rewrite (Hget rate_limit_responses (Hall _ eq_refl)). reflexivity.
  - unfold _get_timeout_fallback.
    rewrite (Hget timeout_responses (Hall _ eq_refl)). reflexivity.
  - unfold _get_connection_fallback.
    rewrite (Hget connection_responses (Hall _ eq_refl)). reflexivity.
  - intros subject. unfold get_educational_system_prompt.
    rewrite (Hget emotion_templates (Hall _ eq_refl)). reflexivity.
  - apply dict_mem_unknown. intros Hin. apply Hu.
    simpl in Hin. unfold known_emotions. simpl. tauto.
Qed.

Lemma prefix_refl s : String.prefix s s = true.
Proof.
  induction s as [|c s IH]; [reflexivity|]. simpl.
  destruct (ascii_dec c c); [exact IH|congruence].
Qed.

Lemma prefix_app_r s t u : String.prefix s t = true -> String.prefix s (t ++ u) = true.
Proof.
  revert t. induction s as [|c s IH]; intros t H; [destruct (t ++ u); reflexivity|].
  destruct t as [|d t]; [discriminate H|].
  change (String d t ++ u) with (String d (t ++ u)).
  change (String.prefix (String c s) (String d (t ++ u)))
    with (if ascii_dec c d then String.prefix s (t ++ u) else false).
  change (String.prefix (String c s) (String d t))
    with (if ascii_dec c d then String.prefix s t else false) in H.
  destruct (ascii_dec c d); [apply IH, H|discriminate H].
Qed.

Lemma enhancement_facts (response emotion : string) (confidence : Q) :
  let enhanced := _enhance_educational_response response emotion confidence in
  String.prefix response enhanced = true /\
  ((confidence <= 7 # 10)%Q -> enhanced = response) /\
  ((confidence <= 85 # 100)%Q -> dict_mem learning_tips emotion = false ->
   enhanced = response).
Proof.
  cbv zeta. unfold _enhance_educational_response. split; [|split].
  - destruct (Qltb (85 # 100) confidence);
      destruct (dict_mem learning_tips emotion && Qltb (7 # 10) confidence);
      repeat apply prefix_app_r; apply prefix_refl.
  - intros Hc.
    assert (H1 : Qltb (7 # 10) confidence = false) by (apply Qltb_false_iff; exact Hc).
    assert (H2 : Qltb (85 # 100) confidence = false) by (apply Qltb_false_iff; lra).
    rewrite H1, H2, andb_false_r. reflexivity.
  - intros Hc Htip.
    assert (H2 : Qltb (85 # 100) confidence = false) by (apply Qltb_false_iff; exact Hc).
    rewrite H2, Htip. reflexivity.
Qed.

(** Property X19.  The enhancement never touches the answer of the model: it only
    appends to it, and appends nothing when the confidence is 0.7 or
    less, or when it is 0.85 or less and the label has no learning tip. *)
Theorem enhancement_only_appends (response emotion : string) (confidence : Q) :
  let enhanced := _enhance_educational_response response emotion confidence in
  String.prefix response enhanced = true /\
  ((confidence <= 7 # 10)%Q -> enhanced = response) /\
  ((confidence <= 85 # 100)%Q -> dict_mem learning_tips emotion = false ->
   enhanced = response).
Proof. apply enhancement_facts. Qed.

End Tables.

(** ** Labels the tables do not know *)

Section UnknownLabel.
Import LLM Dispatch.

Lemma bind_ext {S A B} (m : M S A) (k k' : A -> M S B) s :
  (forall a s', k a s' = k' a s') -> bind m k s = bind m k' s.
Proof. intros H. unfold bind. destruct (m s) as [[a|e|] s']; [apply H|reflexivity..]. Qed.

Lemma try_except_ext {S A} (m m' : M S A) h s :
  (forall s', m s' = m' s') -> try_except m h s = try_except m' h s.
Proof. intros H. unfold try_except. rewrite H. reflexivity. Qed.

Lemma for_attempts_ext (body body' : nat -> M Ctx ctl) range :
  (forall a c, body a c = body' a c) ->
  forall c, for_attempts body range c = for_attempts body' range c.
Proof.
  intros H. induction range as [|a range IH]; intros c; [reflexivity|].
  cbn [for_attempts]. unfold bind. rewrite H.
  destruct (body' a c) as [[[|text]|e|] c1]; [apply IH|reflexivity..].
Qed.

Variables (emotion : string) (confidence : Q).
Hypothesis Hunknown : ~ In emotion known_emotions.
Hypothesis Hconf : (confidence <= 85 # 100)%Q.

Lemma enhance_unknown response :
  _enhance_educational_response response emotion confidence =
  _enhance_educational_response response "Netral" confidence.
Proof.
  destruct (unknown_tables emotion Hunknown) as (_ & _ & _ & _ & _ & Htip).
  destruct (enhancement_facts response emotion confidence) as (_ & _ & H1).
  destruct (enhancement_facts response "Netral" confidence) as (_ & _ & H2).
  rewrite (H1 Hconf Htip), (H2 Hconf eq_refl). reflexivity.
Qed.

Lemma attempt_body_unknown env um msgs max m fk attempt c :
  attempt_body env um emotion confidence msgs max m fk attempt c =
  attempt_body env um "Netral" confidence msgs max m fk attempt c.
Proof.
  destruct (unknown_tables emotion Hunknown) as (H1 & H2 & H3 & H4 & _ & _).
  unfold attempt_body. rewrite H1, H2, H3, H4.
  apply try_except_ext. intros s0.
  apply bind_ext. intros key s1. cbv zeta.
  apply bind_ext. intros url s2.
  apply bind_ext. intros [status body] s3.
  destruct (status =? 200); [|reflexivity].
  destruct body as [text| |]; [|reflexivity..].
  rewrite enhance_unknown. reflexivity.
Qed.

Lemma build_messages_unknown um cm subj :
  build_messages um emotion cm subj = build_messages um "Netral" cm subj.
Proof.
  destruct (unknown_tables emotion Hunknown) as (_ & _ & _ & _ & Hp & _).
  unfold build_messages. rewrite Hp. reflexivity.
Qed.

Lemma dispatch_unknown env um cm subj c :
  create_empathetic_response env um emotion confidence cm subj c =
  create_empathetic_response env um "Netral" confidence cm subj c.
Proof.
  destruct (unknown_tables emotion Hunknown) as (H1 & _).
  unfold create_empathetic_response. cbv zeta. rewrite build_messages_unknown, H1.
  apply bind_ext. intros d s1.
  apply bind_ext. intros _ s2.
  apply bind_ext. intros max s3.
  apply bind_ext. intros key s4.
  apply bind_ext. intros m s5.
  unfold bind. rewrite (for_attempts_ext _ _ _ (attempt_body_unknown env um _ max m key)).
  reflexivity.
Qed.

End UnknownLabel.

Section Unknown.
Import LLM Dispatch.

(** Property X20.  A label that the tables do not know is served as [Netral]: with a
    confidence of 0.85 or less, the whole dispatch (prompt, calls, reply,
    canned or enhanced) is the dispatch of the same message with the
    label [Netral], whatever the outside does. *)
Theorem unknown_label_is_served_as_netral env um emotion confidence cm subj c :
  ~ In emotion known_emotions ->
  (confidence <= 85 # 100)%Q ->
  create_empathetic_response env um emotion confidence cm subj c =
  create_empathetic_response env um "Netral" confidence cm subj c.
Proof. intros Hu Hc. apply dispatch_unknown; assumption. Qed.

End Unknown.

(** ** The pool *)

Section Pool.
Import LLM Service.

Lemma nonempty_true s : nonempty s = true -> s <> EmptyString.
Proof. destruct s; [discriminate|discriminate]. Qed.

Lemma clean_filter (raw : list string) :
  Forall (fun key => key <> EmptyString /\ strip key = key)
    (List.filter nonempty (map strip raw)).
Proof.
  apply List.Forall_forall. intros key Hin.
  apply filter_In in Hin as [Hin Hne]. apply in_map_iff in Hin as (x & <- & _).
  split; [apply nonempty_true, Hne|apply strip_idem].
Qed.

(** Property X21.  The constructor keeps, in the order of their numbers, the numbered
    keys that are set and not blank, stripped of surrounding white space;
    so the pool holds at most six keys, none of them empty or padded, the
    cursor is at its start, and one configured key is enough to make the
    service fit for dispatch. *)
Theorem configured_pool_is_clean (getenv : string -> option string) :
  let s := init getenv in
  Forall (fun key => key <> EmptyString /\ strip key = key) (api_keys s) /\
  (length (api_keys s) <= 6)%nat /\
  current_key_index s = 0 /\
  (api_keys s <> [] -> service_ok s).
Proof.
  cbv zeta. split; [|split; [|split]].
  - unfold init. cbv zeta. cbn [api_keys].
    match goal with
    | |- Forall _ (match List.filter nonempty ?l with _ => _ end) =>
        change l with (map strip
          [ default EmptyString (getenv "OPENROUTER_API_KEY_1");
            default EmptyString (getenv "OPENROUTER_API_KEY_2");
            default EmptyString (getenv "OPENROUTER_API_KEY_3");
            default EmptyString (getenv "OPENROUTER_API_KEY_4");
            default EmptyString (getenv "OPENROUTER_API_KEY_5");
            default EmptyString (getenv "OPENROUTER_API_KEY_6") ]);
        pose proof (clean_filter
          [ default EmptyString (getenv "OPENROUTER_API_KEY_1");
            default EmptyString (getenv "OPENROUTER_API_KEY_2");
            default EmptyString (getenv "OPENROUTER_API_KEY_3");
            default EmptyString (getenv "OPENROUTER_API_KEY_4");
            default EmptyString (getenv "OPENROUTER_API_KEY_5");
            default EmptyString (getenv "OPENROUTER_API_KEY_6") ]) as Hclean;
        destruct (List.filter nonempty (map strip _)) as [|key keys]
    end.
    + destruct (nonempty (strip (default EmptyString (getenv "OPENROUTER_API_KEY")))) eqn:E;
        [|constructor].
      apply Forall_cons. split; [|constructor].
      split; [apply nonempty_true, E|apply strip_idem].
    + exact Hclean.
  - unfold init. cbv zeta. cbn [api_keys].
    match goal with
    | |- (length (match List.filter nonempty ?l with _ => _ end) <= 6)%nat =>
        pose proof (List.filter_length_le nonempty l) as Hlen;
        destruct (List.filter nonempty l) as [|key keys]
    end.
    + destruct (nonempty _); simpl; lia.
    + simpl in *. lia.
  - reflexivity.
  - apply init_service_ok.
Qed.

(** *** A full cycle *)

Lemma advance_full s : rotor_ok s -> advance (length (api_keys s)) s = s.
Proof.
  intros [Hk Hc]. unfold advance, set_current_key_index. destruct s as [keys cur url ms lm lk].
  cbn [api_keys current_key_index api_url models last_used_model last_used_key] in *.
  f_equal. unfold pool_size in *. cbn [api_keys] in *.
  rewrite <- (Z.mul_1_l (Z.of_nat (length keys))) at 1.
  rewrite Z.mod_add by lia. apply Z.mod_small. exact Hc.
Qed.

Lemma cycle_full s :
  rotor_ok s ->
  let c := Z.to_nat (current_key_index s) in
  cycle_from s (length (api_keys s)) =
  app (skipn c (api_keys s)) (firstn c (api_keys s)).
Proof.
  intros [Hk Hc] c. unfold pool_size in Hc.
  set (keys := api_keys s) in *. set (K := length keys) in *.
  assert (HcK : (c < K)%nat) by (subst c; lia).
  apply (List.nth_ext _ _ EmptyString EmptyString).
  - unfold cycle_from. rewrite length_map, length_seq, length_app, length_skipn.
    rewrite List.length_firstn. fold K. lia.
  - intros i Hi. unfold cycle_from in *. rewrite length_map, length_seq in Hi.
    rewrite (List.nth_indep _ _ (key_at s 0)) by (rewrite length_map, length_seq; exact Hi).
    rewrite (List.map_nth (key_at s)), List.seq_nth by exact Hi. cbn [Nat.add].
    unfold key_at, pool_size. fold keys K.
    assert (Hcur : current_key_index s = Z.of_nat c) by (subst c; lia).
    rewrite Hcur.
    destruct (Nat.lt_ge_cases (c + i) K) as [Hlt|Hge].
    + rewrite Z.mod_small by lia.
      rewrite List.app_nth1 by (rewrite length_skipn; fold K; lia).
      rewrite List.nth_skipn. f_equal. lia.
    + replace (Z.of_nat c + Z.of_nat i) with (Z.of_nat (c + i - K) + 1 * Z.of_nat K) by lia.
      rewrite Z.mod_add by lia. rewrite Z.mod_small by lia.
      rewrite List.app_nth2 by (rewrite length_skipn; fold K; lia).
      rewrite length_skipn. fold K.
      rewrite List.nth_firstn.
      destruct (Nat.ltb_spec (i - (K - c)) c) as [_|Hbad]; [|lia].
      f_equal. lia.
Qed.

(** Property X22.  As many lookups in a row as there are keys hand out every key of
    the pool once, in pool order from the cursor round to the key before
    it, and leave the service as it was. *)
Theorem full_cycle_is_fair (s : LLMService) :
  rotor_ok s ->
  let c := Z.to_nat (current_key_index s) in
  take_keys (length (api_keys s)) s =
  (Ok (app (skipn c (api_keys s)) (firstn c (api_keys s))), s).
Proof.
  intros Hs c. rewrite (take_keys_ok _ _ Hs), (advance_full _ Hs), (cycle_full _ Hs).
  reflexivity.
Qed.

End Pool.

(** ** Steps of the handler *)

Section Steps.
Import Service Run Quota Handler Chat Serving.

Lemma check_quiet env u w r w' :
  can_user_make_prompt env u w = (Ok r, w') -> quiet w w' /\ uuids w' = uuids w.
Proof.
  unfold can_user_make_prompt, bind, gets, read_clock, ret.
  destruct (PROMPT_LIMIT_ENABLED w) eqn:He; cbn [fst snd];
    destruct (Limiter.can_user_make_prompt _ _ _ _) as [r0 l1];
    intros [= <- <-]; repeat split; cbn; auto.
Qed.

Lemma record_quiet env u w r w' :
  record_prompt env u w = (Ok r, w') -> quiet w w'.
Proof.
  unfold record_prompt, bind, gets, read_clock, ret.
  destruct (PROMPT_LIMIT_ENABLED w) eqn:He; cbn [fst snd user_limiter];
    repeat match goal with
      | |- context [if ?b then _ else _] => destruct b; cbn [fst snd user_limiter]
      | |- context [let (_, _) := ?x in _] => destruct x; cbn [fst snd user_limiter]
      end;
    intros [= <- <-]; repeat split; cbn; auto.
Qed.

Lemma guarded_dispatch_effect env message emotion confidence context conversation w text w' :
  service_ok (llm_service w) ->
  guarded_dispatch env message emotion confidence context conversation w = (Ok text, w') ->
  conversation_service w' = conversation_service w /\
  user_limiter w' = interleaved env (user_limiter w) /\
  PROMPT_LIMIT_ENABLED w' = PROMPT_LIMIT_ENABLED w /\
  clock_reads w' = clock_reads w /\ uuids w' = uuids w /\
  dispatched env (content message) emotion confidence context
    (Conversations.subject conversation)
    (llm_service w) (Chat.task w) (request_queue w) text
    (llm_service w') (Chat.task w') (request_queue w').
Proof.
  intros Hs.
  unfold guarded_dispatch, dispatched, try_except, await, wait_for, queued, zoom,
    Queue.add_request,
    bind, Queue.acquire, try_finally, try_except, Queue.release, Queue.count_request,
    Queue.count_failure, Queue.on_tracker, modify, raise, ret, generate_response, zoom.
  cbn [fst snd]. destruct (Queue._semaphore (request_queue w)) as [|free] eqn:Hsem.
  { intros [= <- <-]. repeat split. }
  cbn [fst snd llm_service Chat.task set_llm set_request_queue].
  destruct (create_empathetic_response_cancellable (llm_env env) (content message) emotion
              confidence (Some context) (Conversations.subject conversation)
              {| LLM.svc := llm_service w; LLM.task := Chat.task w |} Hs) as [_ Hr].
  destruct (LLM.create_empathetic_response _ _ _ _ _ _ _) as [[t|e|] c'] eqn:E;
    cbn [fst snd meets] in *; try contradiction.
  - intros [= <- <-]. cbn. unfold counted. rewrite Hsem, Z.add_0_r. repeat split. left.
    reflexivity.
  - subst e. cbn. intros [= <- <-].
    cbn. unfold counted. rewrite Hsem, Z.add_0_r. repeat split. right. auto.
Qed.

End Steps.

(** ** A request in service *)

Section InService.
Import Service Run Quota Handler Chat Serving.

Variables (env : Env) (user_id : string) (l0 : Limiter.UserPromptLimiter).

(** The quota alone, through a check and through the recording. *)
Lemma quota_first_check w :
  user_limiter w = l0 ->
  exists r w',
    can_user_make_prompt env user_id w = (Ok r, w') /\
    allowed r =
      allowed (fst (Limiter.can_user_make_prompt (PROMPT_LIMIT_ENABLED w)
                      (time_time env (clock_reads w)) user_id l0)) /\
    (allowed r = true -> quota_state user_id l0 true w').
Proof.
  intros Hl. unfold can_user_make_prompt, bind, gets, read_clock, ret.
  destruct (PROMPT_LIMIT_ENABLED w) eqn:He; cbn [fst snd user_limiter]; rewrite Hl.
  - pose proof (check_shrinks true (time_time env (clock_reads w)) user_id l0)
      as (Hm & Hsuf & Hal & _).
    destruct (Limiter.can_user_make_prompt true _ user_id l0) as [r l1].
    cbn [fst snd] in *. eexists _, _. split; [reflexivity|]. split; [reflexivity|].
    intros Hr. split; [exact Hm|]. split; [exact Hsuf|]. intros _ _.
    rewrite (Hal eq_refl) in Hr. apply Z.ltb_lt in Hr. exact Hr.
  - cbn. eexists _, _. split; [reflexivity|]. split; [reflexivity|].
    intros _. split; [reflexivity|]. split; [reflexivity|]. cbn. rewrite He. discriminate.
Qed.

Lemma quota_later_check :
  returns (quota_state user_id l0 true) (can_user_make_prompt env user_id)
    (fun r w => allowed r = true /\ quota_state user_id l0 true w).
Proof.
  intros w (Hm & Hsuf & Hroom).
  unfold can_user_make_prompt, bind, gets, read_clock, ret.
  destruct (PROMPT_LIMIT_ENABLED w) eqn:He; cbn [fst snd user_limiter].
  - pose proof (check_shrinks true (time_time env (clock_reads w)) user_id (user_limiter w))
      as (Hm' & Hsuf' & Hal & _).
    destruct (Limiter.can_user_make_prompt true _ user_id (user_limiter w)) as [r l1].
    cbn [fst snd] in *. eexists _, _. split; [reflexivity|].
    specialize (Hroom eq_refl eq_refl). pose proof (suffix_length_le _ _ Hsuf').
    assert (Hlt : Z.of_nat (length (Limiter.window user_id l1))
                  < Limiter.max_prompts_per_user l0) by lia.
    split.
    + rewrite (Hal eq_refl), Hm. apply Z.ltb_lt. exact Hlt.
    + split; [cbn; congruence|]. split; [cbn; etransitivity; eassumption|].
      intros _ _. exact Hlt.
  - cbn. eexists _, _. split; [reflexivity|]. split; [reflexivity|].
    split; [exact Hm|]. split; [exact Hsuf|]. cbn. rewrite He. discriminate.
Qed.

Variables (conversation_id : string)
  (files0 : gmap (string * string) Conversations.Conversation).

(** A quiet step that leaves the limiter alone keeps the request in
    service. *)
Lemma quota_at_quiet ph w w' :
  PROMPT_LIMIT_ENABLED w' = PROMPT_LIMIT_ENABLED w -> user_limiter w' = user_limiter w ->
  quota_at env user_id l0 ph w -> quota_at env user_id l0 ph w'.
Proof.
  intros He Hl. destruct ph as [|l]; cbn [quota_at].
  - unfold quota_state. rewrite Hl, He. auto.
  - rewrite Hl, He. auto.
Qed.

Lemma quiet_serving ph ph' s t q subject msgs w w' :
  serving_at env ph user_id conversation_id l0 files0 s t q subject msgs w ->
  quiet w w' -> quota_at env user_id l0 ph' w' ->
  serving_at env ph' user_id conversation_id l0 files0 s t q subject msgs w'.
Proof.
  intros [Hq Hst Hot Hl Ht Hqu] (Hc & Hl' & Ht' & Hq' & He) Hquota.
  constructor; [exact Hquota| | |congruence..].
  - unfold stored in *. rewrite Hc. exact Hst.
  - unfold others_as in *. rewrite Hc. exact Hot.
Qed.

Lemma step_check s t q subject msgs :
  returns (serving_at env Checked user_id conversation_id l0 files0 s t q subject msgs)
    (can_user_make_prompt env user_id)
    (fun r w =>
       allowed r = true /\
       serving_at env Checked user_id conversation_id l0 files0 s t q subject msgs w).
Proof.
  intros w H. destruct (quota_later_check w (sa_quota _ _ _ _ _ _ _ _ _ _ _ _ H))
    as (r & w' & E & Ha & Hq).
  exists r, w'. split; [exact E|]. split; [exact Ha|].
  eapply quiet_serving; [exact H|apply (check_quiet _ _ _ _ _ E)|exact Hq].
Qed.

Lemma step_get ph s t q subject msgs :
  returns (serving_at env ph user_id conversation_id l0 files0 s t q subject msgs)
    (get_conversation conversation_id user_id)
    (fun r w =>
       (exists c, r = Some c /\ Conversations.id c = conversation_id /\
                  Conversations.subject c = subject /\ Conversations.messages c = msgs) /\
       serving_at env ph user_id conversation_id l0 files0 s t q subject msgs w).
Proof.
  apply returns_gets. intros w H. split; [|exact H].
  destruct (sa_stored _ _ _ _ _ _ _ _ _ _ _ _ H) as (c & E & Hc). exists c. auto.
Qed.

Lemma step_new ph s t q subject msgs content sender emotion confidence :
  returns (serving_at env ph user_id conversation_id l0 files0 s t q subject msgs)
    (new_ChatMessage env content sender emotion confidence)
    (fun m w =>
       (Conversations.msg_content m = content /\ Conversations.sender m = sender /\
        Conversations.emotion m = emotion /\
        Conversations.emotion_confidence m = confidence) /\
       serving_at env ph user_id conversation_id l0 files0 s t q subject msgs w).
Proof.
  intros w H. eexists _, _. split; [reflexivity|]. split; [repeat split|].
  eapply quiet_serving; [exact H|repeat split|].
  eapply quota_at_quiet; [| |exact (sa_quota _ _ _ _ _ _ _ _ _ _ _ _ H)]; reflexivity.
Qed.

Lemma step_add ph s t q subject msgs message :
  returns (serving_at env ph user_id conversation_id l0 files0 s t q subject msgs)
    (add_message_to_conversation env conversation_id user_id message)
    (fun _ w =>
       serving_at env ph user_id conversation_id l0 files0 s t q subject
         (app msgs [message]) w).
Proof.
  intros w [Hq (c & E & Hid & Hsub & Hmsgs) Hot Hl Ht Hqu].
  unfold add_message_to_conversation, Conversations.add_message_to_conversation.
  rewrite E. eexists _, _. split; [reflexivity|].
  constructor; [| | |exact Hl|exact Ht|exact Hqu].
  - eapply quota_at_quiet; [| |exact Hq]; reflexivity.
  - eexists. unfold Conversations.get_conversation, Conversations._save_conversation.
    cbn [Conversations.files Conversations.id conversation_service set_conversation_service].
    rewrite Hid, lookup_insert_eq.
    split; [reflexivity|]. cbn. rewrite Hmsgs. auto.
  - intros key Hkey. unfold Conversations._save_conversation.
    cbn [Conversations.files Conversations.id conversation_service set_conversation_service].
    rewrite Hid.
    rewrite lookup_insert_ne by congruence. apply Hot, Hkey.
Qed.

(** The dispatch takes the request from its check to the other side of
    the await. *)
Lemma step_dispatch s t q subject msgs message emotion confidence context conversation :
  service_ok s -> Conversations.subject conversation = subject ->
  returns (serving_at env Checked user_id conversation_id l0 files0 s t q subject msgs)
    (guarded_dispatch env message emotion confidence context conversation)
    (fun text w =>
       exists s' t' q' l,
         dispatched env (content message) emotion confidence context subject
           s t q text s' t' q' /\
         serving_at env (Back l) user_id conversation_id l0 files0 s' t' q' subject msgs w).
Proof.
  intros Hs Hsub w H. pose proof H as [Hq Hst Hot Hl Ht Hqu].
  assert (Hs' : service_ok (llm_service w)) by (rewrite Hl; exact Hs).
  destruct (dispatch_served env user_id (user_limiter w) conversation_id message emotion
              confidence context conversation w) as (text & w' & E & _).
  { split; [split; [exact Hs'|]|].
    - split; [reflexivity|]. split; [reflexivity|].
      intros _ He. destruct Hq as (Hm & Hsuf & Hroom).
      specialize (Hroom eq_refl He). pose proof (suffix_length_le _ _ Hsuf).
      rewrite Hm. exact Hroom.
    - destruct Hst as (c & Ec & _). exists c. exact Ec. }
  exists text, w'. split; [exact E|].
  destruct (guarded_dispatch_effect _ _ _ _ _ _ _ _ _ Hs' E)
    as (Hc & Hlim & He & _ & _ & Hd).
  exists (llm_service w'), (Chat.task w'), (request_queue w'), (user_limiter w).
  rewrite Hsub, Hl, Ht, Hqu in Hd. split; [exact Hd|].
  constructor; try reflexivity.
  - cbn [quota_at]. split; [exact Hlim|]. rewrite He.
    destruct Hq as (Hm & Hsuf & Hroom). split; [exact Hm|]. split; [exact Hsuf|].
    intros Hen. apply Hroom; [reflexivity|exact Hen].
  - unfold stored. rewrite Hc. exact Hst.
  - unfold others_as. rewrite Hc. exact Hot.
Qed.

(** The record runs on the limiter that the others have left. *)
Lemma step_record l s t q subject msgs :
  returns (serving_at env (Back l) user_id conversation_id l0 files0 s t q subject msgs)
    (record_prompt env user_id)
    (fun r w =>
       stored user_id conversation_id subject msgs w /\
       others_as files0 user_id conversation_id w /\
       llm_service w = s /\ Chat.task w = t /\ request_queue w = q /\
       has_room (PROMPT_LIMIT_ENABLED w) user_id l0 l /\
       exists now stamp,
         user_limiter w =
           snd (Limiter.record_prompt (PROMPT_LIMIT_ENABLED w) now stamp user_id
                  (interleaved env l))).
Proof.
  intros w H. pose proof (sa_quota _ _ _ _ _ _ _ _ _ _ _ _ H) as [Hlim Hroom].
  destruct (sa_stored _ _ _ _ _ _ _ _ _ _ _ _ H) as (c & Ec & _).
  destruct (record_runs env user_id l0 l conversation_id w) as (r & w' & E & Hroom' & Hrec).
  { split; [exact Hlim|]. split; [exact Hroom|]. exists c. exact Ec. }
  exists r, w'. split; [exact E|].
  destruct (record_quiet _ _ _ _ _ E) as (Hc & Hl & Ht & Hq & _).
  destruct H as [_ Hst Hot Hl0 Ht0 Hq0].
  split; [unfold stored; rewrite Hc; exact Hst|].
  split; [unfold others_as; rewrite Hc; exact Hot|].
  split; [congruence|]. split; [congruence|]. split; [congruence|].
  split; [exact Hroom'|exact Hrec].
Qed.

End InService.

(** ** What a served request leaves behind *)

Section Served.
Import Service Run Quota Handler Chat Serving Shelf.

Lemma context_of_messages c : context_of c = context_from (Conversations.messages c).
Proof. reflexivity. Qed.

(** The whole of a served request. *)
Lemma served env conversation_id request message w :
  let user_id := Limiter.get_user_id_from_request request in
  let emotion := fst (classify_emotion env (content message)) in
  let confidence := snd (classify_emotion env (content message)) in
  let cid := fst (fst (served_in env user_id conversation_id w)) in
  let subject := snd (fst (served_in env user_id conversation_id w)) in
  let msgs0 := snd (served_in env user_id conversation_id w) in
  service_ok (llm_service w) ->
  store_ok (conversation_service w) ->
  allowed (fst (Limiter.can_user_make_prompt (PROMPT_LIMIT_ENABLED w)
                  (time_time env (clock_reads w)) user_id (user_limiter w))) = true ->
  exists response w' u1 u2 a text,
    send_message env conversation_id request message w = (Ok response, w') /\
    stored user_id cid subject (app msgs0 [u1; u2; a]) w' /\
    others_as (Conversations.files (conversation_service w)) user_id cid w' /\
    user_turn (content message) u1 /\ user_turn (content message) u2 /\
    reply_turn text emotion confidence a /\
    response = {| resp_id := Conversations.msg_id a;
                  resp_content := warned env user_id conversation_id w text;
                  resp_emotion := emotion;
                  resp_emotion_confidence := confidence |} /\
    dispatched env (content message) emotion confidence
      (context_from (app msgs0 [u1; u2])) subject
      (llm_service w) (Chat.task w) (request_queue w) text
      (llm_service w') (Chat.task w') (request_queue w') /\
    exists l now stamp,
      has_room (PROMPT_LIMIT_ENABLED w') user_id (user_limiter w) l /\
      user_limiter w' =
        snd (Limiter.record_prompt (PROMPT_LIMIT_ENABLED w') now stamp user_id
               (interleaved env l)).
Proof.
  intros user_id emotion confidence cid subject msgs0 Hs Hstore Hfirst.
  set (l0 := user_limiter w). set (files0 := Conversations.files (conversation_service w)).
  set (warning :=
         match Conversations.get_conversation conversation_id user_id
                 (conversation_service w) with
         | Some _ => None
         | None => Some ("Conversation not found. A new conversation was created (id: "
                         ++ uuid4 env (uuids w) ++ ").")
         end).
  set (Post := fun (response : ChatResponse) (w' : World) =>
    exists u1 u2 a text,
      stored user_id cid subject (app msgs0 [u1; u2; a]) w' /\
      others_as files0 user_id cid w' /\
      user_turn (content message) u1 /\ user_turn (content message) u2 /\
      reply_turn text emotion confidence a /\
      response = {| resp_id := Conversations.msg_id a;
                    resp_content := warned env user_id conversation_id w text;
                    resp_emotion := emotion;
                    resp_emotion_confidence := confidence |} /\
      dispatched env (content message) emotion confidence
        (context_from (app msgs0 [u1; u2])) subject
        (llm_service w) (Chat.task w) (request_queue w) text
        (llm_service w') (Chat.task w') (request_queue w') /\
      exists l now stamp,
        has_room (PROMPT_LIMIT_ENABLED w') user_id l0 l /\
        user_limiter w' =
          snd (Limiter.record_prompt (PROMPT_LIMIT_ENABLED w') now stamp user_id
                 (interleaved env l))).
  assert (H : returns (fun w0 => w0 = w)
                (send_message env conversation_id request message) Post).
  { unfold send_message. fold user_id. apply returns_try.
    eapply returns_bind with
      (Q := fun r w' => allowed r = true /\
                        (quota_state user_id l0 true w' /\ quiet w w' /\ uuids w' = uuids w)).
    { intros w0 ->.
      destruct (quota_first_check env user_id l0 w eq_refl) as (r & w' & E & Ha & Hq).
      exists r, w'. fold l0 in Hfirst. rewrite Hfirst in Ha.
      destruct (check_quiet _ _ _ _ _ E) as [Hqt Hu]. auto. }
    intros [[can used] remaining]. apply returns_pure. cbn [allowed fst]. intros ->.
    cbn [negb].
    eapply returns_bind with
      (Q := fun r w' => r = Conversations.get_conversation conversation_id user_id
                               (conversation_service w) /\
                        (quota_state user_id l0 true w' /\ quiet w w' /\ uuids w' = uuids w)).
    { apply returns_gets. intros w0 (Hq & Hqt & Hu). split; [|auto].
      destruct Hqt as (-> & _). reflexivity. }
    intros conversation. apply returns_pure. intros ->.
    eapply returns_bind with
      (Q := fun found w' =>
              (snd found = cid /\ snd (fst found) = warning /\
               Conversations.subject (fst (fst found)) = subject) /\
              serving_at env Checked user_id cid l0 files0 (llm_service w) (Chat.task w)
                (request_queue w) subject msgs0 w').
    { subst cid subject msgs0 warning. unfold served_in.
      destruct (Conversations.get_conversation conversation_id user_id
                  (conversation_service w)) as [c|] eqn:Ec; cbn [fst snd].
      - apply returns_ret. intros w0 (Hq & (Hc & Hl & Ht & Hqu & He) & Hu).
        split; [auto|]. constructor; try assumption.
        + exists c. rewrite Hc. split; [exact Ec|]. split; [|auto].
          apply (Hstore _ _ _ Ec).
        + intros key _. rewrite Hc. reflexivity.
      - intros w0 (Hq & (Hc & Hl & Ht & Hqu & He) & Hu).
        unfold bind, create_conversation, fresh_uuid, ret. cbn [fst snd].
        eexists _, _. split; [reflexivity|]. cbn [fst snd Conversations.id Conversations.subject].
        rewrite Hu. split; [auto|]. constructor; cbn; try assumption.
        + eexists. unfold Conversations.get_conversation, Conversations._save_conversation.
          cbn. rewrite lookup_insert_eq. split; [reflexivity|]. cbn. auto.
        + intros key Hkey. unfold Conversations._save_conversation. cbn.
          rewrite lookup_insert_ne by congruence. rewrite Hc. reflexivity. }
    intros [[c warning'] cid']. cbn [fst snd]. apply returns_pure.
    intros (-> & -> & Hsubj).
    eapply returns_bind; [apply step_new|]. intros u1. apply returns_pure. intros Hu1.
    eapply returns_bind; [apply step_add|]. intros added1.
    apply returns_try.
    eapply returns_bind; [apply step_check|].
    intros [[can2 used2] remaining2]. apply returns_pure. cbn [allowed fst]. intros ->.
    cbn [negb].
    eapply returns_bind; [apply step_get|].
    intros conv2. apply returns_pure. intros (c2 & -> & _).
    eapply returns_bind; [apply step_new|]. intros u2. apply returns_pure. intros Hu2.
    eapply returns_bind; [apply step_add|]. intros added2.
    subst emotion confidence.
    destruct (classify_emotion env (content message)) as [emotion confidence].
    cbn [fst snd] in *.
    eapply returns_bind; [apply step_get|].
    intros conv3. apply returns_pure. intros (c3 & -> & _ & Hsub3 & Hmsgs3).
    rewrite context_of_messages, Hmsgs3.
    eapply returns_bind;
      [apply (step_dispatch env user_id l0 cid files0); [exact Hs|exact Hsub3]|].
    intros text. apply returns_ex. intros s'. apply returns_ex. intros t'.
    apply returns_ex. intros q'. apply returns_ex. intros l. apply returns_pure. intros Hd.
    eapply returns_bind; [apply step_new|]. intros a. apply returns_pure. intros Ha.
    eapply returns_bind; [apply step_add|]. intros added3.
    eapply returns_bind; [apply step_record|].
    intros recorded. apply returns_ret.
    intros w0 (Hst & Hot & Hl & Ht & Hq & Hroom & now & stamp & Hrec).
    exists u1, u2, a, text.
    rewrite <- !app_assoc in Hst. cbn [app] in Hst.
    rewrite <- app_assoc in Hd. cbn [app] in Hd.
    split; [exact Hst|]. split; [exact Hot|].
    split; [exact Hu1|]. split; [exact Hu2|]. split; [exact Ha|].
    split.
    { f_equal. subst warning. unfold warned.
      destruct (Conversations.get_conversation conversation_id user_id
                  (conversation_service w)); reflexivity. }
    split; [rewrite Hl, Ht, Hq; exact Hd|]. exists l, now, stamp. auto. }
  destruct (H w eq_refl) as (response & w' & E & u1 & u2 & a & text & Hpost).
  exists response, w', u1, u2, a, text. split; [exact E|exact Hpost].
Qed.

End Served.

(** ** The served request, seen from outside *)

Section ServedRequest.
Import Service Trace Run Quota Handler Chat Serving Shelf Dispatch.

(** Property X23.  A request on a filed conversation leaves it with three more
    messages: the message of the user, twice, and then the reply with the
    label and the confidence of the classifier.  The response carries the
    id and the text of that reply. *)
Theorem reply_is_filed_after_two_copies env conversation_id request message w c :
  let user_id := Limiter.get_user_id_from_request request in
  service_ok (llm_service w) ->
  store_ok (conversation_service w) ->
  allowed (fst (Limiter.can_user_make_prompt (PROMPT_LIMIT_ENABLED w)
                  (time_time env (clock_reads w)) user_id (user_limiter w))) = true ->
  Conversations.get_conversation conversation_id user_id (conversation_service w) = Some c ->
  exists response w' u1 u2 a,
    send_message env conversation_id request message w = (Ok response, w') /\
    stored user_id conversation_id (Conversations.subject c)
      (app (Conversations.messages c) [u1; u2; a]) w' /\
    user_turn (content message) u1 /\ user_turn (content message) u2 /\
    reply_turn (resp_content response) (resp_emotion response)
      (resp_emotion_confidence response) a /\
    resp_id response = Conversations.msg_id a /\
    (resp_emotion response, resp_emotion_confidence response) =
      classify_emotion env (content message).
Proof.
  intros user_id Hs Hstore Hfirst Hc.
  destruct (served env conversation_id request message w Hs Hstore Hfirst)
    as (response & w' & u1 & u2 & a & text & E & Hst & Hot & Hu1 & Hu2 & Ha & Hr & _).
  fold user_id in Hst, Hot, Hr. unfold served_in, warned in *. rewrite Hc in *.
  cbn [fst snd] in *.
  exists response, w', u1, u2, a. subst response. cbn.
  split; [exact E|]. split; [exact Hst|]. split; [exact Hu1|]. split; [exact Hu2|].
  split; [exact Ha|]. split; [reflexivity|].
  destruct (classify_emotion env (content message)); reflexivity.
Qed.

(** Property X24.  The store as a directory tree (the identity names a directory, the
    id asked for and the next id drawn name files, and so does every key
    of the map), with every conversation filed under its own id, and a
    service with a configured pool.  A request that passes the quota
    check, on a conversation that is not filed for the identity, is served
    in a new conversation, filed under the next id drawn: it holds the
    message twice and the reply, and the response starts with the warning
    that names the new id. *)
Theorem missing_conversation_is_replaced env conversation_id request message w :
  let user_id := Limiter.get_user_id_from_request request in
  let new_id := uuid4 env (uuids w) in
  service_ok (llm_service w) ->
  Tree.names_directory user_id -> Tree.names_file conversation_id -> Tree.tree_like env w ->
  store_ok (conversation_service w) ->
  allowed (fst (Limiter.can_user_make_prompt (PROMPT_LIMIT_ENABLED w)
                  (time_time env (clock_reads w)) user_id (user_limiter w))) = true ->
  Conversations.get_conversation conversation_id user_id (conversation_service w) = None ->
  exists response w' u1 u2 a,
    send_message env conversation_id request message w = (Ok response, w') /\
    stored user_id new_id None [u1; u2; a] w' /\
    user_turn (content message) u1 /\ user_turn (content message) u2 /\
    Conversations.sender a = "assistant" /\
    resp_content response =
      "⚠️ Conversation not found. A new conversation was created (id: " ++ new_id ++ ")."
      ++ nl ++ nl ++ Conversations.msg_content a.
Proof.
  intros user_id new_id Hs _ _ _ Hstore Hfirst Hc.
  destruct (served env conversation_id request message w Hs Hstore Hfirst)
    as (response & w' & u1 & u2 & a & text & E & Hst & Hot & Hu1 & Hu2 & Ha & Hr & _).
  fold user_id in Hst, Hot, Hr. unfold served_in, warned in *. rewrite Hc in *.
  cbn [fst snd app] in *. fold new_id in Hst, Hot, Hr.
  exists response, w', u1, u2, a. subst response. cbn [resp_content].
  destruct Ha as (Hat & Has & _).
  split; [exact E|]. split; [exact Hst|]. split; [exact Hu1|]. split; [exact Hu2|].
  split; [exact Has|].
  rewrite Hat. rewrite !append_assoc. reflexivity.
Qed.

(** *** What the model is sent *)

Lemma skipn_keeps_tail {A} (n : nat) (l tail : list A) :
  (n <= length l)%nat -> skipn n (app l tail) = app (skipn n l) tail.
Proof.
  intros Hn. rewrite List.skipn_app. replace (n - length l)%nat with 0%nat by lia.
  reflexivity.
Qed.

Lemma context_but_last_app (l : list LLM.Message) (x y : LLM.Message) :
  LLM.context_but_last (Some (app l [x; y])) = app l [x].
Proof.
  unfold LLM.context_but_last.
  change (app l [x; y]) with (app l (app [x] [y])). rewrite app_assoc.
  destruct (app (app l [x]) [y]) as [|m ms] eqn:E.
  - destruct l; discriminate E.
  - rewrite <- E. apply List.removelast_last.
Qed.

Lemma messages_end_with_two_copies content emotion subject msgs0 u1 u2 :
  user_turn content u1 -> user_turn content u2 ->
  exists before,
    LLM.build_messages content emotion (Some (context_from (app msgs0 [u1; u2]))) subject =
    app before [ {| LLM.role := "user"; LLM.content := content |};
                 {| LLM.role := "user"; LLM.content := content |} ].
Proof.
  intros (Hc1 & Hs1 & _) (Hc2 & Hs2 & _).
  unfold LLM.build_messages, context_from.
  rewrite skipn_keeps_tail by (rewrite length_app; simpl; lia).
  rewrite map_app. cbn [map]. rewrite context_but_last_app, Hs1, Hc1.
  change ("user" =? "user")%string with true. cbv iota.
  eexists (_ :: _). cbn [app]. rewrite <- app_assoc. reflexivity.
Qed.

(** Property X26.  The store as a directory tree, with every conversation filed under
    its own id, and a service with a configured pool.  Every call made
    for a request that passes the quota check sends a message list that
    ends with the message of the user twice over: once as the last turn
    of the context, once as the new turn.  (The calls are one per key
    handed to the request, each with the same list.) *)
Theorem every_call_repeats_the_message env conversation_id request message w :
  let user_id := Limiter.get_user_id_from_request request in
  let turn := {| LLM.role := "user"; LLM.content := content message |} in
  service_ok (llm_service w) ->
  Tree.names_directory user_id -> Tree.names_file conversation_id -> Tree.tree_like env w ->
  store_ok (conversation_service w) ->
  allowed (fst (Limiter.can_user_make_prompt (PROMPT_LIMIT_ENABLED w)
                  (time_time env (clock_reads w)) user_id (user_limiter w))) = true ->
  Chat.task w = LLM.new_task ->
  exists response w' before,
    send_message env conversation_id request message w = (Ok response, w') /\
    calls (LLM.trace (Chat.task w')) =
      imap (call_with (llm_service w) (selected_model (llm_env env) (llm_service w))
              (app before [turn; turn]))
           (next_keys (LLM.trace (Chat.task w'))).
Proof.
  intros user_id turn Hs _ _ _ Hstore Hfirst Htask.
  destruct (served env conversation_id request message w Hs Hstore Hfirst)
    as (response & w' & u1 & u2 & a & text & E & _ & _ & Hu1 & Hu2 & _ & _ & Hd & _).
  fold user_id in Hd.
  destruct (messages_end_with_two_copies (content message)
              (fst (classify_emotion env (content message)))
              (snd (fst (served_in env user_id conversation_id w)))
              (snd (served_in env user_id conversation_id w)) u1 u2 Hu1 Hu2)
    as (before & Hmsgs).
  exists response, w', before. unfold dispatched in Hd.
  destruct (Queue._semaphore (request_queue w)).
  - destruct Hd as (_ & _ & -> & _). split; [exact E|].
    rewrite Htask. reflexivity.
  - cbv zeta in Hd. destruct Hd as (_ & _ & -> & _). rewrite Htask.
    destruct (dispatch_calls_by_key (llm_env env) (content message)
                (fst (classify_emotion env (content message)))
                (snd (classify_emotion env (content message)))
                (Some (context_from
                         (app (snd (served_in env user_id conversation_id w)) [u1; u2])))
                (snd (fst (served_in env user_id conversation_id w)))
                (llm_service w) Hs) as (_ & _ & _ & Hcalls).
    split; [exact E|]. cbv zeta in Hcalls. fold turn in Hmsgs.
    rewrite <- Hmsgs. exact Hcalls.
Qed.

End ServedRequest.

(** ** Requests that are turned down *)

Section Raises.
Import Serving.
Context {S : Type}.

Lemma raises_bind {A B} (P : S -> Prop) (m : M S A) (k : A -> M S B)
    (Q : A -> S -> Prop) (R : exn -> S -> Prop) :
  returns P m Q -> (forall a, raises (Q a) (k a) R) -> raises P (bind m k) R.
Proof.
  intros Hm Hk s Hs. destruct (Hm s Hs) as (a & s1 & E & HQ).
  destruct (Hk a s1 HQ) as (e & s2 & E2 & HR).
  exists e, s2. unfold bind. rewrite E. auto.
Qed.

Lemma raises_now {A B} (P : S -> Prop) (m : M S A) (k : A -> M S B)
    (R : exn -> S -> Prop) :
  raises P m R -> raises P (bind m k) R.
Proof.
  intros Hm s Hs. destruct (Hm s Hs) as (e & s1 & E & HR).
  exists e, s1. unfold bind. rewrite E. auto.
Qed.

Lemma raises_pure {A} (phi : Prop) (P : S -> Prop) (m : M S A) R :
  (phi -> raises P m R) -> raises (fun s => phi /\ P s) m R.
Proof. intros H s [Hphi Hs]. apply (H Hphi s Hs). Qed.

Lemma raises_post {A} (P : S -> Prop) (m : M S A) (R R' : exn -> S -> Prop) :
  raises P m R -> (forall e s, R e s -> R' e s) -> raises P m R'.
Proof.
  intros Hm HR s Hs. destruct (Hm s Hs) as (e & s' & E & He).
  exists e, s'. split; [exact E|apply HR, He].
Qed.

End Raises.

Section TurnedDown.
Import Service Trace Run Quota Handler Chat Serving Shelf Dispatch.

(** What [except Exception] makes of an error of the body. *)
Lemma raises_wrapped {A} (P : World -> Prop) (m : M World A) (wrap : string)
    (e : exn) (R : World -> Prop) :
  isinstance_Exception e = true ->
  raises P m (fun e' w => e' = e /\ R w) ->
  raises P (try_except m (except_Exception wrap))
    (fun e' w => e' = HTTPException 500 (wrap ++ str e) /\ R w).
Proof.
  intros He Hm w Hw. destruct (Hm w Hw) as (e' & w' & E & -> & HR).
  exists (HTTPException 500 (wrap ++ str e)), w'.
  unfold try_except, except_Exception. rewrite E, He. split; [reflexivity|auto].
Qed.

(** Property X27.  A request over its quota is not answered with the status 429 that
    the handler raises: the handler's own [except Exception] catches it
    and answers 500, its detail the text of the refusal after the words
    of the outer handler.  Nothing is filed, dispatched or counted; only
    the clean-up of the check is kept. *)
Theorem refusal_is_reported_as_500 env conversation_id request message w :
  let user_id := Limiter.get_user_id_from_request request in
  let check := Limiter.can_user_make_prompt (PROMPT_LIMIT_ENABLED w)
                 (time_time env (clock_reads w)) user_id (user_limiter w) in
  allowed (fst check) = false ->
  exists w',
    send_message env conversation_id request message w =
      (Raise (HTTPException 500
                ("Failed to process legacy chat: "
                 ++ str (limit_reached (snd (fst (fst check)))))), w') /\
    conversation_service w' = conversation_service w /\
    llm_service w' = llm_service w /\ Chat.task w' = Chat.task w /\
    request_queue w' = request_queue w /\
    user_limiter w' = snd check.
Proof.
  intros user_id check Hno. subst check.
  unfold send_message. fold user_id.
  unfold try_except, bind at 1. unfold can_user_make_prompt, bind, gets, read_clock, ret.
  destruct (PROMPT_LIMIT_ENABLED w) eqn:He; cbn [fst snd user_limiter] in *;
    [|discriminate Hno].
  destruct (Limiter.can_user_make_prompt true (time_time env (clock_reads w)) user_id
              (user_limiter w)) as [[[can used] remaining] l1].
  cbn [fst snd allowed] in *. subst can. cbn [negb].
  unfold raise, except_Exception, limit_reached. cbn [isinstance_Exception str].
  eexists. split; [reflexivity|]. repeat split.
Qed.

(** *** A service without keys *)

Lemma dispatch_without_keys env um em conf cm subj c :
  LLM.api_keys (LLM.svc c) = [] ->
  LLM.cancel_at env <> Some (LLM.awaits (LLM.task c)) ->
  exists c',
    LLM.create_empathetic_response env um em conf cm subj c =
      (Raise (Exception "No API keys available"), c') /\
    LLM.svc c' = LLM.svc c /\
    calls (LLM.trace (LLM.task c')) = calls (LLM.trace (LLM.task c)).
Proof.
  intros Hk Hc.
  unfold LLM.create_empathetic_response, bind, LLM.uniform, LLM.asyncio_sleep, bind,
    LLM.log, gets, modify, LLM.next_api_key, bind, LLM.on_svc, LLM.get_next_api_key, ret, raise.
  cbn [fst snd LLM.svc LLM.task LLM.trace LLM.draws LLM.awaits].
  assert (Hgo : match LLM.cancel_at env with
                | Some k => (k =? LLM.awaits (LLM.task c))%nat = false
                | None => True
                end).
  { destruct (LLM.cancel_at env) as [k|]; [|exact I].
    apply Nat.eqb_neq. congruence. }
  destruct (LLM.cancel_at env) as [k|]; [rewrite Hgo|]; unfold zoom;
    cbn [fst snd LLM.svc LLM.task LLM.trace LLM.draws LLM.awaits]; rewrite Hk;
    (eexists; split; [reflexivity|]); cbn [LLM.svc LLM.task LLM.trace];
    (split; [reflexivity|]); rewrite calls_app, app_nil_r; reflexivity.
Qed.

Lemma step_dispatch_fails env user_id l0 conversation_id files0 s t q subject msgs
    message emotion confidence context conversation :
  LLM.api_keys s = [] ->
  LLM.cancel_at (llm_env env) <> Some (LLM.awaits t) ->
  Queue._semaphore q <> 0%nat ->
  raises (serving_at env Checked user_id conversation_id l0 files0 s t q subject msgs)
    (guarded_dispatch env message emotion confidence context conversation)
    (fun e w =>
       e = Exception "No API keys available" /\
       ((exists l,
           Limiter.window user_id l `suffix_of` Limiter.window user_id l0 /\
           user_limiter w = interleaved env l) /\
        stored user_id conversation_id subject msgs w /\
        others_as files0 user_id conversation_id w /\
        llm_service w = s /\
        calls (LLM.trace (Chat.task w)) = calls (LLM.trace t) /\
        request_queue w = counted q 1)).
Proof.
  intros Hk Hc Hsem w [Hq Hst Hot Hl Ht Hqu]. subst s t q.
  unfold guarded_dispatch, try_except, await, wait_for, queued, zoom, Queue.add_request,
    bind, Queue.acquire, try_finally, try_except, Queue.release, Queue.count_request,
    Queue.count_failure, Queue.on_tracker, modify, raise, ret, generate_response, zoom.
  cbn [fst snd]. destruct (Queue._semaphore (request_queue w)) as [|free] eqn:Hfree;
    [congruence|].
  cbn [fst snd llm_service Chat.task set_llm set_request_queue].
  destruct (dispatch_without_keys (llm_env env) (content message) emotion confidence
              (Some context) (Conversations.subject conversation)
              {| LLM.svc := llm_service w; LLM.task := Chat.task w |} Hk Hc)
    as (c' & E & Hsvc & Hcalls).
  rewrite E. cbn. eexists _, _. split; [reflexivity|]. split; [reflexivity|].
  cbn. unfold counted. rewrite Hfree.
  split; [exists (user_limiter w); split; [apply Hq|reflexivity]|]. auto 10.
Qed.

(** Property X28.  The store as a directory tree, with every conversation filed under
    its own id.  With no key configured, a request that passed the quota
    check, got a permit and is not cancelled in the first delay of its
    dispatch fails with status 500: the message of the user is filed
    twice, without a reply; the gate counts one request and one failure;
    no call is made; and the request records no prompt: the limiter is
    what the handlers of other requests made, during the dispatch, of a
    limiter to whose window for the identity the request had added
    nothing. *)
Theorem request_without_keys_fails env conversation_id request message w :
  let user_id := Limiter.get_user_id_from_request request in
  let cid := fst (fst (served_in env user_id conversation_id w)) in
  let subject := snd (fst (served_in env user_id conversation_id w)) in
  let msgs0 := snd (served_in env user_id conversation_id w) in
  LLM.api_keys (llm_service w) = [] ->
  Tree.names_directory user_id -> Tree.names_file conversation_id -> Tree.tree_like env w ->
  store_ok (conversation_service w) ->
  allowed (fst (Limiter.can_user_make_prompt (PROMPT_LIMIT_ENABLED w)
                  (time_time env (clock_reads w)) user_id (user_limiter w))) = true ->
  Queue._semaphore (request_queue w) <> 0%nat ->
  LLM.cancel_at (llm_env env) <> Some (LLM.awaits (Chat.task w)) ->
  exists w' u1 u2,
    send_message env conversation_id request message w =
      (Raise (HTTPException 500
                ("Failed to process legacy chat: "
                 ++ str (HTTPException 500
                           ("Failed to process message: "
                            ++ str (Exception "No API keys available"))))), w') /\
    stored user_id cid subject (app msgs0 [u1; u2]) w' /\
    user_turn (content message) u1 /\ user_turn (content message) u2 /\
    request_queue w' = counted (request_queue w) 1 /\
    calls (LLM.trace (Chat.task w')) = calls (LLM.trace (Chat.task w)) /\
    exists l,
      Limiter.window user_id l `suffix_of` Limiter.window user_id (user_limiter w) /\
      user_limiter w' = interleaved env l.
Proof.
  intros user_id cid subject msgs0 Hk _ _ _ Hstore Hfirst Hsem Hcancel.
  set (l0 := user_limiter w). set (files0 := Conversations.files (conversation_service w)).
  set (R := fun (w' : World) =>
    exists u1 u2,
      stored user_id cid subject (app msgs0 [u1; u2]) w' /\
      user_turn (content message) u1 /\ user_turn (content message) u2 /\
      request_queue w' = counted (request_queue w) 1 /\
      calls (LLM.trace (Chat.task w')) = calls (LLM.trace (Chat.task w)) /\
      exists l,
        Limiter.window user_id l `suffix_of` Limiter.window user_id l0 /\
        user_limiter w' = interleaved env l).
  assert (H : raises (fun w0 => w0 = w)
                (send_message env conversation_id request message)
                (fun e w' =>
                   e = HTTPException 500
                         ("Failed to process legacy chat: " ++
                          str (HTTPException 500
                                 ("Failed to process message: " ++
                                  str (Exception "No API keys available")))) /\ R w')).
  { unfold send_message. fold user_id. apply raises_wrapped; [reflexivity|].
    eapply raises_bind with
      (Q := fun r w' => allowed r = true /\
                        (quota_state user_id l0 true w' /\ quiet w w' /\ uuids w' = uuids w)).
    { intros w0 ->.
      destruct (quota_first_check env user_id l0 w eq_refl) as (r & w' & E & Ha & Hq).
      exists r, w'. fold l0 in Hfirst. rewrite Hfirst in Ha.
      destruct (check_quiet _ _ _ _ _ E) as [Hqt Hu]. auto. }
    intros [[can used] remaining]. apply raises_pure. cbn [allowed fst]. intros ->.
    cbn [negb].
    eapply raises_bind with
      (Q := fun r w' => r = Conversations.get_conversation conversation_id user_id
                               (conversation_service w) /\
                        (quota_state user_id l0 true w' /\ quiet w w' /\ uuids w' = uuids w)).
    { apply returns_gets. intros w0 (Hq & Hqt & Hu). split; [|auto].
      destruct Hqt as (-> & _). reflexivity. }
    intros conversation. apply raises_pure. intros ->.
    eapply raises_bind with
      (Q := fun found w' =>
              snd found = cid /\
              serving_at env Checked user_id cid l0 files0 (llm_service w) (Chat.task w)
                (request_queue w) subject msgs0 w').
    { subst cid subject msgs0. unfold served_in.
      destruct (Conversations.get_conversation conversation_id user_id
                  (conversation_service w)) as [c|] eqn:Ec; cbn [fst snd].
      - apply returns_ret. intros w0 (Hq & (Hc & Hl & Ht & Hqu & He) & Hu).
        split; [auto|]. constructor; try assumption.
        + exists c. rewrite Hc. split; [exact Ec|]. split; [|auto].
          apply (Hstore _ _ _ Ec).
        + intros key _. rewrite Hc. reflexivity.
      - intros w0 (Hq & (Hc & Hl & Ht & Hqu & He) & Hu).
        unfold bind, create_conversation, fresh_uuid, ret. cbn [fst snd].
        eexists _, _. split; [reflexivity|].
        cbn [fst snd Conversations.id Conversations.subject].
        rewrite Hu. split; [auto|]. constructor; cbn; try assumption.
        + eexists. unfold Conversations.get_conversation, Conversations._save_conversation.
          cbn. rewrite lookup_insert_eq. split; [reflexivity|]. cbn. auto.
        + intros key Hkey. unfold Conversations._save_conversation. cbn.
          rewrite lookup_insert_ne by congruence. rewrite Hc. reflexivity. }
    intros [[c warning'] cid']. cbn [fst snd]. apply raises_pure. intros ->.
    eapply raises_bind; [apply step_new|]. intros u1. apply raises_pure. intros Hu1.
    eapply raises_bind; [apply step_add|]. intros added1.
    apply raises_wrapped; [reflexivity|].
    eapply raises_bind; [apply step_check|].
    intros [[can2 used2] remaining2]. apply raises_pure. cbn [allowed fst]. intros ->.
    cbn [negb].
    eapply raises_bind; [apply step_get|].
    intros conv2. apply raises_pure. intros (c2 & -> & _).
    eapply raises_bind; [apply step_new|]. intros u2. apply raises_pure. intros Hu2.
    eapply raises_bind; [apply step_add|]. intros added2.
    destruct (classify_emotion env (content message)) as [emotion confidence].
    eapply raises_bind; [apply step_get|].
    intros conv3. apply raises_pure. intros (c3 & -> & _ & Hsub3 & Hmsgs3).
    apply raises_now.
    eapply raises_post;
      [apply (step_dispatch_fails env user_id l0 cid files0); assumption|].
    intros e w0 (-> & Hq & Hst & _ & _ & Hcalls & Hqueue).
    split; [reflexivity|]. exists u1, u2.
    rewrite <- app_assoc in Hst. cbn [app] in Hst.
    split; [exact Hst|]. split; [exact Hu1|]. split; [exact Hu2|].
    split; [exact Hqueue|]. split; [exact Hcalls|exact Hq]. }
  destruct (H w eq_refl) as (e & w' & E & -> & u1 & u2 & HR).
  exists w', u1, u2. split; [exact E|exact HR].
Qed.

End TurnedDown.

(** ** The routes of a conversation *)

Section ConversationRoutes.
Import Chat Shelf.

(** Property X29.  The store as a directory tree: the identity of the request names a
    directory, the id drawn names a file, and so does every key of the
    map.  A conversation made through its route is then filed for the
    identity under the id drawn, empty: the same identity can fetch it
    and delete it, and once deleted it is unknown to the three routes that
    name it, each of which answers 404. *)
Theorem created_conversation_is_served_until_deleted env request body new_title w :
  let user_id := Limiter.get_user_id_from_request request in
  let not_found := HTTPException 404 "Conversation not found" in
  Tree.names_directory user_id -> Tree.tree_like env w ->
  exists c w1 w2,
    Routes.create_conversation env request body w = (Ok c, w1) /\
    Conversations.id c = uuid4 env (uuids w) /\
    Conversations.user_id c = user_id /\
    Conversations.messages c = [] /\
    Routes.get_conversation (Conversations.id c) request w1 = (Ok c, w1) /\
    Routes.delete_conversation (Conversations.id c) request w1 =
      (Ok "Conversation deleted successfully", w2) /\
    Routes.get_conversation (Conversations.id c) request w2 = (Raise not_found, w2) /\
    Routes.update_conversation_title (Conversations.id c) request new_title w2 =
      (Raise not_found, w2) /\
    Routes.delete_conversation (Conversations.id c) request w2 = (Raise not_found, w2).
Proof.
  intros user_id not_found _ _.
  unfold Routes.create_conversation, Routes.get_conversation, Routes.delete_conversation,
    Routes.update_conversation_title, Store.delete_conversation,
    Store.update_conversation_title, get_conversation, Conversations.get_conversation,
    Conversations.create_conversation, Conversations._save_conversation,
    try_except, bind, fresh_uuid, gets, ret, raise.
  fold user_id. cbn [fst snd conversation_service set_conversation_service
    Conversations.files Conversations.id uuids].
  eexists _, _, _. split; [reflexivity|]. cbn [Conversations.id Conversations.user_id
    Conversations.messages].
  split; [reflexivity|]. split; [reflexivity|]. split; [reflexivity|].
  cbn [conversation_service set_conversation_service Conversations.files].
  rewrite lookup_insert_eq. cbn [negb fst snd conversation_service set_conversation_service
    Conversations.files].
  split; [reflexivity|]. split; [reflexivity|].
  cbn [conversation_service set_conversation_service Conversations.files].
  rewrite lookup_delete_eq. cbn [negb]. auto.
Qed.

(** Property X30.  The store as a directory tree, with every conversation filed under
    its own id.  A conversation made through its route with a title that
    is not the default title of the store keeps that title whatever
    messages are added, so that it is never named after its first
    message.  The title that the body of the route has when the client
    leaves it out is such a title. *)
Theorem route_title_is_never_replaced env request body t ms w :
  let user_id := Limiter.get_user_id_from_request request in
  Tree.names_directory user_id -> Tree.tree_like env w ->
  store_ok (conversation_service w) ->
  Routes.title body = Some t -> t <> EmptyString -> t <> Conversations.default_title ->
  exists c w1,
    Routes.create_conversation env request body w = (Ok c, w1) /\
    title_of (Conversations.id c) user_id
      (add_each (_generate_title env) (Conversations.id c) user_id ms
         (conversation_service w1)) = Some t.
Proof.
  intros user_id _ _ Hok Ht Hne Hnd.
  unfold Routes.create_conversation, try_except, bind, fresh_uuid. cbn [fst snd].
  fold user_id. rewrite Ht.
  assert (Hn : LLM.nonempty t = true) by (destruct t; [congruence|reflexivity]).
  unfold Conversations.create_conversation. rewrite Hn. cbn [fst snd].
  eexists _, _. split; [reflexivity|]. cbn [Conversations.id conversation_service
    set_conversation_service uuids].
  match goal with
  | |- title_of ?i _ (add_each _ _ _ _ (Conversations._save_conversation ?c0 _ ?s)) = _ =>
      destruct (add_each_custom_title (_generate_title env) i user_id ms
                  (Conversations._save_conversation c0 user_id s) c0) as (c' & E & Ht' & _);
        [apply save_keeps_ok, Hok|exact (get_saved c0 user_id s)|exact Hnd|]
  end.
  unfold title_of. rewrite E. cbn. rewrite Ht'. reflexivity.
Qed.

End ConversationRoutes.

(** * More theorems at concrete inputs *)

Section MoreInstances.
Import Examples Cases LLM Service Trace Run Quota Handler Shelf Dispatch Serving Gate.

Lemma service_ok_one_key : service_ok one_key.
Proof.
  split; [split|]; [discriminate| |discriminate].
  unfold pool_size. simpl. lia.
Qed.

Lemma store_ok_one_conversation : store_ok one_conversation.
Proof. apply save_keeps_ok, store_ok_empty. Qed.

Lemma keys_are_names_empty : Tree.keys_are_names {| Conversations.files := ∅ |}.
Proof. intros u cid c H. discriminate H. Qed.

Lemma keys_are_names_one_conversation : Tree.keys_are_names one_conversation.
Proof. apply save_keeps_names; [reflexivity..|apply keys_are_names_empty]. Qed.

Lemma tree_like_start llm s enabled : Tree.tree_like (outside llm) (start s enabled).
Proof. split; [apply keys_are_names_empty|reflexivity]. Qed.

Lemma tree_like_filed llm s : Tree.tree_like (outside llm) (filed s).
Proof. split; [apply keys_are_names_one_conversation|reflexivity]. Qed.

(** Property X2: the prefix in capitals before the token [tok]. *)
Lemma bearer_prefix_is_optional_witness :
  lower "BEARER " = "bearer " /\
  startswith (lower "tok") "bearer " = false /\
  Limiter.get_user_id_from_request {| Limiter.authorization := Some ("BEARER " ++ "tok") |} =
  Limiter.get_user_id_from_request {| Limiter.authorization := Some "tok" |}.
Proof.
  split; [reflexivity|]. split; [reflexivity|].
  apply (bearer_prefix_is_optional "BEARER " "tok"); reflexivity.
Defined.

(** Property X4: the prompts of [u1] and the quota of [u2]. *)
Lemma quota_is_per_identity_witness :
  let checked := snd (Limiter.can_user_make_prompt true (inject_Z 2000) "u1" four_prompts) in
  let recorded :=
    snd (Limiter.record_prompt true (inject_Z 2000) (inject_Z 2001) "u1" four_prompts) in
  "u1" <> "u2" /\
  Limiter.window "u2" checked = Limiter.window "u2" four_prompts /\
  Limiter.window "u2" recorded = Limiter.window "u2" four_prompts.
Proof.
  cbv zeta.
  assert (H1 : "u1" <> "u2") by discriminate.
  split; [exact H1|].
  destruct (quota_is_per_identity four_prompts "u1" "u2" true (inject_Z 2000)
              (inject_Z 2001) H1) as (Hc & Hr & _).
  split; [exact Hc|exact Hr].
Defined.

(** Property X5: three rounds on the limiter of the module. *)
Lemma window_stays_within_limit_witness :
  let self' := snd (check_then_record true three_rounds "u1" Limiter.user_limiter) in
  Z.of_nat (length (Limiter.window "u1" Limiter.user_limiter))
    <= Limiter.max_prompts_per_user Limiter.user_limiter /\
  Limiter.max_prompts_per_user self' = 3 /\
  Z.of_nat (length (Limiter.window "u1" self')) <= 3.
Proof.
  cbv zeta.
  assert (H1 : Z.of_nat (length (Limiter.window "u1" Limiter.user_limiter))
               <= Limiter.max_prompts_per_user Limiter.user_limiter)
    by (vm_compute; discriminate).
  split; [exact H1|].
  exact (window_stays_within_limit "u1" three_rounds Limiter.user_limiter H1).
Defined.

(** Property X6: a check at second 1000, the record at second 2000. *)
Lemma allowed_check_is_honoured_witness :
  let checked := Limiter.can_user_make_prompt true (inject_Z 1000) "u1" Limiter.user_limiter in
  let recorded :=
    Limiter.record_prompt true (inject_Z 2000) (inject_Z 2001) "u1" (snd checked) in
  allowed (fst checked) = true /\
  fst recorded = true /\
  exists kept,
    kept `suffix_of` Limiter.window "u1" Limiter.user_limiter /\
    Limiter.window "u1" (snd recorded) = app kept [inject_Z 2001].
Proof.
  cbv zeta. split; [reflexivity|].
  apply (allowed_check_is_honoured Limiter.user_limiter "u1" true (inject_Z 1000)
           (inject_Z 2000) (inject_Z 2001)).
  reflexivity.
Defined.

(** Property X10: the gate of the module around a coroutine that raises. *)
Lemma gate_counters_stay_consistent_witness :
  let failing : M unit string := raise (Exception "boom") in
  let q' := fst (snd (Queue.add_request failing (Queue.init, tt))) in
  counters_ok Queue.init /\
  counters_ok q' /\
  Queue.total_requests Queue.init <= Queue.total_requests q'
    <= Queue.total_requests Queue.init + 1 /\
  exists rate,
    stat "success_rate" (Queue.get_stats "2025-01-01T00:00:00" q') = Some (Queue.VFloat rate) /\
    (0 <= rate <= 100)%Q /\
    (Queue.total_requests q' = 0 -> (rate == 0)%Q).
Proof.
  cbv zeta.
  assert (H1 : counters_ok Queue.init) by (unfold counters_ok; simpl; lia).
  split; [exact H1|].
  exact (gate_counters_stay_consistent (raise (Exception "boom")) Queue.init tt
           "2025-01-01T00:00:00" H1).
Defined.

(** Property X11: a message added to the conversation [c1], and [c1] deleted. *)
Lemma stored_conversation_round_trip_witness :
  Tree.names_directory "tok" /\ Tree.names_file "c1" /\
  Tree.keys_are_names one_conversation /\
  store_ok one_conversation /\
  (exists t,
     Conversations.get_conversation "c1" "tok"
       (snd (Conversations.add_message_to_conversation (fun s => s) "c1" "tok" question
               one_conversation)) =
     Some {| Conversations.id := "c1"; Conversations.user_id := "tok";
             Conversations.title := t; Conversations.messages := [question];
             Conversations.subject := None; Conversations.study_level := None |}) /\
  Conversations.get_conversation "c1" "tok"
    (snd (Store.delete_conversation "c1" "tok" one_conversation)) = None.
Proof.
  split; [reflexivity|]. split; [reflexivity|].
  split; [exact keys_are_names_one_conversation|].
  split; [exact store_ok_one_conversation|].
  pose proof (stored_conversation_round_trip (fun s => s) "c1" "tok" one_conversation
                eq_refl eq_refl keys_are_names_one_conversation
                store_ok_one_conversation) as [H _].
  assert (E : Conversations.get_conversation "c1" "tok" one_conversation = Some c1)
    by exact (get_saved c1 "tok" _).
  rewrite E in H. destruct H as (Hadd & _ & Hdel).
  split.
  - destruct (Hadd question) as (_ & _ & t & Ht). exists t. exact Ht.
  - apply Hdel.
Defined.

(** Property X12: the conversation [c1] is named after the question, not after the
    greeting that was filed before it. *)
Lemma title_comes_from_first_user_message_witness :
  store_ok one_conversation /\
  Conversations.get_conversation "c1" "tok" one_conversation = Some c1 /\
  Forall (fun x => from_user x = false) (app (Conversations.messages c1) [greeting]) /\
  from_user question = true /\
  title_of "c1" "tok"
    (add_each (fun s => s) "c1" "tok" (app [greeting] (question :: [greeting; question]))
       one_conversation)
  = Some "Apa itu pecahan?".
Proof.
  assert (E : Conversations.get_conversation "c1" "tok" one_conversation = Some c1)
    by exact (get_saved c1 "tok" _).
  assert (H1 : Forall (fun x => from_user x = false)
                 (app (Conversations.messages c1) [greeting]))
    by (repeat constructor).
  split; [exact store_ok_one_conversation|]. split; [exact E|]. split; [exact H1|].
  split; [reflexivity|].
  apply (title_comes_from_first_user_message (fun s => s) "c1" "tok" [greeting]
           [greeting; question] question one_conversation c1 store_ok_one_conversation E
           eq_refl H1 eq_refl).
  discriminate.
Defined.

(** Property X13: two keys and a downstream that always answers 500: four calls. *)
Lemma calls_of_a_dispatch_witness :
  let env := downstream (always 500) None in
  let tr :=
    trace (task (snd (create_empathetic_response env "halo" "Netral" (1 # 2) None None
                        (fresh two_keys)))) in
  service_ok two_keys /\
  (length (next_keys tr) <= 2 * length (api_keys two_keys))%nat /\
  (cancel_at env <> Some 0%nat -> next_keys tr <> []) /\
  calls tr =
    imap (call_with two_keys (selected_model env two_keys)
            (build_messages "halo" "Netral" None None))
         (next_keys tr).
Proof.
  cbv zeta. split; [exact service_ok_two_keys|].
  exact (calls_of_a_dispatch (downstream (always 500) None) "halo" "Netral" (1 # 2) None None
           two_keys service_ok_two_keys).
Defined.

(** Claim C7 on two keys and a downstream that always answers 500. *)
Lemma model_chosen_once_witness :
  let env := downstream (always 500) None in
  let tr :=
    trace (task (snd (create_empathetic_response env "halo" "Netral" (1 # 2) None None
                        (fresh two_keys)))) in
  let m := selected_model env two_keys in
  service_ok two_keys /\ cancel_at env <> Some 0%nat /\
  exists pre rest,
    tr = app pre (EvChoice m :: rest) /\
    choices pre = [] /\ posts pre = [] /\
    choices rest = [] /\ posts rest <> [] /\
    Forall (fun x : nat * Headers * Payload => model (snd x) = m) (posts rest).
Proof.
  cbv zeta.
  assert (H1 : cancel_at (downstream (always 500) None) <> Some 0%nat) by discriminate.
  split; [exact service_ok_two_keys|]. split; [exact H1|].
  exact (model_chosen_once (downstream (always 500) None) "halo" "Netral" (1 # 2) None None
           two_keys service_ok_two_keys H1).
Defined.

(** Property X14: two keys and a downstream that always answers 500: the fourth
    attempt gives the generic reply. *)
Lemma last_attempt_decides_witness :
  let env := downstream (always 500) None in
  let r := create_empathetic_response env "halo" "Netral" (1 # 2) None None (fresh two_keys) in
  service_ok two_keys /\ cancel_at env = None /\
  fst r = Ok (_get_fallback_response "Netral" "halo") /\
  length (calls (trace (task (snd r)))) = 4%nat.
Proof.
  cbv zeta. split; [exact service_ok_two_keys|]. split; [reflexivity|].
  destruct (last_attempt_decides (downstream (always 500) None) "halo" "Netral" (1 # 2)
              None None two_keys service_ok_two_keys eq_refl) as [Hr Hc].
  { intros a _. reflexivity. }
  rewrite Hr, Hc. split; reflexivity.
Defined.

(** Property X15: two keys, a 429 and then an answer: two calls, the second key. *)
Lemma first_answer_ends_dispatch_witness :
  let env := downstream (rate_limited_then 1 200 "Jawaban.") None in
  let r := create_empathetic_response env "halo" "Netral" (1 # 2) None None (fresh two_keys) in
  let tr := trace (task (snd r)) in
  service_ok two_keys /\ cancel_at env = None /\ (1 < max_retries two_keys)%nat /\
  fst r = Ok (_enhance_educational_response (strip "Jawaban.") "Netral" (1 # 2)) /\
  length (next_keys tr) = 2%nat /\
  calls tr =
    imap (call_with two_keys (selected_model env two_keys)
            (build_messages "halo" "Netral" None None))
         (next_keys tr) /\
  last_used_key (svc (snd r)) = last (next_keys tr) /\
  last_used_model (svc (snd r)) = Some (selected_model env two_keys).
Proof.
  cbv zeta.
  assert (H1 : (1 < max_retries two_keys)%nat) by (vm_compute; lia).
  split; [exact service_ok_two_keys|]. split; [reflexivity|]. split; [exact H1|].
  apply (first_answer_ends_dispatch (downstream (rate_limited_then 1 200 "Jawaban.") None)
           "halo" "Netral" (1 # 2) None None two_keys 1 "Jawaban."
           service_ok_two_keys eq_refl H1).
  - intros a key Ha. destruct a; [reflexivity|lia].
  - intros key. reflexivity.
Defined.

(** Property X16: two keys, every call timing out, the deadline set to strike at the
    second await: there is no second await, and four calls are made. *)
Lemma blocking_retries_cannot_be_cancelled_witness :
  let env := downstream timing_out (Some 1%nat) in
  let r := create_empathetic_response env "halo" "Netral" (1 # 2) None None (fresh two_keys) in
  service_ok two_keys /\ cancel_at env <> Some 0%nat /\
  fst r = Ok (_get_timeout_fallback "Netral") /\
  length (calls (trace (task (snd r)))) = 4%nat /\
  length (awaited_delays (trace (task (snd r)))) = 1%nat.
Proof.
  cbv zeta.
  assert (H1 : cancel_at (downstream timing_out (Some 1%nat)) <> Some 0%nat) by discriminate.
  split; [exact service_ok_two_keys|]. split; [exact H1|].
  destruct (blocking_retries_cannot_be_cancelled (downstream timing_out (Some 1%nat))
              "halo" "Netral" (1 # 2) None None two_keys service_ok_two_keys H1)
    as (Hr & Hc & Ha).
  { intros a _. left. reflexivity. }
  rewrite Hr, Hc, Ha. repeat split; reflexivity.
Defined.

(** Property X20: a label from another classifier. *)
Lemma unknown_label_is_served_as_netral_witness :
  let env := downstream (always 500) None in
  ~ In "Sedih" known_emotions /\ (1 # 2 <= 85 # 100)%Q /\
  create_empathetic_response env "halo" "Sedih" (1 # 2) None None (fresh two_keys) =
  create_empathetic_response env "halo" "Netral" (1 # 2) None None (fresh two_keys).
Proof.
  cbv zeta.
  assert (H1 : ~ In "Sedih" known_emotions).
  { unfold known_emotions. simpl. intros [H|[H|[H|[H|[H|[]]]]]]; discriminate H. }
  assert (H2 : (1 # 2 <= 85 # 100)%Q) by (unfold Qle; simpl; lia).
  split; [exact H1|]. split; [exact H2|].
  exact (unknown_label_is_served_as_netral (downstream (always 500) None) "halo" "Sedih"
           (1 # 2) None None (fresh two_keys) H1 H2).
Defined.

(** Property X22: two lookups on two keys, from the second key. *)
Lemma full_cycle_is_fair_witness :
  let s := advance 1 two_keys in
  rotor_ok s /\
  take_keys 2 s = (Ok ["sk-or-v1-bbbbbb2"; "sk-or-v1-aaaaaa1"], s).
Proof.
  cbv zeta.
  assert (H1 : rotor_ok (advance 1 two_keys))
    by (apply advance_ok, rotor, service_ok_two_keys).
  split; [exact H1|].
  exact (full_cycle_is_fair (advance 1 two_keys) H1).
Defined.

(** Property X23: a first message in the conversation [c1]. *)
Lemma reply_is_filed_after_two_copies_witness :
  let env := outside (downstream (always 500) None) in
  let w := filed one_key in
  service_ok (Chat.llm_service w) /\ store_ok (Chat.conversation_service w) /\
  Conversations.get_conversation "c1" "tok" (Chat.conversation_service w) = Some c1 /\
  exists response w' u1 u2 a,
    Chat.send_message env "c1" (bearer "tok") halo w = (Ok response, w') /\
    stored "tok" "c1" None [u1; u2; a] w' /\
    user_turn "halo" u1 /\ user_turn "halo" u2 /\
    reply_turn (Chat.resp_content response) (Chat.resp_emotion response)
      (Chat.resp_emotion_confidence response) a /\
    Chat.resp_id response = Conversations.msg_id a /\
    (Chat.resp_emotion response, Chat.resp_emotion_confidence response) = ("Netral", 1 # 2).
Proof.
  cbv zeta.
  assert (E : Conversations.get_conversation "c1" "tok"
                (Chat.conversation_service (filed one_key)) = Some c1)
    by exact (get_saved c1 "tok" _).
  split; [exact service_ok_one_key|]. split; [exact store_ok_one_conversation|].
  split; [exact E|].
  exact (reply_is_filed_after_two_copies (outside (downstream (always 500) None)) "c1"
           (bearer "tok") halo (filed one_key) c1 service_ok_one_key
           store_ok_one_conversation eq_refl E).
Defined.

(** Property X24: a message for the conversation [c1] when nothing is filed. *)
Lemma missing_conversation_is_replaced_witness :
  let env := outside (downstream (always 500) None) in
  let w := start one_key true in
  service_ok (Chat.llm_service w) /\
  Tree.names_directory "tok" /\ Tree.names_file "c1" /\ Tree.tree_like env w /\
  store_ok (Chat.conversation_service w) /\
  Conversations.get_conversation "c1" "tok" (Chat.conversation_service w) = None /\
  exists response w' u1 u2 a,
    Chat.send_message env "c1" (bearer "tok") halo w = (Ok response, w') /\
    stored "tok" "0" None [u1; u2; a] w' /\
    user_turn "halo" u1 /\ user_turn "halo" u2 /\
    Conversations.sender a = "assistant" /\
    Chat.resp_content response =
      "⚠️ Conversation not found. A new conversation was created (id: " ++ "0" ++ ")."
      ++ nl ++ nl ++ Conversations.msg_content a.
Proof.
  cbv zeta.
  split; [exact service_ok_one_key|]. split; [reflexivity|]. split; [reflexivity|].
  split; [apply tree_like_start|]. split; [exact store_ok_empty|].
  split; [reflexivity|].
  exact (missing_conversation_is_replaced (outside (downstream (always 500) None)) "c1"
           (bearer "tok") halo (start one_key true) service_ok_one_key eq_refl eq_refl
           (tree_like_start _ _ _) store_ok_empty eq_refl eq_refl).
Defined.

(** Property X26: a first message in the conversation [c1], on two keys that answer
    500. *)
Lemma every_call_repeats_the_message_witness :
  let env := outside (downstream (always 500) None) in
  let w := filed two_keys in
  let turn := {| LLM.role := "user"; LLM.content := "halo" |} in
  service_ok (Chat.llm_service w) /\
  Tree.names_directory "tok" /\ Tree.names_file "c1" /\ Tree.tree_like env w /\
  store_ok (Chat.conversation_service w) /\
  Chat.task w = new_task /\
  exists response w' before,
    Chat.send_message env "c1" (bearer "tok") halo w = (Ok response, w') /\
    calls (trace (Chat.task w')) =
      imap (call_with two_keys (selected_model (downstream (always 500) None) two_keys)
              (app before [turn; turn]))
           (next_keys (trace (Chat.task w'))).
Proof.
  cbv zeta.
  split; [exact service_ok_two_keys|]. split; [reflexivity|]. split; [reflexivity|].
  split; [apply tree_like_filed|]. split; [exact store_ok_one_conversation|].
  split; [reflexivity|].
  exact (every_call_repeats_the_message (outside (downstream (always 500) None)) "c1"
           (bearer "tok") halo (filed two_keys) service_ok_two_keys eq_refl eq_refl
           (tree_like_filed _ _) store_ok_one_conversation eq_refl eq_refl).
Defined.

(** Property X27: a fourth request of [tok] within the day. *)
Lemma refusal_is_reported_as_500_witness :
  let env := outside (downstream (always 200) None) in
  let w := spent one_key in
  allowed (fst (Limiter.can_user_make_prompt (Chat.PROMPT_LIMIT_ENABLED w)
                  (Chat.time_time env (Chat.clock_reads w)) "tok" (Chat.user_limiter w)))
    = false /\
  exists w',
    Chat.send_message env "c1" (bearer "tok") halo w =
      (Raise (HTTPException 500
                ("Failed to process legacy chat: " ++ str (Chat.limit_reached 3))), w') /\
    Chat.conversation_service w' = Chat.conversation_service w /\
    Chat.task w' = Chat.task w /\
    Chat.request_queue w' = Chat.request_queue w.
Proof.
  cbv zeta. split; [reflexivity|].
  destruct (refusal_is_reported_as_500 (outside (downstream (always 200) None)) "c1"
              (bearer "tok") halo (spent one_key) eq_refl)
    as (w' & E & Hc & _ & Ht & Hq & _).
  exists w'. split; [exact E|]. split; [exact Hc|]. split; [exact Ht|exact Hq].
Defined.

(** Property X28: a request on a service without keys. *)
Lemma request_without_keys_fails_witness :
  let env := outside (downstream (always 200) None) in
  let w := start no_keys true in
  api_keys (Chat.llm_service w) = [] /\
  Tree.names_directory "tok" /\ Tree.names_file "c1" /\ Tree.tree_like env w /\
  store_ok (Chat.conversation_service w) /\
  Queue._semaphore (Chat.request_queue w) <> 0%nat /\
  cancel_at (Chat.llm_env env) <> Some (awaits (Chat.task w)) /\
  exists w' u1 u2,
    Chat.send_message env "c1" (bearer "tok") halo w =
      (Raise (HTTPException 500
                ("Failed to process legacy chat: "
                 ++ str (HTTPException 500
                           ("Failed to process message: "
                            ++ str (Exception "No API keys available"))))), w') /\
    stored "tok" "0" None [u1; u2] w' /\
    user_turn "halo" u1 /\ user_turn "halo" u2 /\
    Chat.request_queue w' = counted (Chat.request_queue w) 1 /\
    calls (trace (Chat.task w')) = calls (trace (Chat.task w)) /\
    exists l,
      Limiter.window "tok" l `suffix_of` Limiter.window "tok" (Chat.user_limiter w) /\
      Chat.user_limiter w' = Chat.interleaved env l.
Proof.
  cbv zeta.
  assert (H1 : Queue._semaphore (Chat.request_queue (start no_keys true)) <> 0%nat)
    by discriminate.
  assert (H2 : cancel_at (Chat.llm_env (outside (downstream (always 200) None)))
               <> Some (awaits (Chat.task (start no_keys true)))) by discriminate.
  split; [reflexivity|]. split; [reflexivity|]. split; [reflexivity|].
  split; [apply tree_like_start|]. split; [exact store_ok_empty|]. split; [exact H1|].
  split; [exact H2|].
  exact (request_without_keys_fails (outside (downstream (always 200) None)) "c1"
           (bearer "tok") halo (start no_keys true) eq_refl eq_refl eq_refl
           (tree_like_start _ _ _) store_ok_empty eq_refl H1 H2).
Defined.

(** Property X30: the body of the route when the client sends no title. *)
Lemma route_title_is_never_replaced_witness :
  let env := outside (downstream (always 200) None) in
  let w := start one_key true in
  Tree.names_directory "tok" /\ Tree.tree_like env w /\
  store_ok (Chat.conversation_service w) /\
  Routes.title Routes.default_CreateConversationRequest = Some "Percakapan Baru" /\
  "Percakapan Baru" <> Conversations.default_title /\
  exists c w1,
    Routes.create_conversation env (bearer "tok") Routes.default_CreateConversationRequest w
      = (Ok c, w1) /\
    title_of (Conversations.id c) "tok"
      (add_each (Chat._generate_title env) (Conversations.id c) "tok" [question; greeting]
         (Chat.conversation_service w1)) = Some "Percakapan Baru".
Proof.
  cbv zeta.
  assert (H1 : "Percakapan Baru" <> Conversations.default_title) by discriminate.
  split; [reflexivity|]. split; [apply tree_like_start|].
  split; [exact store_ok_empty|]. split; [reflexivity|]. split; [exact H1|].
  apply (route_title_is_never_replaced (outside (downstream (always 200) None))
           (bearer "tok") Routes.default_CreateConversationRequest "Percakapan Baru"
           [question; greeting] (start one_key true) eq_refl (tree_like_start _ _ _)
           store_ok_empty eq_refl);
    [discriminate|exact H1].
Defined.

(** Property X29: a conversation made, fetched and deleted by [tok]. *)
Lemma created_conversation_is_served_until_deleted_witness :
  let env := outside (downstream (always 200) None) in
  let w := start one_key true in
  let request := bearer "tok" in
  let not_found := HTTPException 404 "Conversation not found" in
  Tree.names_directory "tok" /\ Tree.tree_like env w /\
  exists c w1 w2,
    Routes.create_conversation env request Routes.default_CreateConversationRequest w
      = (Ok c, w1) /\
    Conversations.id c = "0" /\
    Conversations.user_id c = "tok" /\
    Conversations.messages c = [] /\
    Routes.get_conversation (Conversations.id c) request w1 = (Ok c, w1) /\
    Routes.delete_conversation (Conversations.id c) request w1 =
      (Ok "Conversation deleted successfully", w2) /\
    Routes.get_conversation (Conversations.id c) request w2 = (Raise not_found, w2) /\
    Routes.update_conversation_title (Conversations.id c) request "Pecahan" w2 =
      (Raise not_found, w2) /\
    Routes.delete_conversation (Conversations.id c) request w2 = (Raise not_found, w2).
Proof.
  cbv zeta. split; [reflexivity|]. split; [apply tree_like_start|].
  exact (created_conversation_is_served_until_deleted (outside (downstream (always 200) None))
           (bearer "tok") Routes.default_CreateConversationRequest "Pecahan"
           (start one_key true) eq_refl (tree_like_start _ _ _)).
Defined.

End MoreInstances.
